(** * chat-migrator: conversation acquisition and normalisation

    A shallow embedding of the export parser (graph of message nodes to a
    linear thread plus branches) and of the resilient scraper (retry with
    backoff, rate limiting, persisted progress, resume), with the properties
    the specification states about them.

    Conventions of the embedding.
    - JavaScript strings are [string]s; only ASCII text is distinguished
      (word characters and white space are the ASCII ones).
    - JSON numbers that the code only stores or compares are integers [Z];
      the delays, which the code computes with [*], [Math.pow] and
      [Math.min], are rationals [Q] (exact arithmetic, no rounding); the
      times of the export, which the code multiplies by 1000 and hands to
      [Date], are binary64 numbers [float], as JavaScript has them.
    - A thrown exception is a value of [exn]; a function that may throw
      returns a [result].  A loop whose termination is not evident from its
      shape takes a [fuel] and returns [None] when the fuel runs out, so
      that "does not terminate" reads "returns [None] for every fuel".
    - Console output is not modelled. *)

From Stdlib Require Import List String Ascii ZArith QArith Qminmax Bool Arith Lia.
From Stdlib Require Import DecimalString Lqa Qpower Floats.
Import ListNotations.

Set Warnings "-register-all".

Local Open Scope string_scope.
Local Open Scope list_scope.
Local Close Scope Q_scope.
Local Open Scope nat_scope.

(** ** Exceptions and results *)

Inductive exn : Type :=
| SyntaxError (msg : string)
| TypeError (msg : string)
| Error (msg : string).

Definition message_of (e : exn) : string :=
  match e with
  | SyntaxError m => m
  | TypeError m => m
  | Error m => m
  end.

Inductive result (A : Type) : Type :=
| Ok (a : A)
| Throw (e : exn).
Arguments Ok {A} a.
Arguments Throw {A} e.

Definition rbind {A B} (r : result A) (k : A -> result B) : result B :=
  match r with
  | Ok a => k a
  | Throw e => Throw e
  end.

(** [try { body } catch (error) { handler }] *)
Definition try_catch {A} (body : result A) (handler : exn -> result A) : result A :=
  match body with
  | Ok a => Ok a
  | Throw e => handler e
  end.

(** A computation that may also fail to terminate: [None] when the fuel
    given to its loops did not suffice. *)
Definition partial (A : Type) : Type := option (result A).

Definition pbind {A B} (c : partial A) (k : A -> partial B) : partial B :=
  match c with
  | Some (Ok a) => k a
  | Some (Throw e) => Some (Throw e)
  | None => None
  end.

Definition pret {A} (a : A) : partial A := Some (Ok a).

Declare Scope partial_scope.
Notation "x <- c ;; k" := (pbind c (fun x => k))
  (at level 61, c at next level, right associativity) : partial_scope.

(** ** JSON documents *)

(** The value [JSON.parse] returns, as a tree.  The text of a document is
    not modelled: a well-formed text is identified with its tree.  The
    numbers of a document are integers; where the code computes with one,
    it is read as the binary64 nearest to it ([numberOfZ] below). *)
Inductive json : Type :=
| JNull
| JBool (b : bool)
| JNum (n : Z)
| JStr (s : string)
| JArr (items : list json)
| JObj (fields : list (string * json)).

(** Property read [o[k]] on the fields of an object; [None] is [undefined]. *)
Fixpoint get (k : string) (fields : list (string * json)) : option json :=
  match fields with
  | [] => None
  | (k', v) :: rest => if String.eqb k k' then Some v else get k rest
  end.

(** Truthiness of a parsed value: [!v] is [negb (truthy v)]. *)
Definition truthy (v : json) : bool :=
  match v with
  | JNull => false
  | JBool b => b
  | JNum n => negb (Z.eqb n 0)
  | JStr s => negb (String.eqb s "")
  | JArr _ => true
  | JObj _ => true
  end.

Definition nonempty (s : string) : bool := negb (String.eqb s "").

(** ** Numbers *)

(** The number an integer literal denotes: the nearest binary64. *)
Definition numberOfZ (n : Z) : float := SF2Prim (binary_normalize prec emax n 0 false).

(** Truthiness of a number: [0], [-0] and [NaN] are falsy. *)
Definition truthyNumber (x : float) : bool := negb (PrimFloat.eqb x 0 || is_nan x).

(** The integral part of a finite number, towards zero; [None] for [NaN]
    and the infinities. *)
Definition truncate (x : float) : option Z :=
  match Prim2SF x with
  | S754_zero _ => Some 0%Z
  | S754_finite negative m e =>
      let magnitude :=
        if (0 <=? e)%Z then (Z.pos m * 2 ^ e)%Z else Z.shiftr (Z.pos m) (- e) in
      Some (if negative then (- magnitude)%Z else magnitude)
  | S754_infinity _ | S754_nan => None
  end.

(** [xs.includes(x)] and [set.has(x)] on strings. *)
Fixpoint includes (xs : list string) (x : string) : bool :=
  match xs with
  | [] => false
  | y :: ys => String.eqb y x || includes ys x
  end.

(** ** GraphParser: the export parser *)

Module Parser.

Local Open Scope partial_scope.

(** The declarations of [@/types/chatgpt] are not among the sources.  The
    records below have the fields the parser reads and writes, with the
    types the data model of the specification gives them.  A field the
    parser guards before use ([node.message], [node.children], [title],
    [create_time], [currentNode]) is an [option], [None] standing for
    [null] and for a missing key alike; [parent], which is compared with
    [null], is [None] when it is [null]. *)

(** Modelled from the spec: the [author] of a [Message] (not among the
    sources), of which the parser reads [role]. *)
Record Author := { role : string }.

(** Modelled from the spec: the [metadata] of a [Message] (not among the
    sources): model identifier and citations. *)
Record MessageMetadata := {
  model_slug : option string;
  citations : option json
}.

(** Modelled from the spec: [Message] (not among the sources).  [content]
    is declared [any] by [extractTextContent] and stays a JSON value;
    [metadata], which the data model requires, is an [option] so that a
    message object without that key can be written. *)
Record Message := {
  msg_id : string;
  author : Author;
  msg_create_time : option float;
  content : option json;
  msg_metadata : option MessageMetadata
}.

(** Modelled from the spec: [MessageNode] (not among the sources): [id],
    nullable [message] and [parent], ordered [children]. *)
Record MessageNode := {
  id : string;
  message : option Message;
  parent : option string;
  children : option (list string)
}.

(** [Record<string, MessageNode>]: the entries in the order [Object.values]
    and [Object.keys] enumerate them. *)
Definition Mapping := list (string * MessageNode).

(** Modelled from the spec: [Conversation] (not among the sources).
    [mapping] is [None] for a conversation without one; the two times are
    numbers, in seconds and with a fraction in the exports of ChatGPT. *)
Record Conversation := {
  conv_id : string;
  title : option string;
  create_time : float;
  update_time : float;
  mapping : option Mapping;
  current_node : option string
}.

(** Modelled from the spec: [ChatGPTExport] (not among the sources).  The
    array is what [JSON.parse] gave and the cast let through: an element is
    a conversation or [null], which is [None]. *)
Record ChatGPTExport := { conversations : list (option Conversation) }.

(** Modelled from the spec: [CodeBlock] (not among the sources), as
    [extractCodeBlocks] builds it. *)
Record CodeBlock := { language : string; code : string }.

(** A [Date]: built from a time value in milliseconds, or [new Date()],
    the clock at the moment of the call, or an invalid date, whose time
    value is [NaN]. *)
Inductive Timestamp : Type :=
| DateOfMillis (ms : Z)
| DateNow
| InvalidDate.

(** The largest time value of a [Date], in milliseconds. *)
Definition maxTime : Z := 8640000000000000.

(** [new Date(ms)] on an integral number. *)
Definition dateOfMillis (ms : Z) : Timestamp :=
  if (Z.abs ms <=? maxTime)%Z then DateOfMillis ms else InvalidDate.

(** [new Date(value)] on a number: the time value is [value] without its
    fraction, and the date is invalid when [value] is not finite or is
    beyond [maxTime].  A binary64 beyond 2^52 has no fraction, so the bound
    on [value] is the bound on its integral part. *)
Definition newDate (value : float) : Timestamp :=
  match truncate value with
  | Some ms => dateOfMillis ms
  | None => InvalidDate
  end.

(** Modelled from the spec: the [metadata] of a [ProcessedMessage] (not
    among the sources), as [processMessage] builds it. *)
Record ProcessedMetadata := {
  model : option string;
  pm_citations : option json;
  codeBlocks : option (list CodeBlock)
}.

(** Modelled from the spec: [ProcessedMessage] (not among the sources), as
    [processMessage] builds it. *)
Record ProcessedMessage := {
  pm_id : string;
  pm_role : string;
  pm_content : string;
  timestamp : Timestamp;
  contentType : option json;
  metadata : ProcessedMetadata
}.

(** Modelled from the spec: [ProcessedBranch] (not among the sources), as
    [extractBranches] builds it. *)
Record ProcessedBranch := {
  branch_id : string;
  parentMessageId : string;
  branch_messages : list ProcessedMessage
}.

(** Modelled from the spec: [ConversationMetadata] (not among the sources),
    as [generateMetadata] builds it. *)
Record ConversationMetadata := {
  totalMessages : nat;
  userMessages : nat;
  assistantMessages : nat;
  hasCode : bool;
  hasImages : bool;
  hasBranches : bool;
  models : list string
}.

(** Modelled from the spec: [ProcessedConversation] (not among the
    sources), as [processConversation] builds it; [branches] is [None] when
    the field is [undefined]. *)
Record ProcessedConversation := {
  pc_id : string;
  pc_title : string;
  created : Timestamp;
  updated : Timestamp;
  messageCount : nat;
  messages : list ProcessedMessage;
  branches : option (list ProcessedBranch);
  pc_metadata : ConversationMetadata
}.

(** [Object.values(mapping)], and [mapping[key]] on the entries of the
    object itself. *)
Definition values (m : Mapping) : list MessageNode := map snd m.

Fixpoint lookup (k : string) (m : Mapping) : option MessageNode :=
  match m with
  | [] => None
  | (k', n) :: rest => if String.eqb k' k then Some n else lookup k rest
  end.

(** *** Text and code extraction *)

Definition newline : string := String "010"%char EmptyString.

Fixpoint stringParts (items : list json) : list string :=
  match items with
  | [] => []
  | JStr s :: rest => s :: stringParts rest
  | _ :: rest => stringParts rest
  end.

Definition stringField (k : string) (fields : list (string * json)) : option string :=
  match get k fields with
  | Some (JStr s) => if nonempty s then Some s else None
  | _ => None
  end.

(** [extractTextContent(content: any)]; reading a property of [null]
    throws. *)
Definition extractTextContent (content : json) : result string :=
  match content with
  | JNull => Throw (TypeError "Cannot read properties of null (reading 'parts')")
  | JObj fields =>
      match get "parts" fields with
      | Some (JArr items) => Ok (String.concat newline (stringParts items))
      | _ =>
          match stringField "text" fields with
          | Some s => Ok s
          | None =>
              match stringField "result" fields with
              | Some s => Ok s
              | None => Ok ""
              end
          end
      end
  | JStr s => Ok s
  | _ => Ok ""
  end.

Definition isWordChar (c : ascii) : bool :=
  let n := nat_of_ascii c in
  ((48 <=? n) && (n <=? 57)) || ((65 <=? n) && (n <=? 90))
  || ((97 <=? n) && (n <=? 122)) || (n =? 95).

Definition isSpace (c : ascii) : bool :=
  let n := nat_of_ascii c in
  ((9 <=? n) && (n <=? 13)) || (n =? 32).

Definition fence : string := "```".

Fixpoint dropChars (n : nat) (s : string) : string :=
  match n, s with
  | S k, String _ s' => dropChars k s'
  | _, _ => s
  end.

(** The longest run of word characters at the head of [s], and what follows. *)
Fixpoint takeWord (s : string) : string * string :=
  match s with
  | String c s' =>
      if isWordChar c
      then let (w, r) := takeWord s' in (String c w, r)
      else (EmptyString, s)
  | EmptyString => (EmptyString, EmptyString)
  end.

(** The text before the first fence of [s]; [None] when [s] has no fence. *)
Fixpoint beforeFence (s : string) : option string :=
  if String.prefix fence s then Some EmptyString
  else match s with
       | EmptyString => None
       | String c s' =>
           match beforeFence s' with
           | Some b => Some (String c b)
           | None => None
           end
       end.

Fixpoint trimStart (s : string) : string :=
  match s with
  | String c s' => if isSpace c then trimStart s' else s
  | EmptyString => EmptyString
  end.

Fixpoint trimEnd (s : string) : string :=
  match s with
  | String c s' =>
      let t := trimEnd s' in
      if isSpace c && String.eqb t "" then EmptyString else String c t
  | EmptyString => EmptyString
  end.

Definition trim (s : string) : string := trimEnd (trimStart s).

(** One match of [/```(\w+)?\n([\s\S]*?)```/] anchored at the head of [s]:
    the block and the length of the matched text. *)
Definition matchAt (s : string) : option (CodeBlock * nat) :=
  if String.prefix fence s then
    let (w, r) := takeWord (dropChars 3 s) in
    match r with
    | String "010"%char body =>
        match beforeFence body with
        | Some c =>
            Some ({| language := if nonempty w then w else "plaintext";
                     code := trim c |},
                  3 + String.length w + 1 + String.length c + 3)
        | None => None
        end
    | _ => None
    end
  else None.

(** The [exec] loop of the global pattern: [skip] characters of the last
    match are still to be passed over. *)
Fixpoint scanBlocks (skip : nat) (s : string) : list CodeBlock :=
  match s with
  | EmptyString => []
  | String _ s' =>
      match skip with
      | S k => scanBlocks k s'
      | O =>
          match matchAt s with
          | Some (b, len) => b :: scanBlocks (len - 1) s'
          | None => scanBlocks 0 s'
          end
      end
  end.

Definition extractCodeBlocks (content : string) : list CodeBlock :=
  scanBlocks 0 content.

(** *** Messages *)

Definition nonemptyList {A} (l : list A) : option (list A) :=
  match l with
  | [] => None
  | _ => Some l
  end.

Definition contentTypeOf (c : json) : option json :=
  match c with
  | JObj fields => get "content_type" fields
  | _ => None
  end.

(** [create_time ? new Date(create_time * 1000) : new Date()] *)
Definition messageTimestamp (t : option float) : Timestamp :=
  match t with
  | Some x => if truthyNumber x then newDate (x * 1000)%float else DateNow
  | None => DateNow
  end.

(** [processMessage]: [Ok None] is the [null] return. *)
Definition processMessage (message : Message) : result (option ProcessedMessage) :=
  match content message with
  | None => Ok None
  | Some c =>
      if negb (truthy c) || String.eqb (role (author message)) "system" then Ok None
      else
        rbind (extractTextContent c) (fun textContent =>
        if negb (nonempty textContent) then Ok None
        else
          let blocks := extractCodeBlocks textContent in
          match msg_metadata message with
          | None =>
              Throw (TypeError "Cannot read properties of undefined (reading 'model_slug')")
          | Some md =>
              Ok (Some {|
                pm_id := msg_id message;
                pm_role := if String.eqb (role (author message)) "tool"
                           then "assistant" else role (author message);
                pm_content := textContent;
                timestamp := messageTimestamp (msg_create_time message);
                contentType := contentTypeOf c;
                metadata := {| model := model_slug md;
                               pm_citations := citations md;
                               codeBlocks := nonemptyList blocks |}
              |})
          end)
  end.

(** *** The main thread *)

Definition isNull {A} (o : option A) : bool :=
  match o with
  | None => true
  | Some _ => false
  end.

Definition pushMaybe {A} (l : list A) (o : option A) : list A :=
  match o with
  | Some a => l ++ [a]
  | None => l
  end.

(** [if (node.message) { ... processMessage(node.message) ... }] *)
Definition processNode (node : MessageNode) : result (option ProcessedMessage) :=
  match message node with
  | Some msg => processMessage msg
  | None => Ok None
  end.

(** [node.children[0]] under the guard [node.children && node.children.length > 0] *)
Definition firstChild (node : MessageNode) : option string :=
  match children node with
  | Some (c :: _) => Some c
  | _ => None
  end.

(** The walk back to the root:
    [while (node.parent && mapping[node.parent]) node = mapping[node.parent]]. *)
Fixpoint walkUp (fuel : nat) (mapping : Mapping) (node : MessageNode) : option MessageNode :=
  match fuel with
  | O => None
  | S fuel' =>
      match parent node with
      | Some p =>
          if nonempty p then
            match lookup p mapping with
            | Some up => walkUp fuel' mapping up
            | None => Some node
            end
          else Some node
      | None => Some node
      end
  end.

(** The traversal [while (node) { ... }] of [extractMainThread]. *)
Fixpoint mainLoop (fuel : nat) (mapping : Mapping) (visited : list string)
    (node : option MessageNode) (messages : list ProcessedMessage)
    : partial (list ProcessedMessage) :=
  match fuel with
  | O => None
  | S fuel' =>
      match node with
      | None => pret messages
      | Some n =>
          if includes visited (id n) then pret messages
          else
            match processNode n with
            | Throw e => Some (Throw e)
            | Ok pm =>
                let messages' := pushMaybe messages pm in
                match firstChild n with
                | Some nextNodeId =>
                    mainLoop fuel' mapping (id n :: visited) (lookup nextNodeId mapping) messages'
                | None => pret messages'
                end
            end
      end
  end.

(** The node the traversal starts from; [None] inside is [undefined]
    ([nodes[0]] of an empty mapping). *)
Definition findStart (fuel : nat) (mapping : Mapping) (currentNode : option string)
    : option (option MessageNode) :=
  let nodes := values mapping in
  match find (fun n => isNull (parent n)) nodes with
  | Some n => Some (Some n)
  | None =>
      match currentNode with
      | Some c =>
          if nonempty c then
            match lookup c mapping with
            | Some n =>
                match walkUp fuel mapping n with
                | Some r => Some (Some r)
                | None => None
                end
            | None => Some (hd_error nodes)
            end
          else Some (hd_error nodes)
      | None => Some (hd_error nodes)
      end
  end.

Definition extractMainThread (fuel : nat) (mapping : Mapping) (currentNode : option string)
    : partial (list ProcessedMessage) :=
  match findStart fuel mapping currentNode with
  | Some node => mainLoop fuel mapping [] node []
  | None => None
  end.

(** *** Branches *)

(** The traversal of [extractBranchThread]. *)
Fixpoint branchLoop (fuel : nat) (mapping : Mapping) (mainThreadIds visited : list string)
    (node : option MessageNode) (messages : list ProcessedMessage)
    : partial (list ProcessedMessage) :=
  match fuel with
  | O => None
  | S fuel' =>
      match node with
      | None => pret messages
      | Some n =>
          if includes mainThreadIds (id n) then pret messages
          else if includes visited (id n) then pret messages
          else
            match processNode n with
            | Throw e => Some (Throw e)
            | Ok pm =>
                let messages' := pushMaybe messages pm in
                match firstChild n with
                | Some c =>
                    branchLoop fuel' mapping mainThreadIds (id n :: visited)
                      (lookup c mapping) messages'
                | None => pret messages'
                end
            end
      end
  end.

Definition extractBranchThread (fuel : nat) (mapping : Mapping) (startNodeId : string)
    (mainThreadIds : list string) : partial (list ProcessedMessage) :=
  branchLoop fuel mapping mainThreadIds [] (lookup startNodeId mapping) [].

(** [node.children.slice(1).forEach(childId => ...)] *)
Fixpoint forEachChild (fuel : nat) (mapping : Mapping) (mainThreadIds : list string)
    (nodeId : string) (childIds : list string) (branches : list ProcessedBranch)
    : partial (list ProcessedBranch) :=
  match childIds with
  | [] => pret branches
  | childId :: rest =>
      branchMessages <- extractBranchThread fuel mapping childId mainThreadIds ;;
      forEachChild fuel mapping mainThreadIds nodeId rest
        (match branchMessages with
         | [] => branches
         | _ => branches ++ [{| branch_id := childId;
                                parentMessageId := nodeId;
                                branch_messages := branchMessages |}]
         end)
  end.

(** The children a branch point hands to [forEachChild]:
    [node.children.slice(1)] when [node.children.length > 1]. *)
Definition branchRoots (node : MessageNode) : list string :=
  match children node with
  | Some (_ :: c :: rest) => c :: rest
  | _ => []
  end.

(** [Object.values(mapping).forEach(node => ...)] *)
Fixpoint forEachNode (fuel : nat) (mapping : Mapping) (mainThreadIds : list string)
    (nodes : list MessageNode) (branches : list ProcessedBranch)
    : partial (list ProcessedBranch) :=
  match nodes with
  | [] => pret branches
  | node :: rest =>
      branches' <- forEachChild fuel mapping mainThreadIds (id node) (branchRoots node) branches ;;
      forEachNode fuel mapping mainThreadIds rest branches'
  end.

Definition extractBranches (fuel : nat) (mapping : Mapping) (mainThread : list ProcessedMessage)
    : partial (list ProcessedBranch) :=
  forEachNode fuel mapping (map pm_id mainThread) (values mapping) [].

(** *** Conversations *)

Definition count {A} (p : A -> bool) (l : list A) : nat := List.length (filter p l).

(** [Array.from(new Set(xs))]: first occurrences, in order. *)
Fixpoint distinct (seen xs : list string) : list string :=
  match xs with
  | [] => []
  | x :: rest =>
      if includes seen x then distinct seen rest else x :: distinct (x :: seen) rest
  end.

Fixpoint truthyModels (ms : list ProcessedMessage) : list string :=
  match ms with
  | [] => []
  | m :: rest =>
      match model (metadata m) with
      | Some s => if nonempty s then s :: truthyModels rest else truthyModels rest
      | None => truthyModels rest
      end
  end.

Definition generateMetadata (messages : list ProcessedMessage)
    (branches : list ProcessedBranch) : ConversationMetadata :=
  {| totalMessages := List.length messages;
     userMessages := count (fun m => String.eqb (pm_role m) "user") messages;
     assistantMessages := count (fun m => String.eqb (pm_role m) "assistant") messages;
     hasCode := existsb (fun m => match codeBlocks (metadata m) with
                                  | Some (_ :: _) => true
                                  | _ => false
                                  end) messages;
     hasImages := existsb (fun m => match contentType m with
                                    | Some (JStr s) => String.eqb s "multimodal_text"
                                    | _ => false
                                    end) messages;
     hasBranches := negb (Nat.eqb (List.length branches) 0);
     models := distinct [] (truthyModels messages) |}.

Definition processConversation (fuel : nat) (conversation : Conversation)
    : partial ProcessedConversation :=
  match mapping conversation with
  | None => Some (Throw (TypeError "Cannot convert undefined or null to object"))
  | Some m =>
      mainThread <- extractMainThread fuel m (current_node conversation) ;;
      branches <- extractBranches fuel m mainThread ;;
      pret {| pc_id := conv_id conversation;
              pc_title := match title conversation with
                          | Some t => if nonempty t then t else "Untitled Conversation"
                          | None => "Untitled Conversation"
                          end;
              created := newDate (create_time conversation * 1000)%float;
              updated := newDate (update_time conversation * 1000)%float;
              messageCount := List.length mainThread;
              messages := mainThread;
              branches := nonemptyList branches;
              pc_metadata := generateMetadata mainThread branches |}
  end.

(** [processConversation] on an element of the array: destructuring
    [null] throws. *)
Definition processElement (fuel : nat) (conversation : option Conversation)
    : partial ProcessedConversation :=
  match conversation with
  | Some c => processConversation fuel c
  | None =>
      Some (Throw (TypeError
                     "Cannot destructure property 'id' of 'conversation' as it is null."))
  end.

(** [conversation.id], which the handler below reads for its message. *)
Definition readId (conversation : option Conversation) : result string :=
  match conversation with
  | Some c => Ok (conv_id c)
  | None => Throw (TypeError "Cannot read properties of null (reading 'id')")
  end.

(** The callback of [processConversations]: [try { return
    processConversation(conversation) } catch (error) {
    console.error(`... ${conversation.id}:`, error); return null }].  The
    handler evaluates [conversation.id] and throws in its turn when the
    element is [null]. *)
Definition tryProcess (fuel : nat) (conversation : option Conversation)
    : partial (option ProcessedConversation) :=
  match processElement fuel conversation with
  | Some r =>
      Some (try_catch (rbind r (fun p => Ok (Some p)))
              (fun _ => rbind (readId conversation) (fun _ => Ok None)))
  | None => None
  end.

(** [Array.prototype.map] for a callback that may throw or not return. *)
Fixpoint mapPartial {A B} (f : A -> partial B) (l : list A) : partial (list B) :=
  match l with
  | [] => pret []
  | x :: xs =>
      y <- f x ;;
      ys <- mapPartial f xs ;;
      pret (y :: ys)
  end.

(** [.filter(conv => conv !== null)] *)
Fixpoint notNull {A} (l : list (option A)) : list A :=
  match l with
  | [] => []
  | Some a :: rest => a :: notNull rest
  | None :: rest => notNull rest
  end.

Definition processConversations (fuel : nat) (chatGPTExport : ChatGPTExport)
    : partial (list ProcessedConversation) :=
  rs <- mapPartial (tryProcess fuel) (conversations chatGPTExport) ;;
  pret (notNull rs).

(** *** Reading the export document *)

(** The argument of [JSON.parse]: a text that does not parse (with the
    message of the [SyntaxError]) or the document it denotes. *)
Inductive JsonText : Type :=
| Malformed (msg : string)
| Document (doc : json).

Definition JSON_parse (t : JsonText) : result json :=
  match t with
  | Malformed msg => Throw (SyntaxError msg)
  | Document doc => Ok doc
  end.

(** [parseExport], up to the cast of its return value: the elements of the
    conversations array, still as parsed. *)
Definition parseExport (jsonContent : JsonText) : result (list json) :=
  try_catch
    (rbind (JSON_parse jsonContent) (fun data =>
       match data with
       | JArr items => Ok items
       | JObj fields =>
           match get "conversations" fields with
           | Some (JArr items) => Ok items
           | _ => Throw (Error "No conversations array found in export")
           end
       | _ => Throw (Error "Invalid JSON structure")
       end))
    (fun error =>
       match error with
       | SyntaxError msg => Throw (Error ("Invalid JSON file: " ++ msg))
       | _ => Throw error
       end).

(** The cast [as ChatGPTExport] read field by field: defined on the
    documents whose fields have the declared types, a missing or [null]
    field of an optional kind being [None]. *)
Definition asOptString (o : option json) : option (option string) :=
  match o with
  | None | Some JNull => Some None
  | Some (JStr s) => Some (Some s)
  | Some _ => None
  end.

(** A field of type [string | null]: the key has to be there. *)
Definition asNullableString (o : option json) : option (option string) :=
  match o with
  | Some JNull => Some None
  | Some (JStr s) => Some (Some s)
  | _ => None
  end.

Definition asOptNum (o : option json) : option (option Z) :=
  match o with
  | None | Some JNull => Some None
  | Some (JNum z) => Some (Some z)
  | Some _ => None
  end.

Fixpoint asStrings (items : list json) : option (list string) :=
  match items with
  | [] => Some []
  | JStr s :: rest =>
      match asStrings rest with
      | Some l => Some (s :: l)
      | None => None
      end
  | _ :: _ => None
  end.

Definition asMetadata (o : option json) : option (option MessageMetadata) :=
  match o with
  | None => Some None
  | Some (JObj md) =>
      match asOptString (get "model_slug" md) with
      | Some slug => Some (Some {| model_slug := slug; citations := get "citations" md |})
      | None => None
      end
  | Some _ => None
  end.

Definition asMessage (j : json) : option Message :=
  match j with
  | JObj fs =>
      match get "id" fs, get "author" fs with
      | Some (JStr i), Some (JObj a) =>
          match get "role" a, asOptNum (get "create_time" fs), asMetadata (get "metadata" fs) with
          | Some (JStr r), Some t, Some md =>
              Some {| msg_id := i; author := {| role := r |};
                      msg_create_time := option_map numberOfZ t;
                      content := get "content" fs; msg_metadata := md |}
          | _, _, _ => None
          end
      | _, _ => None
      end
  | _ => None
  end.

Definition asNode (j : json) : option MessageNode :=
  match j with
  | JObj fs =>
      match get "id" fs, asNullableString (get "parent" fs) with
      | Some (JStr i), Some p =>
          let kids := match get "children" fs with
                      | Some (JArr items) =>
                          match asStrings items with
                          | Some l => Some (Some l)
                          | None => None
                          end
                      | None => Some None
                      | Some _ => None
                      end in
          let msg := match get "message" fs with
                     | None | Some JNull => Some None
                     | Some m =>
                         match asMessage m with
                         | Some x => Some (Some x)
                         | None => None
                         end
                     end in
          match kids, msg with
          | Some k, Some m => Some {| id := i; message := m; parent := p; children := k |}
          | _, _ => None
          end
      | _, _ => None
      end
  | _ => None
  end.

Fixpoint asMapping (fields : list (string * json)) : option Mapping :=
  match fields with
  | [] => Some []
  | (k, v) :: rest =>
      match asNode v, asMapping rest with
      | Some n, Some m => Some ((k, n) :: m)
      | _, _ => None
      end
  end.

Definition asConversation (j : json) : option Conversation :=
  match j with
  | JObj fs =>
      match get "id" fs, asOptString (get "title" fs), get "create_time" fs,
            get "update_time" fs, asOptString (get "current_node" fs) with
      | Some (JStr i), Some t, Some (JNum c), Some (JNum u), Some cur =>
          match get "mapping" fs with
          | Some (JObj entries) =>
              match asMapping entries with
              | Some m =>
                  Some {| conv_id := i; title := t; create_time := numberOfZ c;
                          update_time := numberOfZ u;
                          mapping := Some m; current_node := cur |}
              | None => None
              end
          | None | Some JNull =>
              Some {| conv_id := i; title := t; create_time := numberOfZ c;
                      update_time := numberOfZ u;
                      mapping := None; current_node := cur |}
          | Some _ => None
          end
      | _, _, _, _, _ => None
      end
  | _ => None
  end.

(** An element of the array: [null], or a conversation. *)
Definition asElement (j : json) : option (option Conversation) :=
  match j with
  | JNull => Some None
  | _ => option_map Some (asConversation j)
  end.

Fixpoint asConversations (items : list json) : option (list (option Conversation)) :=
  match items with
  | [] => Some []
  | j :: rest =>
      match asElement j, asConversations rest with
      | Some c, Some cs => Some (c :: cs)
      | _, _ => None
      end
  end.

Definition asExport (items : list json) : option ChatGPTExport :=
  match asConversations items with
  | Some cs => Some {| conversations := cs |}
  | None => None
  end.

(** *** Summary statistics *)

(** [getTime()] of a [Date]; [now] is the time a [new Date()] holds, and
    [None] is [NaN], the time of an invalid date. *)
Definition getTime (now : Z) (t : Timestamp) : option Z :=
  match t with
  | DateOfMillis ms => Some ms
  | DateNow => Some now
  | InvalidDate => None
  end.

(** The numbers of a list without [NaN]; [None] when one is [NaN]. *)
Fixpoint allNumbers (xs : list (option Z)) : option (list Z) :=
  match xs with
  | [] => Some []
  | Some x :: rest => option_map (cons x) (allNumbers rest)
  | None :: _ => None
  end.

(** [Math.min(...xs)] and [Math.max(...xs)] on a list that is not empty:
    [NaN] as soon as an argument is. *)
Definition minimum (x : option Z) (xs : list (option Z)) : option Z :=
  match allNumbers (x :: xs) with
  | Some (y :: ys) => Some (fold_left Z.min ys y)
  | _ => None
  end.

Definition maximum (x : option Z) (xs : list (option Z)) : option Z :=
  match allNumbers (x :: xs) with
  | Some (y :: ys) => Some (fold_left Z.max ys y)
  | _ => None
  end.

(** [new Date(t)] on a time or [NaN]. *)
Definition dateOfTime (t : option Z) : Timestamp :=
  match t with
  | Some ms => dateOfMillis ms
  | None => InvalidDate
  end.

Record DateRange := { earliest : Timestamp; latest : Timestamp }.

Record ExportStats := {
  totalConversations : nat;
  stats_totalMessages : nat;
  conversationsWithCode : nat;
  conversationsWithBranches : nat;
  dateRange : option DateRange
}.

Definition getExportStats (now : Z) (conversations : list ProcessedConversation) : ExportStats :=
  {| totalConversations := List.length conversations;
     stats_totalMessages := fold_left (fun sum c => sum + messageCount c) conversations 0;
     conversationsWithCode := count (fun c => hasCode (pc_metadata c)) conversations;
     conversationsWithBranches := count (fun c => hasBranches (pc_metadata c)) conversations;
     dateRange :=
       match conversations with
       | [] => None
       | c :: rest =>
           Some {| earliest := dateOfTime
                                 (minimum (getTime now (created c))
                                          (map (fun c => getTime now (created c)) rest));
                   latest := dateOfTime
                               (maximum (getTime now (updated c))
                                        (map (fun c => getTime now (updated c)) rest)) |}
       end |}.

End Parser.

(** ** The resilient scraper *)

Module Scraper.

(** *** Types and configuration *)

Record ScraperConfig := {
  maxRetries : nat;
  minDelay : Q;
  maxDelay : Q;
  backoffMultiplier : Q;
  jitterRange : Q;
  timeout : Q;
  saveProgressInterval : nat
}.

Definition DEFAULT_SCRAPER_CONFIG : ScraperConfig :=
  {| maxRetries := 3;
     minDelay := 1500;
     maxDelay := 4000;
     backoffMultiplier := 3 # 2;
     jitterRange := 500;
     timeout := 30000;
     saveProgressInterval := 5 |}.

Record SelectorConfig := {
  conversationLinks : list string;
  sidebar : list string;
  messageContainer : list string;
  messageContent : list string;
  codeBlock : list string
}.

(** The selectors, with the double quotes of their attribute values
    written as single quotes. *)
Definition SELECTORS : SelectorConfig :=
  {| conversationLinks :=
       ["nav a[href^='/c/']"; "aside a[href^='/c/']"; "[data-testid*='conversation-link']";
        "a[href*='/c/']"; ".conversation-item a"; "[class*='conversation'] a"];
     sidebar :=
       ["nav"; "aside"; "[role='navigation']"; "[class*='sidebar']"; "[class*='Sidebar']";
        "[data-testid='sidebar']"];
     messageContainer :=
       ["[data-message-author-role]"; "[data-testid='conversation-turn']";
        "[data-testid='message']"; ".message"; "[class*='Message']";
        "[class*='ConversationTurn']"];
     messageContent :=
       ["[class*='markdown']"; ".prose"; "[class*='text-base']";
        "[class*='message-content']"; "[data-testid='message-content']"];
     codeBlock :=
       ["pre code"; "code[class*='language-']"; "[class*='code-block'] code"; "pre"] |}.

(** The value found in a field declared [Date]: a [Date] object, or, once
    the record went through JSON, the string it was serialised to. *)
Inductive DateValue : Type :=
| DateObject (ms : Z)
| DateText (iso : string).

Record ScrapedCodeBlock := { language : string; code : string }.

Record ScrapedMessage := {
  role : string;
  content : string;
  timestamp : option DateValue;
  codeBlocks : option (list ScrapedCodeBlock)
}.

Record ScrapedConversation := {
  conv_id : string;
  conv_title : string;
  conv_url : string;
  messages : list ScrapedMessage;
  createdAt : option DateValue;
  updatedAt : option DateValue
}.

Record FailedConversation := {
  failed_id : string;
  failed_title : string;
  failed_url : string;
  error : string;
  retryCount : Z;
  lastAttempt : Z
}.

Record ConversationLink := { id : string; title : string; url : string }.

Record ScrapeProgress := {
  sessionId : string;
  totalConversations : Z;
  scrapedConversations : list ScrapedConversation;
  scrapedIds : list string;
  failedConversations : list FailedConversation;
  currentIndex : Z;
  progress_timestamp : Z;
  isComplete : bool
}.

(** *** [Date.prototype.toISOString] *)

Fixpoint digits (width : nat) (z : Z) : string :=
  match width with
  | O => EmptyString
  | S w => (digits w (z / 10)
            ++ String (ascii_of_nat (48 + Z.to_nat (z mod 10))) EmptyString)%string
  end.

(** Year, month and day of the day number [days] counted from 1970-01-01
    (proleptic Gregorian calendar). *)
Definition civilFromDays (days : Z) : Z * Z * Z :=
  let z := (days + 719468)%Z in
  let era := (z / 146097)%Z in
  let doe := (z - era * 146097)%Z in
  let yoe := ((doe - doe / 1460 + doe / 36524 - doe / 146096) / 365)%Z in
  let doy := (doe - (365 * yoe + yoe / 4 - yoe / 100))%Z in
  let mp := ((5 * doy + 2) / 153)%Z in
  let d := (doy - (153 * mp + 2) / 5 + 1)%Z in
  let m := (if mp <? 10 then mp + 3 else mp - 9)%Z in
  let y := (yoe + era * 400 + (if m <=? 2 then 1 else 0))%Z in
  (y, m, d).

Definition toISOString (ms : Z) : string :=
  let days := (ms / 86400000)%Z in
  let rest := (ms mod 86400000)%Z in
  let '(y, m, d) := civilFromDays days in
  let year : string :=
    if ((0 <=? y) && (y <=? 9999))%Z then digits 4 y
    else if (y <? 0)%Z then ("-" ++ digits 6 (- y))%string
    else ("+" ++ digits 6 y)%string in
  (year ++ "-" ++ digits 2 m ++ "-" ++ digits 2 d ++ "T"
        ++ digits 2 (rest / 3600000) ++ ":" ++ digits 2 (rest / 60000 mod 60) ++ ":"
        ++ digits 2 (rest / 1000 mod 60) ++ "." ++ digits 3 (rest mod 1000) ++ "Z")%string.

(** *** [JSON.stringify] on the records of a progress *)

(** A key whose value is [undefined] is left out of the document. *)
Definition optField {A} (k : string) (enc : A -> json) (o : option A) : list (string * json) :=
  match o with
  | Some a => [(k, enc a)]
  | None => []
  end.

(** [toJSON] of a [Date] is its ISO string; a string stays as it is. *)
Definition date_to_json (d : DateValue) : json :=
  match d with
  | DateObject ms => JStr (toISOString ms)
  | DateText s => JStr s
  end.

Definition codeBlock_to_json (b : ScrapedCodeBlock) : json :=
  JObj [("language", JStr (language b)); ("code", JStr (code b))].

Definition message_to_json (m : ScrapedMessage) : json :=
  JObj ([("role", JStr (role m)); ("content", JStr (content m))]
        ++ optField "timestamp" date_to_json (timestamp m)
        ++ optField "codeBlocks" (fun l => JArr (map codeBlock_to_json l)) (codeBlocks m)).

Definition conversation_to_json (c : ScrapedConversation) : json :=
  JObj ([("id", JStr (conv_id c)); ("title", JStr (conv_title c)); ("url", JStr (conv_url c));
         ("messages", JArr (map message_to_json (messages c)))]
        ++ optField "createdAt" date_to_json (createdAt c)
        ++ optField "updatedAt" date_to_json (updatedAt c)).

Definition failed_to_json (f : FailedConversation) : json :=
  JObj [("id", JStr (failed_id f)); ("title", JStr (failed_title f));
        ("url", JStr (failed_url f)); ("error", JStr (error f));
        ("retryCount", JNum (retryCount f)); ("lastAttempt", JNum (lastAttempt f))].

(** [JSON.stringify(progress)] *)
Definition JSON_stringify (p : ScrapeProgress) : json :=
  JObj [("sessionId", JStr (sessionId p));
        ("totalConversations", JNum (totalConversations p));
        ("scrapedConversations", JArr (map conversation_to_json (scrapedConversations p)));
        ("scrapedIds", JArr (map JStr (scrapedIds p)));
        ("failedConversations", JArr (map failed_to_json (failedConversations p)));
        ("currentIndex", JNum (currentIndex p));
        ("timestamp", JNum (progress_timestamp p));
        ("isComplete", JBool (isComplete p))].

(** *** Reading a parsed document as a progress *)

(** [JSON.parse] yields strings, numbers and booleans, never a [Date]: a
    date field comes back as the string stored for it. *)
Definition date_of_json (j : json) : option DateValue :=
  match j with
  | JStr s => Some (DateText s)
  | _ => None
  end.

Definition string_of_json (j : json) : option string :=
  match j with
  | JStr s => Some s
  | _ => None
  end.

Definition num_of_json (j : json) : option Z :=
  match j with
  | JNum z => Some z
  | _ => None
  end.

Definition bool_of_json (j : json) : option bool :=
  match j with
  | JBool b => Some b
  | _ => None
  end.

Fixpoint all_of_json {A} (dec : json -> option A) (items : list json) : option (list A) :=
  match items with
  | [] => Some []
  | j :: rest =>
      match dec j, all_of_json dec rest with
      | Some a, Some l => Some (a :: l)
      | _, _ => None
      end
  end.

Definition array_of_json {A} (dec : json -> option A) (j : json) : option (list A) :=
  match j with
  | JArr items => all_of_json dec items
  | _ => None
  end.

(** A required field. *)
Definition field {A} (k : string) (dec : json -> option A) (fs : list (string * json)) : option A :=
  match get k fs with
  | Some j => dec j
  | None => None
  end.

(** An optional field: [Some None] when the key is missing. *)
Definition fieldOpt {A} (k : string) (dec : json -> option A) (fs : list (string * json))
    : option (option A) :=
  match get k fs with
  | Some j =>
      match dec j with
      | Some a => Some (Some a)
      | None => None
      end
  | None => Some None
  end.

Definition codeBlock_of_json (j : json) : option ScrapedCodeBlock :=
  match j with
  | JObj fs =>
      match field "language" string_of_json fs, field "code" string_of_json fs with
      | Some l, Some c => Some {| language := l; code := c |}
      | _, _ => None
      end
  | _ => None
  end.

Definition message_of_json (j : json) : option ScrapedMessage :=
  match j with
  | JObj fs =>
      match field "role" string_of_json fs, field "content" string_of_json fs,
            fieldOpt "timestamp" date_of_json fs,
            fieldOpt "codeBlocks" (array_of_json codeBlock_of_json) fs with
      | Some r, Some c, Some t, Some b =>
          Some {| role := r; content := c; timestamp := t; codeBlocks := b |}
      | _, _, _, _ => None
      end
  | _ => None
  end.

Definition conversation_of_json (j : json) : option ScrapedConversation :=
  match j with
  | JObj fs =>
      match field "id" string_of_json fs, field "title" string_of_json fs,
            field "url" string_of_json fs,
            field "messages" (array_of_json message_of_json) fs,
            fieldOpt "createdAt" date_of_json fs, fieldOpt "updatedAt" date_of_json fs with
      | Some i, Some t, Some u, Some ms, Some c, Some up =>
          Some {| conv_id := i; conv_title := t; conv_url := u; messages := ms;
                  createdAt := c; updatedAt := up |}
      | _, _, _, _, _, _ => None
      end
  | _ => None
  end.

Definition failed_of_json (j : json) : option FailedConversation :=
  match j with
  | JObj fs =>
      match field "id" string_of_json fs, field "title" string_of_json fs,
            field "url" string_of_json fs, field "error" string_of_json fs,
            field "retryCount" num_of_json fs, field "lastAttempt" num_of_json fs with
      | Some i, Some t, Some u, Some e, Some r, Some l =>
          Some {| failed_id := i; failed_title := t; failed_url := u; error := e;
                  retryCount := r; lastAttempt := l |}
      | _, _, _, _, _, _ => None
      end
  | _ => None
  end.

(** The object [JSON.parse(stored)] read at the type [ScrapeProgress]: defined
    on the documents that have the fields of a progress. *)
Definition progress_of_json (j : json) : option ScrapeProgress :=
  match j with
  | JObj fs =>
      match field "sessionId" string_of_json fs,
            field "totalConversations" num_of_json fs,
            field "scrapedConversations" (array_of_json conversation_of_json) fs,
            field "scrapedIds" (array_of_json string_of_json) fs with
      | Some sid, Some total, Some convs, Some ids =>
          match field "failedConversations" (array_of_json failed_of_json) fs,
                field "currentIndex" num_of_json fs,
                field "timestamp" num_of_json fs,
                field "isComplete" bool_of_json fs with
          | Some failed, Some cur, Some ts, Some done =>
              Some {| sessionId := sid; totalConversations := total;
                      scrapedConversations := convs; scrapedIds := ids;
                      failedConversations := failed; currentIndex := cur;
                      progress_timestamp := ts; isComplete := done |}
          | _, _, _, _ => None
          end
      | _, _, _, _ => None
      end
  | _ => None
  end.

(** *** The world of an asynchronous call *)

(** What the scraper observes of its environment.  [P] is the state of the
    Playwright page; the page operations are the calls the scraper makes on
    it ([page.waitForSelector], [page.goto] and the three scripts it passes
    to [page.evaluate]), each returning or throwing.  [random k] and
    [clock k] are the k-th values [Math.random()] and [Date.now()] give. *)
Class Browser (P : Type) := {
  random : nat -> Q;
  clock : nat -> Z;
  base36 : Q -> string;
  waitForSelector : string -> Q -> bool -> P -> result bool * P;
  goto : string -> Q -> P -> result unit * P;
  evaluateScroll : string -> P -> result unit * P;
  evaluateLinks : string -> P -> result (list ConversationLink) * P;
  evaluateConversation : ConversationLink -> string -> P -> result ScrapedConversation * P
}.

(** [window.localStorage] as far as the scraper uses it: absent (no
    [window], as on the server), or present.  [accepts text] tells whether
    [setItem] stores [text] under [PROGRESS_STORAGE_KEY] or throws, as it
    does when the text is beyond the quota; [saved] is the progress whose
    text, [JSON_stringify saved], is the item under that key.  The item is
    thus absent or a text that [saveProgress] wrote: [loadProgress]
    declares the type [ScrapeProgress] for what it parses, and an item of
    another shape, which only other code could have stored, is outside
    this type. *)
Inductive LocalStorage : Type :=
| Unavailable
| Available (accepts : json -> bool) (saved : option ScrapeProgress).

(** [localStorage.getItem(PROGRESS_STORAGE_KEY)], parsed. *)
Definition getItem (s : LocalStorage) : option json :=
  match s with
  | Available _ (Some saved) => Some (JSON_stringify saved)
  | _ => None
  end.

(** What a run leaves behind, in order. *)
Inductive Event : Type :=
| Invoked (operationName : string)
| Slept (ms : Q)
| Attempted (link : ConversationLink).

Record World (P : Type) := mkWorld {
  page : P;
  storage : LocalStorage;
  progress : ScrapeProgress;
  draws : nat;
  ticks : nat;
  events : list Event
}.
Arguments mkWorld {P}.
Arguments page {P}.
Arguments storage {P}.
Arguments progress {P}.
Arguments draws {P}.
Arguments ticks {P}.
Arguments events {P}.

Section Async.
Context {P : Type} {B : Browser P}.

(** An asynchronous computation: it returns or throws, and changes the
    world. *)
Definition M (A : Type) : Type := World P -> result A * World P.

Definition ret {A} (a : A) : M A := fun w => (Ok a, w).

Definition throw {A} (e : exn) : M A := fun w => (Throw e, w).

Definition bind {A C} (c : M A) (k : A -> M C) : M C :=
  fun w =>
    match c w with
    | (Ok a, w') => k a w'
    | (Throw e, w') => (Throw e, w')
    end.

Definition tryCatch {A} (body : M A) (handler : exn -> M A) : M A :=
  fun w =>
    match body w with
    | (Ok a, w') => (Ok a, w')
    | (Throw e, w') => handler e w'
    end.

Definition emit (ev : Event) : M unit :=
  fun w => (Ok tt, mkWorld (page w) (storage w) (progress w) (draws w) (ticks w)
                     (events w ++ [ev])).

Definition sleep (ms : Q) : M unit := emit (Slept ms).

Definition Math_random : M Q :=
  fun w => (Ok (random (draws w)),
            mkWorld (page w) (storage w) (progress w) (S (draws w)) (ticks w) (events w)).

Definition Date_now : M Z :=
  fun w => (Ok (clock (ticks w)),
            mkWorld (page w) (storage w) (progress w) (draws w) (S (ticks w)) (events w)).

Definition onPage {A} (op : P -> result A * P) : M A :=
  fun w =>
    let (r, p') := op (page w) in
    (r, mkWorld p' (storage w) (progress w) (draws w) (ticks w) (events w)).

(** The object bound to the variable [progress] of [enhancedScrape]. *)
Definition getProgress : M ScrapeProgress := fun w => (Ok (progress w), w).

Definition setProgress (p : ScrapeProgress) : M unit :=
  fun w => (Ok tt, mkWorld (page w) (storage w) p (draws w) (ticks w) (events w)).

Definition setStorage (s : LocalStorage) : M unit :=
  fun w => (Ok tt, mkWorld (page w) s (progress w) (draws w) (ticks w) (events w)).

Definition getStorage : M LocalStorage := fun w => (Ok (storage w), w).
End Async.

Declare Scope async_scope.
Notation "x <- c ;; k" := (bind c (fun x => k))
  (at level 61, c at next level, right associativity) : async_scope.
Notation "c ;; k" := (bind c (fun _ => k))
  (at level 61, right associativity) : async_scope.
Local Open Scope async_scope.

Section Machinery.
Context {P : Type} {B : Browser P}.

(** *** Utility functions *)

Definition calculateDelay (attempt : nat) (config : ScraperConfig) : M (P := P) Q :=
  let baseDelay := (minDelay config * Qpower (backoffMultiplier config) (Z.of_nat attempt))%Q in
  let delay := Qmin baseDelay (maxDelay config) in
  r <- Math_random ;;
  let jitter := (r * jitterRange config)%Q in
  ret (delay + jitter)%Q.

Definition decimal (z : Z) : string := NilZero.string_of_int (Z.to_int z).

Definition generateSessionId : M (P := P) string :=
  now <- Date_now ;;
  r <- Math_random ;;
  ret ("scrape-" ++ decimal now ++ "-" ++ base36 r)%string.

(** [options?.timeout || 5000] *)
Definition timeoutOr5000 (t : option Q) : Q :=
  match t with
  | Some q => if Qeq_bool q 0 then 5000%Q else q
  | None => 5000%Q
  end.

Definition visibleState (v : option bool) : bool :=
  match v with
  | Some b => b
  | None => false
  end.

Fixpoint queryWithFallback (selectors : list string) (timeout : option Q)
    (visible : option bool) : M (P := P) (option string) :=
  match selectors with
  | [] => ret None
  | selector :: rest =>
      found <- tryCatch (onPage (waitForSelector selector (timeoutOr5000 timeout)
                                   (visibleState visible)))
                        (fun _ => ret false) ;;
      if found then ret (Some selector)
      else queryWithFallback rest timeout visible
  end.

(** *** Progress persistence *)

(** [saveProgress]: without storage nothing happens; an exception of
    [setItem] is caught, and the item stays as it was. *)
Definition saveProgress (progress : ScrapeProgress) : M (P := P) unit :=
  s <- getStorage ;;
  match s with
  | Unavailable => ret tt
  | Available accepts saved =>
      tryCatch
        (if accepts (JSON_stringify progress) then setStorage (Available accepts (Some progress))
         else throw (Error "QuotaExceededError"))
        (fun _ => ret tt)
  end.

(** [loadProgress]: [JSON.parse] of the item, when there is one.  The item
    is the text of a progress, so that reading [scrapedIds.length] for the
    log does not throw. *)
Definition loadProgress : M (P := P) (option ScrapeProgress) :=
  s <- getStorage ;;
  match getItem s with
  | Some stored => ret (progress_of_json stored)
  | None => ret None
  end.

(** [clearProgress]: [removeItem] does not throw. *)
Definition clearProgress : M (P := P) unit :=
  s <- getStorage ;;
  match s with
  | Unavailable => ret tt
  | Available accepts _ => setStorage (Available accepts None)
  end.

(** *** Retry logic *)

(** The [for] loop of [retryOperation]: [remaining] iterations are left,
    the next one has index [attempt]. *)
Fixpoint retryLoop {T} (operation : M (P := P) T) (operationName : string)
    (config : ScraperConfig) (remaining attempt : nat) (lastError : option string)
    : M (P := P) T :=
  match remaining with
  | O =>
      throw (Error (operationName ++ " failed after " ++ decimal (Z.of_nat (maxRetries config))
                      ++ " attempts: "
                      ++ match lastError with
                         | Some msg => msg
                         | None => "undefined"
                         end)%string)
  | S remaining' =>
      emit (Invoked operationName) ;;
      tryCatch operation
        (fun error =>
           (if attempt <? maxRetries config - 1
            then delay <- calculateDelay attempt config ;; sleep delay
            else ret tt) ;;
           retryLoop operation operationName config remaining' (S attempt)
             (Some (message_of error)))
  end.

Definition retryOperation {T} (operation : M (P := P) T) (operationName : string)
    (config : ScraperConfig) : M (P := P) T :=
  retryLoop operation operationName config (maxRetries config) 0 None.

(** *** Selector engine *)

Definition findConversationLinks (config : ScraperConfig) : M (P := P) (list ConversationLink) :=
  retryOperation
    (workingSelector <- queryWithFallback (conversationLinks SELECTORS)
                          (Some (timeout config)) None ;;
     match workingSelector with
     | None => throw (Error "Could not find conversation links with any known selector")
     | Some selector => onPage (evaluateLinks selector)
     end)
    "Find conversation links" config.

Definition scrapeConversation (link : ConversationLink) (config : ScraperConfig)
    : M (P := P) ScrapedConversation :=
  retryOperation
    (onPage (goto (url link) (timeout config)) ;;
     sleep 1500%Q ;;
     messageSelector <- queryWithFallback (messageContainer SELECTORS)
                          (Some 5000%Q) (Some true) ;;
     match messageSelector with
     | None => throw (Error ("No messages found for conversation: " ++ title link)%string)
     | Some selector =>
         conversation <- onPage (evaluateConversation link selector) ;;
         if Nat.eqb (List.length (messages conversation)) 0
         then throw (Error ("No messages extracted from conversation: " ++ title link)%string)
         else ret conversation
     end)
    ("Scrape conversation: " ++ title link)%string config.

Definition scrollSidebarToLoadAll (config : ScraperConfig) : M (P := P) unit :=
  retryOperation
    (sidebarSelector <- queryWithFallback (sidebar SELECTORS) (Some (timeout config)) None ;;
     match sidebarSelector with
     | None => throw (Error "Could not find sidebar with any known selector")
     | Some selector => onPage (evaluateScroll selector)
     end)
    "Scroll sidebar" config.

(** *** Rate limiting *)

Definition smartDelay (conversationIndex : Z) (config : ScraperConfig) : M (P := P) unit :=
  r <- Math_random ;;
  let baseDelay := (minDelay config + r * jitterRange config)%Q in
  let progressMultiplier := (1 + (inject_Z conversationIndex / 100) * (1 # 2))%Q in
  let totalDelay := Qmin (baseDelay * progressMultiplier) (maxDelay config) in
  sleep totalDelay.

(** *** Main scraper *)

(** The callback [onProgress]: it receives the progress object and may
    change it, act on its own state (kept with the page) and throw. *)
Definition ProgressCallback : Type :=
  ScrapeProgress -> P -> result unit * ScrapeProgress * P.

Definition callOnProgress (onProgress : option ProgressCallback) : M (P := P) unit :=
  match onProgress with
  | None => ret tt
  | Some callback =>
      fun w =>
        let '(r, progress', page') := callback (progress w) (page w) in
        (r, mkWorld page' (storage w) progress' (draws w) (ticks w) (events w))
  end.

Definition modifyProgress (f : ScrapeProgress -> ScrapeProgress) : M (P := P) unit :=
  p <- getProgress ;; setProgress (f p).

Definition pushScraped (conversation : ScrapedConversation) (linkId : string)
    (p : ScrapeProgress) : ScrapeProgress :=
  {| sessionId := sessionId p;
     totalConversations := totalConversations p;
     scrapedConversations := scrapedConversations p ++ [conversation];
     scrapedIds := scrapedIds p ++ [linkId];
     failedConversations := failedConversations p;
     currentIndex := currentIndex p;
     progress_timestamp := progress_timestamp p;
     isComplete := isComplete p |}.

Definition pushFailed (f : FailedConversation) (p : ScrapeProgress) : ScrapeProgress :=
  {| sessionId := sessionId p;
     totalConversations := totalConversations p;
     scrapedConversations := scrapedConversations p;
     scrapedIds := scrapedIds p;
     failedConversations := failedConversations p ++ [f];
     currentIndex := currentIndex p;
     progress_timestamp := progress_timestamp p;
     isComplete := isComplete p |}.

Definition withCurrentIndex (i : Z) (p : ScrapeProgress) : ScrapeProgress :=
  {| sessionId := sessionId p;
     totalConversations := totalConversations p;
     scrapedConversations := scrapedConversations p;
     scrapedIds := scrapedIds p;
     failedConversations := failedConversations p;
     currentIndex := i;
     progress_timestamp := progress_timestamp p;
     isComplete := isComplete p |}.

Definition withTotal (n : Z) (p : ScrapeProgress) : ScrapeProgress :=
  {| sessionId := sessionId p;
     totalConversations := n;
     scrapedConversations := scrapedConversations p;
     scrapedIds := scrapedIds p;
     failedConversations := failedConversations p;
     currentIndex := currentIndex p;
     progress_timestamp := progress_timestamp p;
     isComplete := isComplete p |}.

Definition markComplete (p : ScrapeProgress) : ScrapeProgress :=
  {| sessionId := sessionId p;
     totalConversations := totalConversations p;
     scrapedConversations := scrapedConversations p;
     scrapedIds := scrapedIds p;
     failedConversations := failedConversations p;
     currentIndex := currentIndex p;
     progress_timestamp := progress_timestamp p;
     isComplete := true |}.

(** Lines 508 to 528: the session id, then the stored progress when there
    is one that is not complete, a new progress otherwise. *)
Definition beginSession : M (P := P) unit :=
  sessionId <- generateSessionId ;;
  loaded <- loadProgress ;;
  let startNew :=
    now <- Date_now ;;
    setProgress {| sessionId := sessionId; totalConversations := 0;
                   scrapedConversations := []; scrapedIds := [];
                   failedConversations := []; currentIndex := 0;
                   progress_timestamp := now; isComplete := false |} in
  match loaded with
  | Some p => if negb (isComplete p) then setProgress p else startNew
  | None => startNew
  end.

(** Lines 548 to 596: the loop over [linksToScrape], at index [i]. *)
Fixpoint scrapeLoop (onProgress : option ProgressCallback) (config : ScraperConfig)
    (count : nat) (i : nat) (links : list ConversationLink) : M (P := P) unit :=
  match links with
  | [] => ret tt
  | link :: rest =>
      p <- getProgress ;;
      let globalIndex := (currentIndex p + Z.of_nat i)%Z in
      tryCatch
        (emit (Attempted link) ;;
         conversation <- scrapeConversation link config ;;
         modifyProgress (pushScraped conversation (id link)) ;;
         (if Nat.eqb ((i + 1) mod saveProgressInterval config) 0
          then modifyProgress (withCurrentIndex (globalIndex + 1)) ;;
               saved <- getProgress ;; saveProgress saved
          else ret tt) ;;
         callOnProgress onProgress ;;
         (if i <? count - 1 then smartDelay globalIndex config else ret tt))
        (fun error =>
           now <- Date_now ;;
           modifyProgress (pushFailed {| failed_id := id link; failed_title := title link;
                                         failed_url := url link;
                                         error := message_of error;
                                         retryCount := 0; lastAttempt := now |})) ;;
      scrapeLoop onProgress config count (S i) rest
  end.

(** Steps 1 and 2: the enumeration of the conversation links. *)
Definition enumerate (config : ScraperConfig) : M (P := P) (list ConversationLink) :=
  scrollSidebarToLoadAll config ;;
  findConversationLinks config.

Definition enhancedScrape (onProgress : option ProgressCallback) (config : ScraperConfig)
    : M (P := P) ScrapeProgress :=
  beginSession ;;
  tryCatch
    (allLinks <- enumerate config ;;
     modifyProgress (withTotal (Z.of_nat (List.length allLinks))) ;;
     resumed <- getProgress ;;
     let linksToScrape :=
       filter (fun link => negb (includes (scrapedIds resumed) (id link))) allLinks in
     scrapeLoop onProgress config (List.length linksToScrape) 0 linksToScrape ;;
     modifyProgress markComplete ;;
     modifyProgress (withCurrentIndex (Z.of_nat (List.length allLinks))) ;;
     final <- getProgress ;;
     saveProgress final ;;
     ret final)
    (fun error =>
       current <- getProgress ;;
       saveProgress current ;;
       throw error).
End Machinery.

End Scraper.

(** ** File helpers *)

Module Utils.

Record Validation := { valid : bool; error : option string }.

Definition invalid (msg : string) : Validation := {| valid := false; error := Some msg |}.

(** [typeof v === 'object'] on a parsed value that is not [null]. *)
Definition isObject (v : json) : bool :=
  match v with
  | JArr _ | JObj _ => true
  | _ => false
  end.

(** [validateChatGPTExport(data: any)]; reading [id] of a first element
    that is [null] throws. *)
Definition validateChatGPTExport (data : json) : result Validation :=
  if negb (truthy data) || negb (isObject data) then Ok (invalid "Invalid JSON structure")
  else
    let conversations :=
      match data with
      | JArr items => Some (JArr items)
      | JObj fields => get "conversations" fields
      | _ => None
      end in
    match conversations with
    | Some (JArr items) =>
        match items with
        | [] => Ok (invalid "Export contains no conversations")
        | firstConv :: _ =>
            match firstConv with
            | JNull => Throw (TypeError "Cannot read properties of null (reading 'id')")
            | JObj fields =>
                let hasId := match get "id" fields with
                             | Some v => truthy v
                             | None => false
                             end in
                let hasMapping := match get "mapping" fields with
                                  | Some v => truthy v && isObject v
                                  | None => false
                                  end in
                if negb hasId || negb hasMapping
                then Ok (invalid "Invalid conversation structure")
                else Ok {| valid := true; error := None |}
            | _ => Ok (invalid "Invalid conversation structure")
            end
        end
    | _ => Ok (invalid "No conversations array found in export")
    end.

End Utils.

(** ** Markdown converter: file names *)

Module Markdown.
Import Parser.

Definition isDigit (c : ascii) : bool :=
  let n := nat_of_ascii c in (48 <=? n) && (n <=? 57).

Definition isUpper (c : ascii) : bool :=
  let n := nat_of_ascii c in (65 <=? n) && (n <=? 90).

Definition isLower (c : ascii) : bool :=
  let n := nat_of_ascii c in (97 <=? n) && (n <=? 122).

Definition isHyphen (c : ascii) : bool := Ascii.eqb c "-".

(** [.replace(/[^a-zA-Z0-9\s-]/g, '')] *)
Fixpoint removeUnsafe (s : string) : string :=
  match s with
  | EmptyString => EmptyString
  | String c s' =>
      if isLower c || isUpper c || isDigit c || isSpace c || isHyphen c
      then String c (removeUnsafe s')
      else removeUnsafe s'
  end.

(** [.replace(/\s+/g, '-')]: every maximal run of white space becomes one
    hyphen; [inRun] tells that the character before was white space. *)
Fixpoint hyphenate (inRun : bool) (s : string) : string :=
  match s with
  | EmptyString => EmptyString
  | String c s' =>
      if isSpace c
      then if inRun then hyphenate true s' else String "-" (hyphenate true s')
      else String c (hyphenate false s')
  end.

Definition lowerChar (c : ascii) : ascii :=
  if isUpper c then ascii_of_nat (nat_of_ascii c + 32) else c.

(** [.toLowerCase()] *)
Fixpoint toLowerCase (s : string) : string :=
  match s with
  | EmptyString => EmptyString
  | String c s' => String (lowerChar c) (toLowerCase s')
  end.

(** [.slice(0, n)] *)
Fixpoint slice0 (n : nat) (s : string) : string :=
  match n, s with
  | S k, String c s' => String c (slice0 k s')
  | _, _ => EmptyString
  end.

Section Format.
(** [format] of date-fns: the text of a date under a pattern, or the
    exception it throws for an invalid date. *)
Variable format : Timestamp -> string -> result string.

Definition generateFilename (conversation : ProcessedConversation) : result string :=
  rbind (format (created conversation) "yyyy-MM-dd") (fun date =>
  let safeTitle :=
    slice0 50 (toLowerCase (hyphenate false (removeUnsafe (pc_title conversation)))) in
  Ok (date ++ "_" ++ safeTitle ++ "_" ++ slice0 8 (pc_id conversation) ++ ".md")%string).
End Format.

End Markdown.

(** * Properties of the export parser *)

Module ParserFacts.
Import Parser.

(** ** Sets of ids and lookups *)

Lemma includes_In (xs : list string) (x : string) :
  includes xs x = true <-> In x xs.
Proof.
  induction xs as [|y ys IH]; simpl.
  - split; [discriminate | contradiction].
  - rewrite orb_true_iff, IH, String.eqb_eq. tauto.
Qed.

Lemma includes_false (xs : list string) (x : string) :
  includes xs x = false <-> ~ In x xs.
Proof.
  rewrite <- includes_In. destruct (includes xs x); split; congruence.
Qed.

Lemma lookup_entry (k : string) (m : Mapping) (n : MessageNode) :
  lookup k m = Some n -> In (k, n) m.
Proof.
  induction m as [|[k' n'] rest IH]; simpl; [discriminate|].
  destruct (String.eqb k' k) eqn:E.
  - apply String.eqb_eq in E. intros [= ->]. left. now subst.
  - intros H. right. now apply IH.
Qed.

Lemma lookup_values (k : string) (m : Mapping) (n : MessageNode) :
  lookup k m = Some n -> In n (values m).
Proof.
  intros H. apply lookup_entry in H.
  unfold values. change n with (snd (k, n)). now apply in_map.
Qed.

(** A test for [NoDup] on strings, to settle it on given lists. *)
Fixpoint distinctb (xs : list string) : bool :=
  match xs with
  | [] => true
  | x :: rest => negb (includes rest x) && distinctb rest
  end.

Lemma distinctb_NoDup (xs : list string) : distinctb xs = true -> NoDup xs.
Proof.
  induction xs as [|x rest IH]; simpl; [constructor|].
  rewrite andb_true_iff, negb_true_iff, includes_false.
  intros [Hx Hrest]. constructor; auto.
Defined.

(** ** Termination of the guarded traversals *)

(** The nodes of the mapping whose id is not yet in the visited set: the
    measure that a traversal with a visited set decreases. *)
Definition pending (m : Mapping) (visited : list string) : nat :=
  List.length (filter (fun n => negb (includes visited (id n))) (values m)).

Lemma pending_le_length (m : Mapping) (visited : list string) :
  pending m visited <= List.length m.
Proof.
  unfold pending, values.
  etransitivity; [apply filter_length_le|]. now rewrite length_map.
Qed.

Lemma pending_visit (m : Mapping) (visited : list string) (n : MessageNode) :
  In n (values m) -> includes visited (id n) = false ->
  pending m (id n :: visited) < pending m visited.
Proof.
  unfold pending. generalize (values m) as l.
  induction l as [|x l IH]; simpl; [contradiction|].
  intros Hin Hnew.
  assert (Hle : forall l' : list MessageNode,
             List.length (filter (fun n0 => negb (String.eqb (id n) (id n0) || includes visited (id n0))) l')
             <= List.length (filter (fun n0 => negb (includes visited (id n0))) l')).
  { induction l' as [|y l' IHl']; simpl; [lia|].
    destruct (String.eqb (id n) (id y)); simpl.
    - destruct (includes visited (id y)); simpl; lia.
    - destruct (includes visited (id y)); simpl; lia. }
  destruct Hin as [-> | Hin].
  - rewrite String.eqb_refl, Hnew. simpl. specialize (Hle l). lia.
  - specialize (IH Hin Hnew). specialize (Hle l). simpl in IH.
    destruct (String.eqb (id n) (id x)); simpl;
      destruct (includes visited (id x)); simpl; lia.
Qed.

Lemma mainLoop_returns (m : Mapping) (fuel : nat) :
  forall visited node messages,
    (forall n, node = Some n -> In n (values m)) ->
    pending m visited < fuel ->
    mainLoop fuel m visited node messages <> None.
Proof.
  induction fuel as [|fuel IH]; intros visited node messages Hnode Hfuel; [lia|].
  simpl. destruct node as [n|]; [|discriminate].
  destruct (includes visited (id n)) eqn:Hvis; [discriminate|].
  destruct (processNode n) as [pm|e]; [|discriminate].
  destruct (firstChild n) as [c|]; [|discriminate].
  apply IH.
  - intros n' Hn'. now apply lookup_values in Hn'.
  - pose proof (pending_visit m visited n (Hnode n eq_refl) Hvis). lia.
Qed.

Lemma branchLoop_returns (m : Mapping) (ids : list string) (fuel : nat) :
  forall visited node messages,
    (forall n, node = Some n -> In n (values m)) ->
    pending m visited < fuel ->
    branchLoop fuel m ids visited node messages <> None.
Proof.
  induction fuel as [|fuel IH]; intros visited node messages Hnode Hfuel; [lia|].
  simpl. destruct node as [n|]; [|discriminate].
  destruct (includes ids (id n)); [discriminate|].
  destruct (includes visited (id n)) eqn:Hvis; [discriminate|].
  destruct (processNode n) as [pm|e]; [|discriminate].
  destruct (firstChild n) as [c|]; [|discriminate].
  apply IH.
  - intros n' Hn'. now apply lookup_values in Hn'.
  - pose proof (pending_visit m visited n (Hnode n eq_refl) Hvis). lia.
Qed.

Lemma extractBranchThread_returns (m : Mapping) (ids : list string) (fuel : nat) (start : string) :
  List.length m < fuel -> extractBranchThread fuel m start ids <> None.
Proof.
  intros Hfuel. unfold extractBranchThread. apply branchLoop_returns.
  - intros n Hn. now apply lookup_values in Hn.
  - pose proof (pending_le_length m []). lia.
Qed.

Lemma forEachChild_returns (m : Mapping) (ids : list string) (fuel : nat) (nodeId : string) :
  List.length m < fuel ->
  forall childIds branches, forEachChild fuel m ids nodeId childIds branches <> None.
Proof.
  intros Hfuel. induction childIds as [|c rest IH]; intros branches; simpl; [discriminate|].
  pose proof (extractBranchThread_returns m ids fuel c Hfuel) as Hc.
  destruct (extractBranchThread fuel m c ids) as [[bm|e]|]; simpl;
    [apply IH | discriminate | contradiction].
Qed.

Lemma forEachNode_returns (m : Mapping) (ids : list string) (fuel : nat) :
  List.length m < fuel ->
  forall nodes branches, forEachNode fuel m ids nodes branches <> None.
Proof.
  intros Hfuel. induction nodes as [|n rest IH]; intros branches; simpl; [discriminate|].
  pose proof (forEachChild_returns m ids fuel (id n) Hfuel (branchRoots n) branches) as Hn.
  destruct (forEachChild fuel m ids (id n) (branchRoots n) branches) as [[bs|e]|]; simpl;
    [apply IH | discriminate | contradiction].
Qed.

(** [extractBranches] has no unguarded loop: with fuel beyond the size of
    the mapping it always returns or throws. *)
Lemma extractBranches_returns (m : Mapping) (mainThread : list ProcessedMessage) (fuel : nat) :
  List.length m < fuel -> extractBranches fuel m mainThread <> None.
Proof.
  intros Hfuel. unfold extractBranches. now apply forEachNode_returns.
Qed.

(** The descent of [extractMainThread] is guarded as well; only the search
    for the start node can fail to come back. *)
Lemma extractMainThread_returns_from (m : Mapping) (cur : option string) (fuel : nat) :
  List.length m < fuel ->
  findStart fuel m cur <> None ->
  extractMainThread fuel m cur <> None.
Proof.
  intros Hfuel Hstart. unfold extractMainThread.
  destruct (findStart fuel m cur) as [node|] eqn:E; [|contradiction].
  apply mainLoop_returns.
  - intros n ->. unfold findStart in E.
    destruct (find (fun n0 => isNull (parent n0)) (values m)) as [r|] eqn:Hfind.
    + injection E as <-. now apply find_some in Hfind.
    + assert (Hhd : hd_error (values m) = Some n -> In n (values m)).
      { destruct (values m); simpl; [discriminate|]. intros [= ->]. now left. }
      assert (Hup : forall f x, In x (values m) -> walkUp f m x = Some n -> In n (values m)).
      { induction f as [|f IHf]; simpl; [discriminate|]. intros x Hx.
        destruct (parent x) as [p|]; [|now intros [= <-]].
        destruct (nonempty p); [|now intros [= <-]].
        destruct (lookup p m) as [up|] eqn:Hp; [|now intros [= <-]].
        apply IHf. now apply lookup_values in Hp. }
      destruct cur as [c|]; [|injection E as E; auto].
      destruct (nonempty c); [|injection E as E; auto].
      destruct (lookup c m) as [n0|] eqn:Hc; [|injection E as E; auto].
      destruct (walkUp fuel m n0) as [r|] eqn:Hw; [|discriminate].
      injection E as ->. eapply Hup; [|exact Hw]. now apply lookup_values in Hc.
  - pose proof (pending_le_length m []). lia.
Qed.

(** The search for the start node comes back whenever it does not have to
    walk up from [currentNode]: some node is parentless, or [currentNode] is
    absent, empty or unknown. *)
Lemma findStart_returns (m : Mapping) (cur : option string) (fuel : nat) :
  (exists n, In n (values m) /\ parent n = None)
  \/ cur = None \/ cur = Some "" \/ (exists c, cur = Some c /\ lookup c m = None) ->
  findStart fuel m cur <> None.
Proof.
  unfold findStart. intros H.
  destruct (find (fun n => isNull (parent n)) (values m)) as [r|] eqn:Hfind; [discriminate|].
  destruct H as [(n & Hn & Hp) | [-> | [-> | (c & -> & Hc)]]]; try discriminate.
  - pose proof (find_none _ _ Hfind n Hn) as Hnone. simpl in Hnone.
    rewrite Hp in Hnone. discriminate.
  - rewrite Hc. now destruct (nonempty c).
Qed.

(** A dangling parent ends the walk back: the node whose parent is unknown
    is taken as the start. *)
Example walkUp_dangling_parent :
  let orphan := {| id := "n"; message := None; parent := Some "gone"; children := None |} in
  extractMainThread 2 [("n", orphan)] (Some "n") = Some (Ok []).
Proof. reflexivity. Qed.

Example extractCodeBlocks_sample :
  extractCodeBlocks ("Run ```js" ++ newline ++ " let x = 1; " ++ newline ++ "``` then ```"
                       ++ newline ++ "plain``` and ```a b" ++ newline ++ "```")%string
  = [{| language := "js"; code := "let x = 1;" |};
     {| language := "plaintext"; code := "plain" |}].
Proof. reflexivity. Qed.

Example parseExport_rejects :
  parseExport (Malformed "Unexpected token } in JSON at position 7")
  = Throw (Error "Invalid JSON file: Unexpected token } in JSON at position 7")
  /\ parseExport (Document (JNum 5)) = Throw (Error "Invalid JSON structure")
  /\ parseExport (Document (JObj [("chats", JArr [])]))
     = Throw (Error "No conversations array found in export")
  /\ parseExport (Document (JArr [])) = Ok [].
Proof. repeat split. Qed.

(** ** The walk back to the root on a parent cycle *)

Definition cycleA : MessageNode :=
  {| id := "A"; message := None; parent := Some "B"; children := Some ["B"] |}.

Definition cycleB : MessageNode :=
  {| id := "B"; message := None; parent := Some "A"; children := Some ["A"] |}.

(** Two nodes that are each other's parent and child: no node is parentless. *)
Definition cycleMapping : Mapping := [("A", cycleA); ("B", cycleB)].

Definition cycleConversation : Conversation :=
  {| conv_id := "c"; title := Some "Cycle"; create_time := 0%float; update_time := 0%float;
     mapping := Some cycleMapping; current_node := Some "A" |}.

Lemma walkUp_cycle (fuel : nat) :
  walkUp fuel cycleMapping cycleA = None /\ walkUp fuel cycleMapping cycleB = None.
Proof.
  induction fuel as [|fuel [IHa IHb]]; [now split|].
  split; simpl; assumption.
Qed.

(** C1 (fails on the code).  On a mapping whose two nodes are each other's
    parent, with [currentNodeId] one of them, the walk back to the root of
    [extractMainThread] has no visited set and never comes back: whatever
    the fuel, [extractMainThread] does not return, and neither do
    [processConversation] and the batch [processConversations] that contain
    it.  The guarded traversals themselves do return
    ([mainLoop_returns], [extractBranches_returns]). *)
Theorem extractMainThread_cycle_never_returns :
  forall fuel,
    extractMainThread fuel cycleMapping (Some "A") = None
    /\ processConversation fuel cycleConversation = None
    /\ processConversations fuel {| conversations := [Some cycleConversation] |} = None.
Proof.
  intros fuel.
  assert (H : extractMainThread fuel cycleMapping (Some "A") = None).
  { unfold extractMainThread, findStart. simpl.
    now rewrite (proj1 (walkUp_cycle fuel)). }
  split; [exact H|].
  assert (H' : processConversation fuel cycleConversation = None).
  { unfold processConversation, cycleConversation. cbn [mapping current_node].
    now rewrite H. }
  split; [exact H'|].
  unfold processConversations. simpl. unfold tryProcess, processElement. now rewrite H'.
Qed.

(** ** Branches *)

Section Branches.
Variables (fuel : nat) (m : Mapping) (ids : list string).

(** What one branch root contributes: a record when its descent collects
    at least one message, nothing otherwise. *)
Definition branchFor (nodeId childId : string) : list ProcessedBranch :=
  match extractBranchThread fuel m childId ids with
  | Some (Ok (msg :: rest)) =>
      [{| branch_id := childId; parentMessageId := nodeId;
          branch_messages := msg :: rest |}]
  | _ => []
  end.

Definition nodeBranches (node : MessageNode) : list ProcessedBranch :=
  flat_map (branchFor (id node)) (branchRoots node).

Lemma forEachChild_spec (nodeId : string) :
  forall childIds acc bs,
    forEachChild fuel m ids nodeId childIds acc = Some (Ok bs) ->
    bs = acc ++ flat_map (branchFor nodeId) childIds.
Proof.
  induction childIds as [|c rest IH]; intros acc bs; simpl.
  - intros [= <-]. now rewrite app_nil_r.
  - unfold branchFor at 1.
    destruct (extractBranchThread fuel m c ids) as [[[|msg more]|e]|]; simpl;
      try discriminate; intros H; apply IH in H; subst bs; [reflexivity|].
    now rewrite <- app_assoc.
Qed.

Lemma forEachNode_spec :
  forall nodes acc bs,
    forEachNode fuel m ids nodes acc = Some (Ok bs) ->
    bs = acc ++ flat_map nodeBranches nodes.
Proof.
  induction nodes as [|n rest IH]; intros acc bs; simpl.
  - intros [= <-]. now rewrite app_nil_r.
  - destruct (forEachChild fuel m ids (id n) (branchRoots n) acc) as [[bs'|e]|] eqn:E;
      simpl; try discriminate.
    intros H. apply IH in H. apply forEachChild_spec in E. subst.
    unfold nodeBranches at 2. now rewrite <- app_assoc.
Qed.

Lemma branchFor_origin (nodeId childId : string) (b : ProcessedBranch) :
  In b (branchFor nodeId childId) ->
  branch_id b = childId /\ parentMessageId b = nodeId
  /\ extractBranchThread fuel m childId ids = Some (Ok (branch_messages b))
  /\ branch_messages b <> [].
Proof.
  unfold branchFor.
  destruct (extractBranchThread fuel m childId ids) as [[[|msg more]|e]|];
    simpl; try contradiction.
  intros [<- | []]. simpl. repeat split. discriminate.
Qed.

Lemma nodeBranches_origin (nodes : list MessageNode) (b : ProcessedBranch) :
  In b (flat_map nodeBranches nodes) ->
  exists node, In node nodes /\ In (branch_id b) (branchRoots node)
    /\ parentMessageId b = id node
    /\ extractBranchThread fuel m (branch_id b) ids = Some (Ok (branch_messages b))
    /\ branch_messages b <> [].
Proof.
  rewrite in_flat_map. intros (node & Hnode & Hb).
  unfold nodeBranches in Hb. rewrite in_flat_map in Hb.
  destruct Hb as (c & Hc & Hb). apply branchFor_origin in Hb.
  destruct Hb as (Hid & Hpar & Hthread & Hne).
  exists node. subst c. now repeat split.
Qed.

Lemma filter_other_node (node other : MessageNode) :
  id other <> id node ->
  filter (fun b => String.eqb (parentMessageId b) (id node)) (nodeBranches other) = [].
Proof.
  intros Hneq.
  assert (H : forall b, In b (nodeBranches other) ->
              String.eqb (parentMessageId b) (id node) = false).
  { intros b Hb. unfold nodeBranches in Hb. rewrite in_flat_map in Hb.
    destruct Hb as (c & _ & Hb). apply branchFor_origin in Hb.
    destruct Hb as (_ & Hpar & _). rewrite Hpar. now apply String.eqb_neq. }
  induction (nodeBranches other) as [|b l IH]; simpl; [reflexivity|].
  rewrite (H b (or_introl eq_refl)). apply IH. intros b' Hb'. apply H. now right.
Qed.

Lemma filter_same_node (node : MessageNode) :
  filter (fun b => String.eqb (parentMessageId b) (id node)) (nodeBranches node)
  = nodeBranches node.
Proof.
  assert (H : forall b, In b (nodeBranches node) ->
              String.eqb (parentMessageId b) (id node) = true).
  { intros b Hb. unfold nodeBranches in Hb. rewrite in_flat_map in Hb.
    destruct Hb as (c & _ & Hb). apply branchFor_origin in Hb.
    destruct Hb as (_ & Hpar & _). rewrite Hpar. apply String.eqb_refl. }
  induction (nodeBranches node) as [|b l IH]; simpl; [reflexivity|].
  rewrite (H b (or_introl eq_refl)). f_equal. apply IH. intros b' Hb'. apply H. now right.
Qed.

Lemma filter_other_nodes (node : MessageNode) (nodes : list MessageNode) :
  ~ In (id node) (map id nodes) ->
  filter (fun b => String.eqb (parentMessageId b) (id node)) (flat_map nodeBranches nodes) = [].
Proof.
  induction nodes as [|n rest IH]; simpl; [reflexivity|].
  intros Hnot. rewrite filter_app, filter_other_node, IH; auto.
Qed.

(** With distinct node ids, the branches recorded under a node's id are
    the ones that node contributes. *)
Lemma filter_node_branches (node : MessageNode) (nodes : list MessageNode) :
  NoDup (map id nodes) -> In node nodes ->
  filter (fun b => String.eqb (parentMessageId b) (id node)) (flat_map nodeBranches nodes)
  = nodeBranches node.
Proof.
  intros Hnd Hin. apply in_split in Hin. destruct Hin as (l1 & l2 & ->).
  rewrite map_app in Hnd. simpl in Hnd.
  pose proof (NoDup_remove_2 _ _ _ Hnd) as Hnot.
  rewrite flat_map_app. simpl. rewrite !filter_app.
  rewrite filter_same_node, !filter_other_nodes, app_nil_r; [reflexivity| |];
    intros H; apply Hnot, in_or_app; tauto.
Qed.
End Branches.

Lemma extractBranches_spec (fuel : nat) (m : Mapping) (mainThread : list ProcessedMessage)
    (bs : list ProcessedBranch) :
  extractBranches fuel m mainThread = Some (Ok bs) ->
  bs = flat_map (nodeBranches fuel m (map pm_id mainThread)) (values m).
Proof.
  unfold extractBranches. intros H. now apply forEachNode_spec in H.
Qed.

(** C10.  [extractBranches] returns (or throws) once the fuel exceeds the
    size of the mapping, and every branch of the list it returns has at
    least one message: each record is the non-empty collection of the
    descent from its root, so a branch root whose descent collects no
    message has no record, although its parent has several children. *)
Theorem branches_have_messages (fuel : nat) (m : Mapping) (mainThread : list ProcessedMessage) :
  List.length m < fuel ->
  (exists r, extractBranches fuel m mainThread = Some r)
  /\ forall bs, extractBranches fuel m mainThread = Some (Ok bs) ->
       Forall (fun b => branch_messages b <> []) bs
       /\ forall node childId,
            In node (values m) -> In childId (branchRoots node) ->
            extractBranchThread fuel m childId (map pm_id mainThread) = Some (Ok []) ->
            ~ exists b, In b bs /\ branch_id b = childId.
Proof.
  intros Hfuel. split.
  - pose proof (extractBranches_returns m mainThread fuel Hfuel) as H.
    destruct (extractBranches fuel m mainThread) as [r|]; [now exists r | contradiction].
  - intros bs Hbs. apply extractBranches_spec in Hbs. subst bs. split.
    + apply Forall_forall. intros b Hb. apply nodeBranches_origin in Hb.
      now destruct Hb as (_ & _ & _ & _ & _ & Hne).
    + intros node childId _ _ Hempty (b & Hb & Hid).
      apply nodeBranches_origin in Hb.
      destruct Hb as (_ & _ & _ & _ & Hthread & Hne).
      rewrite Hid, Hempty in Hthread. injection Hthread as Hnil. now apply Hne.
Qed.

(** *** A node with three children *)

Definition userText (i text : string) : Message :=
  {| msg_id := i; author := {| role := "user" |}; msg_create_time := Some 1700000000%float;
     content := Some (JObj [("content_type", JStr "text"); ("parts", JArr [JStr text])]);
     msg_metadata := Some {| model_slug := None; citations := None |} |}.

Definition withRole (r : string) (msg : Message) : Message :=
  {| msg_id := msg_id msg; author := {| role := r |};
     msg_create_time := msg_create_time msg; content := content msg;
     msg_metadata := msg_metadata msg |}.

Definition threeRoot : MessageNode :=
  {| id := "r"; message := None; parent := None; children := Some ["a"; "b"; "c"] |}.

(** The root has three children: a user message, an assistant regeneration
    and a system note. *)
Definition threeMapping : Mapping :=
  [("r", threeRoot);
   ("a", {| id := "a"; message := Some (userText "a" "first");
            parent := Some "r"; children := Some [] |});
   ("b", {| id := "b"; message := Some (withRole "assistant" (userText "b" "second"));
            parent := Some "r"; children := Some [] |});
   ("c", {| id := "c"; message := Some (withRole "system" (userText "c" "note"));
            parent := Some "r"; children := Some [] |})].

(** C3 (fails as stated).  A mapping whose root has exactly three children,
    the third holding only a system message: [extractBranches] returns one
    branch for the root, not two. *)
Lemma three_children_one_branch :
  In threeRoot (values threeMapping)
  /\ children threeRoot = Some ["a"; "b"; "c"]
  /\ forall extra, exists mainThread bs,
       extractMainThread (3 + extra) threeMapping None = Some (Ok mainThread)
       /\ extractBranches (3 + extra) threeMapping mainThread = Some (Ok bs)
       /\ List.length (filter (fun b => String.eqb (parentMessageId b) (id threeRoot)) bs) = 1
       /\ List.length bs <> 2.
Proof.
  split; [simpl; tauto|]. split; [reflexivity|].
  intros extra. eexists. eexists.
  split; [reflexivity|]. split; [reflexivity|]. split; [reflexivity | discriminate].
Qed.

(** C3 (amended).  A node with exactly three children contributes to the
    list [extractBranches] returns, in order, the branch of the child at
    index 1 and the branch of the child at index 2, each present when its
    descent collects at least one message, between the branches of the
    nodes before it and of the nodes after it; a branch has the child's id
    as [id] and the node's id as [parentMessageId], and the child at index 0
    contributes nothing.  When node ids are distinct these are exactly the
    returned branches whose [parentMessageId] is the node's id: two of them
    when both descents collect a message. *)
Theorem three_children_branches (fuel : nat) (m : Mapping)
    (mainThread : list ProcessedMessage) (node : MessageNode) (c0 c1 c2 : string)
    (bs : list ProcessedBranch) :
  In node (values m) ->
  children node = Some [c0; c1; c2] ->
  extractBranches fuel m mainThread = Some (Ok bs) ->
  let ids := map pm_id mainThread in
  let ofNode := filter (fun b => String.eqb (parentMessageId b) (id node)) bs in
  (exists before after,
      values m = before ++ node :: after
      /\ bs = flat_map (nodeBranches fuel m ids) before
              ++ (branchFor fuel m ids (id node) c1 ++ branchFor fuel m ids (id node) c2)
              ++ flat_map (nodeBranches fuel m ids) after)
  /\ (NoDup (map id (values m)) ->
      ofNode = branchFor fuel m ids (id node) c1 ++ branchFor fuel m ids (id node) c2
      /\ forall t1 t2,
           extractBranchThread fuel m c1 ids = Some (Ok t1) -> t1 <> [] ->
           extractBranchThread fuel m c2 ids = Some (Ok t2) -> t2 <> [] ->
           ofNode = [ {| branch_id := c1; parentMessageId := id node;
                         branch_messages := t1 |};
                      {| branch_id := c2; parentMessageId := id node;
                         branch_messages := t2 |} ]).
Proof.
  intros Hin Hkids Hbs ids ofNode.
  assert (Hnode : nodeBranches fuel m ids node
                  = branchFor fuel m ids (id node) c1 ++ branchFor fuel m ids (id node) c2).
  { unfold nodeBranches, branchRoots. rewrite Hkids. simpl. now rewrite app_nil_r. }
  pose proof (extractBranches_spec _ _ _ _ Hbs) as Hspec. fold ids in Hspec.
  split.
  - destruct (in_split _ _ Hin) as (before & after & Hsplit).
    exists before, after. split; [exact Hsplit|].
    rewrite Hspec, Hsplit, flat_map_app. simpl. now rewrite Hnode.
  - intros Hnd.
    assert (Heq : ofNode = branchFor fuel m ids (id node) c1
                           ++ branchFor fuel m ids (id node) c2).
    { unfold ofNode. rewrite Hspec.
      rewrite filter_node_branches by assumption. exact Hnode. }
    split; [exact Heq|].
    intros t1 t2 H1 Hne1 H2 Hne2. rewrite Heq. unfold branchFor. rewrite H1, H2.
    destruct t1; [contradiction|]. destruct t2; [contradiction|]. reflexivity.
Qed.

Definition twoBranchMapping : Mapping :=
  [("r", threeRoot);
   ("a", {| id := "a"; message := Some (userText "a" "first");
            parent := Some "r"; children := Some [] |});
   ("b", {| id := "b"; message := Some (withRole "assistant" (userText "b" "second"));
            parent := Some "r"; children := Some [] |});
   ("c", {| id := "c"; message := Some (withRole "assistant" (userText "c" "third"));
            parent := Some "r"; children := Some [] |})].

Definition twoBranchMain : list ProcessedMessage :=
  Eval vm_compute in
    match extractMainThread 5 twoBranchMapping None with
    | Some (Ok l) => l
    | _ => []
    end.

Definition twoBranchResult : list ProcessedBranch :=
  Eval vm_compute in
    match extractBranches 5 twoBranchMapping twoBranchMain with
    | Some (Ok l) => l
    | _ => []
    end.

(** On a root whose three children each hold a message, the two branches
    are those of the second and third child. *)
Lemma three_children_branches_witness :
  List.length twoBranchResult = 2
  /\ filter (fun b => String.eqb (parentMessageId b) "r") twoBranchResult
     = branchFor 5 twoBranchMapping (map pm_id twoBranchMain) "r" "b"
       ++ branchFor 5 twoBranchMapping (map pm_id twoBranchMain) "r" "c".
Proof.
  split; [reflexivity|].
  refine (proj1 (proj2 (three_children_branches 5 twoBranchMapping twoBranchMain threeRoot
                          "a" "b" "c" twoBranchResult _ _ _) _)).
  - simpl. tauto.
  - reflexivity.
  - reflexivity.
  - apply distinctb_NoDup. reflexivity.
Defined.

Definition threeMain : list ProcessedMessage :=
  Eval vm_compute in
    match extractMainThread 5 threeMapping None with
    | Some (Ok l) => l
    | _ => []
    end.

Definition threeResult : list ProcessedBranch :=
  Eval vm_compute in
    match extractBranches 5 threeMapping threeMain with
    | Some (Ok l) => l
    | _ => []
    end.

(** On the root whose third child holds only a system message, the one
    branch returned has a message and the third child has no record. *)
Lemma branches_have_messages_witness :
  List.length threeMapping < 5
  /\ extractBranches 5 threeMapping threeMain = Some (Ok threeResult)
  /\ Forall (fun b => branch_messages b <> []) threeResult
  /\ ~ exists b, In b threeResult /\ branch_id b = "c".
Proof.
  assert (Hfuel : List.length threeMapping < 5) by (simpl; lia).
  split; [exact Hfuel|]. split; [reflexivity|].
  destruct (proj2 (branches_have_messages 5 threeMapping threeMain Hfuel)
                  threeResult eq_refl) as [Hall Hnone].
  split; [exact Hall|].
  apply (Hnone threeRoot "c"); [simpl; tauto | simpl; tauto | reflexivity].
Defined.

(** ** The main thread of a tree *)

Definition childIds (n : MessageNode) : list string :=
  match children n with
  | Some l => l
  | None => []
  end.

(** [parentOf m a d]: the node stored under [d] names [a] as its parent. *)
Definition parentOf (m : Mapping) (a d : string) : Prop :=
  exists n, lookup d m = Some n /\ parent n = Some a.

(** Proper ancestors: the transitive closure of [parentOf]. *)
Inductive Ancestor (m : Mapping) : string -> string -> Prop :=
| ancestor_parent a d : parentOf m a d -> Ancestor m a d
| ancestor_trans a b d : Ancestor m a b -> Ancestor m b d -> Ancestor m a d.

(** A mapping that is a tree rooted at [root]: every node is stored under
    its id, [root] is the only parentless node, child lists and parent
    links agree, and no node is its own ancestor. *)
Record Tree (m : Mapping) (root : MessageNode) : Prop := {
  keys_are_ids : forall k n, In (k, n) m -> id n = k;
  root_stored : In root (values m);
  root_parentless : parent root = None;
  root_unique : forall n, In n (values m) -> parent n = None -> n = root;
  children_known : forall n c, In n (values m) -> In c (childIds n) ->
                     exists n', lookup c m = Some n' /\ parent n' = Some (id n);
  parents_list_child : forall n p, In n (values m) -> parent n = Some p ->
                     exists np, lookup p m = Some np /\ In (id n) (childIds np);
  acyclic : forall k, ~ Ancestor m k k
}.

(** The path of the specification: start at a node and take the first
    child id again and again, until a node has no children. *)
Inductive FirstChildPath (m : Mapping) : MessageNode -> list MessageNode -> Prop :=
| path_end n : childIds n = [] -> FirstChildPath m n [n]
| path_step n c others n' rest :
    childIds n = c :: others -> lookup c m = Some n' ->
    FirstChildPath m n' rest -> FirstChildPath m n (n :: rest).

(** The text of a message as the specification resolves it, empty when
    there is none. *)
Definition resolvedText (msg : Message) : string :=
  match content msg with
  | Some c =>
      match extractTextContent c with
      | Ok s => s
      | Throw _ => ""
      end
  | None => ""
  end.

Definition excluded (msg : Message) : bool :=
  String.eqb (role (author msg)) "system" || String.eqb (resolvedText msg) "".

Definition pathMessages (path : list MessageNode) : list Message :=
  flat_map (fun n => match message n with
                     | Some msg => [msg]
                     | None => []
                     end) path.

Definition keptMessages (path : list MessageNode) : list Message :=
  filter (fun msg => negb (excluded msg)) (pathMessages path).

(** [pm] is the processed form of [msg]. *)
Definition Represents (msg : Message) (pm : ProcessedMessage) : Prop :=
  processMessage msg = Ok (Some pm)
  /\ pm_id pm = msg_id msg
  /\ pm_content pm = resolvedText msg
  /\ pm_role pm = (if String.eqb (role (author msg)) "tool"
                   then "assistant" else role (author msg)).

(** Every message carries the [metadata] object its type declares. *)
Definition WellTyped (m : Mapping) : Prop :=
  forall n msg, In n (values m) -> message n = Some msg -> msg_metadata msg <> None.

Lemma FirstChildPath_unique (m : Mapping) (n : MessageNode) (l1 l2 : list MessageNode) :
  FirstChildPath m n l1 -> FirstChildPath m n l2 -> l1 = l2.
Proof.
  intros H1. revert l2.
  induction H1 as [n Hleaf | n c others n' rest Hkids Hlook _ IH]; intros l2 H2.
  - inversion H2; subst; [reflexivity | congruence].
  - inversion H2 as [? Hleaf | ? c2 others2 n2 rest2 Hkids2 Hlook2 Hrest2]; subst;
      [congruence|].
    rewrite Hkids in Hkids2. injection Hkids2 as <- <-.
    rewrite Hlook in Hlook2. injection Hlook2 as <-.
    f_equal. now apply IH.
Qed.

Lemma falsy_has_no_text (c : json) :
  truthy c = false ->
  match extractTextContent c with Ok s => s | Throw _ => "" end = "".
Proof.
  destruct c as [|b|z|s|items|fields]; simpl; try reflexivity; try discriminate.
  rewrite negb_false_iff, String.eqb_eq. now intros ->.
Qed.

Lemma truthy_has_text (c : json) :
  truthy c = true -> exists s, extractTextContent c = Ok s.
Proof.
  destruct c as [|b|z|s|items|fields]; simpl; try discriminate; eauto.
  intros _. destruct (get "parts" fields) as [[| | | |items|]|]; eauto;
    destruct (stringField "text" fields); eauto;
    destruct (stringField "result" fields); eauto.
Qed.

Lemma processMessage_excluded (msg : Message) :
  excluded msg = true -> processMessage msg = Ok None.
Proof.
  unfold excluded, resolvedText, processMessage.
  destruct (content msg) as [c|]; [|reflexivity].
  destruct (truthy c) eqn:Ht; simpl; [|reflexivity].
  destruct (String.eqb (role (author msg)) "system"); simpl; [reflexivity|].
  destruct (truthy_has_text c Ht) as (s & ->). simpl.
  unfold nonempty. now intros ->.
Qed.

Lemma processMessage_kept (msg : Message) :
  excluded msg = false -> msg_metadata msg <> None ->
  exists pm, Represents msg pm.
Proof.
  unfold Represents, excluded, resolvedText, processMessage.
  rewrite orb_false_iff. intros [Hrole Htext] Hmd.
  destruct (content msg) as [c|]; [|discriminate].
  destruct (truthy c) eqn:Ht.
  - rewrite Hrole. simpl.
    destruct (extractTextContent c) as [s|e]; simpl; [|discriminate].
    unfold nonempty. rewrite Htext. simpl.
    destruct (msg_metadata msg) as [md|]; [|contradiction].
    eexists. repeat split.
  - rewrite (falsy_has_no_text c Ht) in Htext. discriminate.
Qed.

Lemma Ancestor_by_rank (m : Mapping) (rank : string -> nat) :
  (forall a d, parentOf m a d -> rank a < rank d) ->
  forall k, ~ Ancestor m k k.
Proof.
  intros Hrank.
  assert (H : forall a d, Ancestor m a d -> rank a < rank d).
  { induction 1 as [a d Hp | a b d _ IH1 _ IH2]; [now apply Hrank | lia]. }
  intros k Hk. apply H in Hk. lia.
Qed.

Section TreeTraversal.
Variables (m : Mapping) (root : MessageNode).
Hypothesis Htree : Tree m root.
Hypothesis Htyped : WellTyped m.

Lemma first_child_step (n : MessageNode) (c : string) :
  In n (values m) -> firstChild n = Some c ->
  exists n' others, childIds n = c :: others /\ lookup c m = Some n'
                    /\ In n' (values m) /\ Ancestor m (id n) (id n').
Proof.
  intros Hn Hfirst. unfold firstChild in Hfirst.
  destruct (children n) as [[|c' others]|] eqn:Hkids; try discriminate.
  injection Hfirst as ->.
  assert (Hc : In c (childIds n)) by (unfold childIds; rewrite Hkids; now left).
  destruct (children_known m root Htree n c Hn Hc) as (n' & Hlook & Hpar).
  exists n', others. split; [unfold childIds; now rewrite Hkids|]. split; [exact Hlook|].
  split; [now apply lookup_values in Hlook|].
  apply ancestor_parent. exists n'. split; [|exact Hpar].
  now rewrite (keys_are_ids m root Htree c n' (lookup_entry _ _ _ Hlook)).
Qed.

Lemma processNode_on_tree (n : MessageNode) :
  In n (values m) ->
  exists out, Forall2 Represents (keptMessages [n]) out
              /\ forall acc, exists pm, processNode n = Ok pm /\ pushMaybe acc pm = acc ++ out.
Proof.
  intros Hn. unfold keptMessages, pathMessages, processNode. simpl.
  destruct (message n) as [msg|] eqn:Hmsg; simpl.
  - destruct (excluded msg) eqn:Hex; simpl.
    + exists []. split; [constructor|]. intros acc. exists None.
      split; [now apply processMessage_excluded | simpl; now rewrite app_nil_r].
    + destruct (processMessage_kept msg Hex (Htyped n msg Hn Hmsg)) as (pm & Hpm).
      exists [pm]. split; [constructor; [exact Hpm | constructor]|]. intros acc. exists (Some pm).
      split; [apply Hpm | reflexivity].
  - exists []. split; [constructor|]. intros acc. exists None.
    split; [reflexivity | simpl; now rewrite app_nil_r].
Qed.

Lemma keptMessages_cons (n : MessageNode) (rest : list MessageNode) :
  keptMessages (n :: rest) = keptMessages [n] ++ keptMessages rest.
Proof.
  unfold keptMessages, pathMessages. simpl. now rewrite app_nil_r, filter_app.
Qed.

(** On a tree the visited set never stops the descent: it holds proper
    ancestors of the current node only. *)
Lemma mainLoop_on_tree (fuel : nat) :
  forall n visited acc,
    In n (values m) ->
    (forall v, In v visited -> Ancestor m v (id n)) ->
    pending m visited < fuel ->
    exists path out,
      FirstChildPath m n path
      /\ mainLoop fuel m visited (Some n) acc = Some (Ok (acc ++ out))
      /\ Forall2 Represents (keptMessages path) out.
Proof.
  induction fuel as [|fuel IH]; intros n visited acc Hn Hvis Hfuel; [lia|].
  simpl.
  destruct (includes visited (id n)) eqn:Hseen.
  { apply includes_In, Hvis in Hseen. now apply (acyclic m root Htree) in Hseen. }
  destruct (processNode_on_tree n Hn) as (out & Hout & Hpush).
  destruct (Hpush acc) as (pm & -> & ->).
  destruct (firstChild n) as [c|] eqn:Hfirst.
  - destruct (first_child_step n c Hn Hfirst) as (n' & others & Hkids & Hlook & Hn' & Hanc).
    rewrite Hlook.
    destruct (IH n' (id n :: visited) (acc ++ out) Hn') as (path & out' & Hpath & Hrun & Hrep).
    + intros v [<- | Hv]; [exact Hanc|].
      eapply ancestor_trans; [now apply Hvis | exact Hanc].
    + pose proof (pending_visit m visited n Hn Hseen). lia.
    + exists (n :: path), (out ++ out'). split; [|split].
      * eapply path_step; eauto.
      * now rewrite Hrun, app_assoc.
      * rewrite keptMessages_cons. now apply Forall2_app.
  - exists [n], out. split; [|split; [reflexivity | exact Hout]].
    apply path_end. unfold firstChild in Hfirst. unfold childIds.
    destruct (children n) as [[|c l]|]; [reflexivity | discriminate | reflexivity].
Qed.

Lemma findStart_on_tree (fuel : nat) (cur : option string) :
  findStart fuel m cur = Some (Some root).
Proof.
  unfold findStart.
  destruct (find (fun n => isNull (parent n)) (values m)) as [r|] eqn:Hfind.
  - apply find_some in Hfind. destruct Hfind as [Hin Hnull].
    rewrite (root_unique m root Htree r Hin); [reflexivity|].
    now destruct (parent r).
  - exfalso.
    pose proof (find_none _ _ Hfind root (root_stored m root Htree)) as H.
    simpl in H. now rewrite (root_parentless m root Htree) in H.
Qed.
End TreeTraversal.

(** C2 (amended).  On a mapping that is a tree whose messages carry their metadata,
    [extractMainThread], given fuel beyond the size of the mapping, returns
    the processed forms of exactly the messages on the first-child path
    from the root to a node without children, in path order, without the
    messages whose role is [system] or whose resolved text is empty.  The
    path is unique ([FirstChildPath_unique]). *)
Theorem main_thread_of_tree (fuel : nat) (m : Mapping) (root : MessageNode)
    (currentNode : option string) :
  Tree m root -> WellTyped m -> List.length m < fuel ->
  exists path out,
    FirstChildPath m root path
    /\ extractMainThread fuel m currentNode = Some (Ok out)
    /\ Forall2 Represents (keptMessages path) out.
Proof.
  intros Htree Htyped Hfuel. unfold extractMainThread.
  rewrite (findStart_on_tree m root Htree).
  destruct (mainLoop_on_tree m root Htree Htyped fuel root [] [])
    as (path & out & Hpath & Hrun & Hrep).
  - apply (root_stored m root Htree).
  - intros v [].
  - pose proof (pending_le_length m []). lia.
  - exists path, out. now repeat split.
Qed.

(** *** A tree to run the traversal on *)

Definition demoRoot : MessageNode :=
  {| id := "r"; message := None; parent := None; children := Some ["a"; "b"] |}.

(** The root has a user message and a regeneration below it; the user
    message is followed by a system note and a tool result. *)
Definition demoMapping : Mapping :=
  [("r", demoRoot);
   ("a", {| id := "a"; message := Some (userText "a" "question");
            parent := Some "r"; children := Some ["s"] |});
   ("b", {| id := "b"; message := Some (withRole "assistant" (userText "b" "other answer"));
            parent := Some "r"; children := Some [] |});
   ("s", {| id := "s"; message := Some (withRole "system" (userText "s" "note"));
            parent := Some "a"; children := Some ["t"] |});
   ("t", {| id := "t"; message := Some (withRole "tool" (userText "t" "answer"));
            parent := Some "s"; children := None |})].

Definition demoRank (k : string) : nat :=
  if String.eqb k "a" then 1 else if String.eqb k "b" then 1
  else if String.eqb k "s" then 2 else if String.eqb k "t" then 3 else 0.

(** Case analysis on the key comparisons of a [lookup] in hypothesis [H]. *)
Ltac split_lookup H :=
  repeat match type of H with
         | context [String.eqb ?x ?y] =>
             let E := fresh "E" in
             destruct (String.eqb x y) eqn:E;
             [apply String.eqb_eq in E | clear E]; cbv iota in H
         end.

Lemma demoMapping_is_tree : Tree demoMapping demoRoot.
Proof.
  constructor.
  - intros k n H. simpl in H.
    repeat (destruct H as [H|H]; [injection H as <- <-; reflexivity|]). contradiction.
  - simpl. tauto.
  - reflexivity.
  - intros n H Hp. simpl in H.
    repeat (destruct H as [<-|H]; [first [reflexivity | discriminate]|]). contradiction.
  - intros n c Hn Hc. simpl in Hn.
    repeat (destruct Hn as [<-|Hn];
            [simpl in Hc;
             repeat (destruct Hc as [<-|Hc]; [eexists; split; reflexivity|]);
             contradiction|]).
    contradiction.
  - intros n p Hn Hp. simpl in Hn.
    repeat (destruct Hn as [<-|Hn];
            [first [discriminate Hp
                   | injection Hp as <-; eexists; split; [reflexivity | simpl; tauto]]|]).
    contradiction.
  - apply (Ancestor_by_rank demoMapping demoRank).
    intros a d (n & Hlook & Hpar). unfold demoMapping in Hlook. cbn [lookup] in Hlook.
    split_lookup Hlook;
      try discriminate; injection Hlook as <-; simpl in Hpar; subst;
      first [discriminate | injection Hpar as <-; unfold demoRank; simpl; lia].
Qed.

Lemma demoMapping_is_typed : WellTyped demoMapping.
Proof.
  intros n msg Hn Hmsg. simpl in Hn.
  repeat (destruct Hn as [<-|Hn];
          [first [discriminate Hmsg | injection Hmsg as <-; discriminate]|]).
  contradiction.
Qed.

(** The theorem at the demo tree, whatever [currentNode] is. *)
Lemma main_thread_of_tree_witness :
  exists path out,
    FirstChildPath demoMapping demoRoot path
    /\ extractMainThread 6 demoMapping (Some "b") = Some (Ok out)
    /\ Forall2 Represents (keptMessages path) out.
Proof.
  apply (main_thread_of_tree 6 demoMapping demoRoot (Some "b")
           demoMapping_is_tree demoMapping_is_typed).
  simpl. lia.
Defined.

(** The thread of the demo tree: the user message and the tool result,
    the latter under the role [assistant]; the system note is left out. *)
Example demo_main_thread :
  option_map (fun r => match r with
                       | Ok out => map (fun pm => (pm_id pm, pm_role pm, pm_content pm)) out
                       | Throw _ => []
                       end) (extractMainThread 6 demoMapping None)
  = Some [("a", "user", "question"); ("t", "assistant", "answer")].
Proof. reflexivity. Qed.

(** ** The scenario of the specification *)

(** The export document of the scenario; [extra] are further fields of the
    one message. *)
Definition scenario (extra : list (string * json)) : json :=
  JObj [("conversations", JArr [
    JObj [("id", JStr "c1"); ("title", JStr "Test");
          ("create_time", JNum 0); ("update_time", JNum 0);
          ("mapping", JObj [
             ("root", JObj [("id", JStr "root"); ("message", JNull);
                            ("parent", JNull); ("children", JArr [JStr "n1"])]);
             ("n1", JObj [("id", JStr "n1");
                          ("message",
                           JObj ([("id", JStr "n1");
                                  ("author", JObj [("role", JStr "user")]);
                                  ("content", JObj [("content_type", JStr "text");
                                                    ("parts", JArr [JStr "Hello"])]);
                                  ("create_time", JNum 0)] ++ extra));
                          ("parent", JStr "root"); ("children", JArr [])])]);
          ("current_node", JStr "n1")]])].

(** The scenario as the specification writes it: the message has no
    [metadata]. *)
Definition scenarioAsWritten : json := scenario [].

Definition scenarioWithMetadata : json := scenario [("metadata", JObj [])].

Definition scenarioConversation (md : option MessageMetadata) : Conversation :=
  {| conv_id := "c1"; title := Some "Test"; create_time := 0%float; update_time := 0%float;
     mapping := Some
       [("root", {| id := "root"; message := None; parent := None;
                    children := Some ["n1"] |});
        ("n1", {| id := "n1";
                  message := Some {| msg_id := "n1"; author := {| role := "user" |};
                                     msg_create_time := Some 0%float;
                                     content := Some (JObj [("content_type", JStr "text");
                                                            ("parts", JArr [JStr "Hello"])]);
                                     msg_metadata := md |};
                  parent := Some "root"; children := Some [] |})];
     current_node := Some "n1" |}.

(** Reading an export: [parseExport] followed by the cast of its result. *)
Definition readExport (t : JsonText) : option ChatGPTExport :=
  match parseExport t with
  | Ok items => asExport items
  | Throw _ => None
  end.

(** C4 (fails on the code).  The document of the scenario parses to one raw
    conversation, but its message has no [metadata] and [processMessage]
    throws on [message.metadata.model_slug]; the batch catches the exception
    and drops the conversation: the result is the empty list, for whatever
    fuel lets the traversal finish, and never a list of one conversation. *)
Lemma scenario_as_written_yields_nothing :
  readExport (Document scenarioAsWritten)
  = Some {| conversations := [Some (scenarioConversation None)] |}
  /\ (forall extra,
        processConversation (2 + extra) (scenarioConversation None)
        = Some (Throw (TypeError
                         "Cannot read properties of undefined (reading 'model_slug')")))
  /\ (forall extra,
        processConversations (2 + extra) {| conversations := [Some (scenarioConversation None)] |}
        = Some (Ok []))
  /\ (forall fuel c,
        processConversations fuel {| conversations := [Some (scenarioConversation None)] |}
        <> Some (Ok [c])).
Proof.
  split; [reflexivity|]. split; [reflexivity|]. split; [reflexivity|].
  intros [|[|fuel]] c; discriminate.
Qed.

(** C4 (amended).  With a [metadata] object on the message, the document of
    the scenario yields exactly one conversation, whose main thread is the
    single message of role [user] and text [Hello]; no branch is extracted,
    so the conversation has no [branches] field and [hasBranches] is false. *)
Theorem scenario_with_metadata :
  readExport (Document scenarioWithMetadata)
  = Some {| conversations :=
              [Some (scenarioConversation
                       (Some {| model_slug := None; citations := None |}))] |}
  /\ forall extra,
       exists c,
         processConversations (2 + extra)
           {| conversations :=
                [Some (scenarioConversation
                         (Some {| model_slug := None; citations := None |}))] |}
         = Some (Ok [c])
         /\ List.length (messages c) = 1
         /\ messageCount c = 1
         /\ map pm_role (messages c) = ["user"]
         /\ map pm_content (messages c) = ["Hello"]
         /\ branches c = None
         /\ hasBranches (pc_metadata c) = false.
Proof.
  split; [reflexivity|].
  intros extra. eexists. split; [reflexivity|]. repeat split.
Qed.

(** ** The batch *)

(** The elements of the array that are processed without an exception, in
    order. *)
Definition successes (fuel : nat) (cs : list (option Conversation))
    : list ProcessedConversation :=
  flat_map (fun c => match processElement fuel c with
                     | Some (Ok p) => [p]
                     | _ => []
                     end) cs.


Definition noMappingConversation : Conversation :=
  {| conv_id := "c0"; title := None; create_time := 0%float; update_time := 0%float;
     mapping := None; current_node := None |}.

Definition mixedExport : ChatGPTExport :=
  {| conversations :=
       [Some (scenarioConversation (Some {| model_slug := Some "gpt-4"; citations := None |}));
        Some (scenarioConversation None);
        Some noMappingConversation;
        Some (scenarioConversation (Some {| model_slug := None; citations := None |}))] |}.

(** ** What every processed message satisfies *)

(** A message as [processMessage] lets it through: text that is not empty,
    a role that is neither [system] nor [tool], and code blocks recorded
    only when there are some. *)
Definition Presentable (pm : ProcessedMessage) : Prop :=
  pm_content pm <> ""
  /\ pm_role pm <> "system"
  /\ pm_role pm <> "tool"
  /\ codeBlocks (metadata pm) <> Some [].

Lemma processMessage_presentable (msg : Message) (pm : ProcessedMessage) :
  processMessage msg = Ok (Some pm) -> Presentable pm /\ pm_id pm = msg_id msg.
Proof.
  unfold processMessage.
  destruct (content msg) as [c|]; [|discriminate].
  destruct (truthy c); simpl; [|discriminate].
  destruct (String.eqb (role (author msg)) "system") eqn:Hsys; simpl; [discriminate|].
  destruct (extractTextContent c) as [text|e]; simpl; [|discriminate].
  destruct (nonempty text) eqn:Htext; simpl; [|discriminate].
  destruct (msg_metadata msg) as [md|]; [|discriminate].
  intros [= <-]. unfold Presentable. simpl. repeat split.
  - unfold nonempty in Htext. rewrite negb_true_iff in Htext. now apply String.eqb_neq.
  - destruct (String.eqb (role (author msg)) "tool"); [discriminate|].
    now apply String.eqb_neq.
  - destruct (String.eqb (role (author msg)) "tool") eqn:Htool; [discriminate|].
    now apply String.eqb_neq.
  - now destruct (extractCodeBlocks text).
Qed.

Lemma pushMaybe_presentable (n : MessageNode) (pm : option ProcessedMessage)
    (acc : list ProcessedMessage) :
  processNode n = Ok pm -> Forall Presentable acc ->
  Forall Presentable (pushMaybe acc pm) /\ List.length (pushMaybe acc pm) <= S (List.length acc).
Proof.
  unfold processNode. intros Hn Hacc. destruct pm as [pm|]; simpl; [|split; [assumption | lia]].
  split.
  - apply Forall_app. split; [assumption|]. constructor; [|constructor].
    destruct (message n) as [msg|]; [|discriminate].
    now apply processMessage_presentable in Hn.
  - rewrite length_app. simpl. lia.
Qed.

Lemma mainLoop_output (m : Mapping) (fuel : nat) :
  forall visited node acc out,
    (forall n, node = Some n -> In n (values m)) ->
    Forall Presentable acc ->
    mainLoop fuel m visited node acc = Some (Ok out) ->
    Forall Presentable out /\ List.length out <= List.length acc + pending m visited.
Proof.
  induction fuel as [|fuel IH]; intros visited node acc out Hnode Hacc; simpl; [discriminate|].
  destruct node as [n|]; [|intros [= <-]; split; [assumption | lia]].
  destruct (includes visited (id n)) eqn:Hseen; [intros [= <-]; split; [assumption | lia]|].
  destruct (processNode n) as [pm|e] eqn:Hpm; [|discriminate].
  destruct (pushMaybe_presentable n pm acc Hpm Hacc) as [Hacc' Hlen].
  pose proof (pending_visit m visited n (Hnode n eq_refl) Hseen) as Hdec.
  destruct (firstChild n) as [c|].
  - intros Hrun. apply IH in Hrun; [|intros n' Hn'; now apply lookup_values in Hn' | assumption].
    destruct Hrun as [Hall Hbound]. split; [assumption | lia].
  - intros [= <-]. split; [assumption | lia].
Qed.

Lemma branchLoop_output (m : Mapping) (ids : list string) (fuel : nat) :
  forall visited node acc out,
    (forall n, node = Some n -> In n (values m)) ->
    Forall Presentable acc ->
    branchLoop fuel m ids visited node acc = Some (Ok out) ->
    Forall Presentable out /\ List.length out <= List.length acc + pending m visited.
Proof.
  induction fuel as [|fuel IH]; intros visited node acc out Hnode Hacc; simpl; [discriminate|].
  destruct node as [n|]; [|intros [= <-]; split; [assumption | lia]].
  destruct (includes ids (id n)); [intros [= <-]; split; [assumption | lia]|].
  destruct (includes visited (id n)) eqn:Hseen; [intros [= <-]; split; [assumption | lia]|].
  destruct (processNode n) as [pm|e] eqn:Hpm; [|discriminate].
  destruct (pushMaybe_presentable n pm acc Hpm Hacc) as [Hacc' Hlen].
  pose proof (pending_visit m visited n (Hnode n eq_refl) Hseen) as Hdec.
  destruct (firstChild n) as [c|].
  - intros Hrun. apply IH in Hrun; [|intros n' Hn'; now apply lookup_values in Hn' | assumption].
    destruct Hrun as [Hall Hbound]. split; [assumption | lia].
  - intros [= <-]. split; [assumption | lia].
Qed.

Lemma findStart_in_mapping (m : Mapping) (cur : option string) (fuel : nat)
    (node : option MessageNode) :
  findStart fuel m cur = Some node -> forall n, node = Some n -> In n (values m).
Proof.
  unfold findStart. intros E n ->.
  destruct (find (fun n0 => isNull (parent n0)) (values m)) as [r|] eqn:Hfind.
  - injection E as <-. now apply find_some in Hfind.
  - assert (Hhd : hd_error (values m) = Some n -> In n (values m)).
    { destruct (values m); simpl; [discriminate|]. intros [= ->]. now left. }
    assert (Hup : forall f x, In x (values m) -> walkUp f m x = Some n -> In n (values m)).
    { induction f as [|f IHf]; simpl; [discriminate|]. intros x Hx.
      destruct (parent x) as [p|]; [|now intros [= <-]].
      destruct (nonempty p); [|now intros [= <-]].
      destruct (lookup p m) as [up|] eqn:Hp; [|now intros [= <-]].
      apply IHf. now apply lookup_values in Hp. }
    destruct cur as [c|]; [|injection E as E; auto].
    destruct (nonempty c); [|injection E as E; auto].
    destruct (lookup c m) as [n0|] eqn:Hc; [|injection E as E; auto].
    destruct (walkUp fuel m n0) as [r|] eqn:Hw; [|discriminate].
    injection E as ->. eapply Hup; [|exact Hw]. now apply lookup_values in Hc.
Qed.

(** X1.  Whatever the mapping, a main thread that [extractMainThread]
    returns holds at most one message per node of the mapping, and each of
    its messages has a text that is not empty and a role that is neither
    [system] nor [tool]. *)
Theorem main_thread_is_presentable (fuel : nat) (m : Mapping) (currentNode : option string)
    (out : list ProcessedMessage) :
  extractMainThread fuel m currentNode = Some (Ok out) ->
  Forall Presentable out /\ List.length out <= List.length m.
Proof.
  unfold extractMainThread.
  destruct (findStart fuel m currentNode) as [node|] eqn:Hstart; [|discriminate].
  intros Hrun. apply mainLoop_output in Hrun.
  - destruct Hrun as [Hall Hlen]. split; [assumption|].
    pose proof (pending_le_length m []). simpl in Hlen. lia.
  - now apply (findStart_in_mapping m currentNode fuel).
  - constructor.
Qed.

(** The demo tree: a thread of two messages out of five nodes. *)
Lemma main_thread_is_presentable_witness :
  exists out, extractMainThread 6 demoMapping None = Some (Ok out)
              /\ Forall Presentable out /\ List.length out <= 5.
Proof.
  eexists. split; [reflexivity|].
  exact (main_thread_is_presentable 6 demoMapping None _ eq_refl).
Defined.

(** X2.  Every branch [extractBranches] returns starts at a child, other
    than the first, of a node of the mapping, is recorded under that node's
    id, and holds between one message and one message per node of the
    mapping, each with a text that is not empty and a role that is neither
    [system] nor [tool]. *)
Theorem branches_are_presentable (fuel : nat) (m : Mapping)
    (mainThread : list ProcessedMessage) (bs : list ProcessedBranch) :
  extractBranches fuel m mainThread = Some (Ok bs) ->
  Forall (fun b =>
            (exists node, In node (values m) /\ In (branch_id b) (branchRoots node)
                          /\ parentMessageId b = id node)
            /\ Forall Presentable (branch_messages b)
            /\ 1 <= List.length (branch_messages b) <= List.length m) bs.
Proof.
  intros Hbs. apply extractBranches_spec in Hbs. subst bs.
  apply Forall_forall. intros b Hb. apply nodeBranches_origin in Hb.
  destruct Hb as (node & Hnode & Hroot & Hpar & Hthread & Hne).
  split; [now exists node|].
  unfold extractBranchThread in Hthread. apply branchLoop_output in Hthread.
  - destruct Hthread as [Hall Hlen]. split; [assumption|].
    pose proof (pending_le_length m []). simpl in Hlen.
    destruct (branch_messages b); [contradiction | simpl in *; lia].
  - intros n Hn. now apply lookup_values in Hn.
  - constructor.
Qed.

(** The root with three children: the one branch returned. *)
Lemma branches_are_presentable_witness :
  Forall (fun b => Forall Presentable (branch_messages b)
                   /\ 1 <= List.length (branch_messages b) <= 4) threeResult.
Proof.
  eapply Forall_impl;
    [|exact (branches_are_presentable 5 threeMapping threeMain threeResult eq_refl)].
  intros b (_ & Hall & Hlen). split; [exact Hall | exact Hlen].
Defined.

(** ** When the search for the start node comes back *)

(** A node whose chain of parents ends: at a node without parent, with an
    empty parent id, or with a parent id the mapping does not hold. *)
Inductive Grounded (m : Mapping) : MessageNode -> Prop :=
| grounded_top n :
    parent n = None \/ parent n = Some "" \/ (exists p, parent n = Some p /\ lookup p m = None) ->
    Grounded m n
| grounded_up n p up :
    parent n = Some p -> lookup p m = Some up -> Grounded m up -> Grounded m n.

(** The cases in which the start node is found: some node is parentless,
    or [currentNode] is absent, empty or unknown, or the chain of parents
    of the current node ends. *)
Definition StartFound (m : Mapping) (cur : option string) : Prop :=
  (exists n, In n (values m) /\ parent n = None)
  \/ cur = None \/ cur = Some ""
  \/ (exists c, cur = Some c /\ lookup c m = None)
  \/ (exists c n, cur = Some c /\ lookup c m = Some n /\ Grounded m n).

Lemma walkUp_grounded (m : Mapping) (fuel : nat) :
  forall n r, walkUp fuel m n = Some r -> Grounded m n.
Proof.
  induction fuel as [|fuel IH]; intros n r; simpl; [discriminate|].
  destruct (parent n) as [p|] eqn:Hp; [|intros _; apply grounded_top; now left].
  destruct (nonempty p) eqn:Hne.
  - destruct (lookup p m) as [up|] eqn:Hup.
    + intros H. eapply grounded_up; eauto.
    + intros _. apply grounded_top. right. right. now exists p.
  - intros _. apply grounded_top. right. left.
    unfold nonempty in Hne. rewrite negb_false_iff in Hne.
    apply String.eqb_eq in Hne. now subst p.
Qed.

Lemma grounded_walkUp (m : Mapping) (n : MessageNode) :
  Grounded m n -> exists enough, forall fuel, enough <= fuel -> walkUp fuel m n <> None.
Proof.
  induction 1 as [n Htop | n p up Hp Hup _ (enough & IH)].
  - exists 1. intros [|fuel] Hfuel; [lia|]. simpl.
    destruct Htop as [-> | [-> | (p & -> & Hnone)]]; try discriminate.
    destruct (nonempty p); [|discriminate]. now rewrite Hnone.
  - exists (S enough). intros [|fuel] Hfuel; [lia|]. simpl. rewrite Hp.
    destruct (nonempty p); [|discriminate]. rewrite Hup. apply IH. lia.
Qed.

(** X3.  [extractMainThread] returns, for all fuel large enough, exactly
    when the start node is found: when some node is parentless, or
    [currentNode] is absent, empty or not a key of the mapping, or the
    chain of parents of the current node ends.  Cycles among the children
    never keep it from returning. *)
Theorem extractMainThread_returns_iff (m : Mapping) (currentNode : option string) :
  ((exists fuel, extractMainThread fuel m currentNode <> None) <-> StartFound m currentNode)
  /\ (StartFound m currentNode ->
      exists enough, forall fuel, enough <= fuel -> extractMainThread fuel m currentNode <> None).
Proof.
  assert (Hback : StartFound m currentNode ->
                  exists enough, forall fuel, enough <= fuel ->
                                              extractMainThread fuel m currentNode <> None).
  { intros Hfound.
    assert (Hstart : exists enough, forall fuel, enough <= fuel ->
                                                 findStart fuel m currentNode <> None).
    { destruct Hfound as [H | [H | [H | [H | (c & n & -> & Hc & Hg)]]]];
        try (exists 0; intros fuel _; apply findStart_returns; tauto).
      destruct (grounded_walkUp m n Hg) as (enough & Hw). exists enough. intros fuel Hfuel.
      unfold findStart.
      destruct (find (fun n0 => isNull (parent n0)) (values m)); [discriminate|].
      destruct (nonempty c); [|discriminate]. rewrite Hc.
      specialize (Hw fuel Hfuel). destruct (walkUp fuel m n); [discriminate | contradiction]. }
    destruct Hstart as (enough & Hstart). exists (enough + S (List.length m)).
    intros fuel Hfuel. apply extractMainThread_returns_from; [lia|]. apply Hstart. lia. }
  split; [|exact Hback]. split.
  - intros (fuel & Hrun). unfold extractMainThread in Hrun.
    destruct (findStart fuel m currentNode) as [node|] eqn:Hstart; [|contradiction].
    clear Hrun. unfold findStart in Hstart.
    destruct (find (fun n0 => isNull (parent n0)) (values m)) as [r|] eqn:Hfind.
    { left. apply find_some in Hfind. exists r. destruct Hfind as [Hin Hnull].
      split; [exact Hin|]. now destruct (parent r). }
    right. destruct currentNode as [c|]; [|now left].
    right. destruct (nonempty c) eqn:Hne.
    + right. destruct (lookup c m) as [n|] eqn:Hc; [|left; now exists c].
      right. exists c, n. repeat split; [exact Hc|].
      destruct (walkUp fuel m n) as [r|] eqn:Hw; [|discriminate].
      now apply walkUp_grounded in Hw.
    + left. unfold nonempty in Hne. rewrite negb_false_iff in Hne.
      apply String.eqb_eq in Hne. now subst c.
  - intros Hfound. destruct (Hback Hfound) as (enough & H). exists enough. now apply H.
Qed.

(** ** The shape of a processed conversation *)

Lemma count_disjoint {A} (p q : A -> bool) (l : list A) :
  (forall x, p x = true -> q x = false) -> count p l + count q l <= List.length l.
Proof.
  intros Hpq. unfold count. induction l as [|x l IH]; simpl; [lia|].
  destruct (p x) eqn:Hp; [rewrite (Hpq x Hp); simpl; lia|].
  destruct (q x); simpl; lia.
Qed.

Lemma distinct_NoDup (xs seen : list string) :
  NoDup (distinct seen xs) /\ forall x, In x (distinct seen xs) -> In x xs /\ ~ In x seen.
Proof.
  revert seen. induction xs as [|x rest IH]; intros seen; simpl.
  - split; [constructor | contradiction].
  - destruct (includes seen x) eqn:Hseen.
    + destruct (IH seen) as [Hnd Hin]. split; [exact Hnd|].
      intros y Hy. destruct (Hin y Hy). tauto.
    + destruct (IH (x :: seen)) as [Hnd Hin]. apply includes_false in Hseen. split.
      * constructor; [|exact Hnd]. intros Hx. destruct (Hin x Hx) as [_ Hnot].
        apply Hnot. now left.
      * intros y [<- | Hy]; [tauto|]. destruct (Hin y Hy) as [H1 H2].
        split; [tauto|]. intros H. apply H2. now right.
Qed.

Lemma truthyModels_nonempty (ms : list ProcessedMessage) :
  Forall (fun s => s <> "") (truthyModels ms).
Proof.
  induction ms as [|pm ms IH]; simpl; [constructor|].
  destruct (model (metadata pm)) as [s|]; [|exact IH].
  destruct (nonempty s) eqn:Hs; [|exact IH]. constructor; [|exact IH].
  unfold nonempty in Hs. rewrite negb_true_iff in Hs. now apply String.eqb_neq.
Qed.

(** The fields [processConversation] copies or counts. *)
Lemma processConversation_fields (fuel : nat) (conversation : Conversation)
    (p : ProcessedConversation) :
  processConversation fuel conversation = Some (Ok p) ->
  messageCount p = List.length (messages p)
  /\ created p = newDate (create_time conversation * 1000)%float
  /\ updated p = newDate (update_time conversation * 1000)%float
  /\ hasBranches (pc_metadata p) = match branches p with Some _ => true | None => false end.
Proof.
  unfold processConversation.
  destruct (mapping conversation) as [m|]; [|discriminate].
  destruct (extractMainThread fuel m (current_node conversation)) as [[mainThread|e]|];
    simpl; try discriminate.
  destruct (extractBranches fuel m mainThread) as [[bs|e]|]; simpl; try discriminate.
  intros [= <-]. simpl. repeat split. now destruct bs.
Qed.

(** X4.  A conversation [processConversation] returns keeps the id of its
    source, has a title that is not empty, a [messageCount] and a
    [totalMessages] that are the length of its main thread, user and
    assistant counts that do not exceed it, a [branches] field that is
    present exactly when [hasBranches] holds and then is not empty, and a
    list of models without repetition and without empty name. *)
Theorem processConversation_shape (fuel : nat) (conversation : Conversation)
    (p : ProcessedConversation) :
  processConversation fuel conversation = Some (Ok p) ->
  pc_id p = conv_id conversation
  /\ pc_title p <> ""
  /\ messageCount p = List.length (messages p)
  /\ totalMessages (pc_metadata p) = List.length (messages p)
  /\ userMessages (pc_metadata p) + assistantMessages (pc_metadata p)
     <= List.length (messages p)
  /\ (hasBranches (pc_metadata p) = true <-> branches p <> None)
  /\ branches p <> Some []
  /\ NoDup (models (pc_metadata p))
  /\ Forall (fun s => s <> "") (models (pc_metadata p)).
Proof.
  unfold processConversation.
  destruct (mapping conversation) as [m|]; [|discriminate].
  destruct (extractMainThread fuel m (current_node conversation)) as [[mainThread|e]|] eqn:Hmain;
    simpl; try discriminate.
  destruct (extractBranches fuel m mainThread) as [[bs|e]|]; simpl; try discriminate.
  intros [= <-]. simpl.
  split; [reflexivity|]. split.
  { destruct (title conversation) as [t|]; [|discriminate].
    destruct (nonempty t) eqn:Ht; [|discriminate].
    unfold nonempty in Ht. rewrite negb_true_iff in Ht. now apply String.eqb_neq. }
  split; [reflexivity|]. split; [reflexivity|]. split.
  { apply count_disjoint. intros pm Hu. apply String.eqb_eq in Hu. now rewrite Hu. }
  split; [destruct bs; simpl; split; congruence|].
  split; [now destruct bs|].
  split; [apply distinct_NoDup|].
  apply Forall_forall. intros s Hs. apply distinct_NoDup in Hs. destruct Hs as [Hs _].
  pose proof (truthyModels_nonempty mainThread) as Hall.
  rewrite Forall_forall in Hall. now apply Hall.
Qed.

(** The scenario with its metadata: one message, no branch. *)
Lemma processConversation_shape_witness :
  exists p,
    processConversation 3 (scenarioConversation (Some {| model_slug := Some "gpt-4";
                                                         citations := None |})) = Some (Ok p)
    /\ pc_title p <> "" /\ messageCount p = List.length (messages p)
    /\ branches p <> Some [].
Proof.
  eexists. split; [reflexivity|].
  pose proof (processConversation_shape 3
                (scenarioConversation (Some {| model_slug := Some "gpt-4"; citations := None |}))
                _ eq_refl) as H.
  repeat split; apply H.
Defined.

(** ** Statistics of a processed export *)

Lemma mapPartial_successes (fuel : nat) (cs : list (option Conversation))
    (rs : list (option ProcessedConversation)) :
  mapPartial (tryProcess fuel) cs = Some (Ok rs) -> notNull rs = successes fuel cs.
Proof.
  revert rs. induction cs as [|c rest IH]; intros rs; simpl.
  - now intros [= <-].
  - unfold tryProcess at 1.
    destruct (processElement fuel c) as [[p|e]|] eqn:Hc; simpl; try discriminate.
    + destruct (mapPartial (tryProcess fuel) rest) as [[ys|e']|]; simpl; try discriminate.
      intros [= <-]. simpl. now rewrite (IH ys eq_refl).
    + destruct c as [c|]; simpl; [|discriminate].
      destruct (mapPartial (tryProcess fuel) rest) as [[ys|e']|]; simpl; try discriminate.
      intros [= <-]. simpl. now rewrite (IH ys eq_refl).
Qed.

Lemma processConversations_successes (fuel : nat) (chatGPTExport : ChatGPTExport)
    (cs : list ProcessedConversation) :
  processConversations fuel chatGPTExport = Some (Ok cs) ->
  cs = successes fuel (conversations chatGPTExport).
Proof.
  unfold processConversations.
  destruct (mapPartial (tryProcess fuel) (conversations chatGPTExport)) as [[rs|e]|] eqn:Hrs;
    simpl; try discriminate.
  intros [= <-]. now apply mapPartial_successes.
Qed.

Lemma successes_origin (fuel : nat) (cs : list (option Conversation))
    (p : ProcessedConversation) :
  In p (successes fuel cs) ->
  exists c, In (Some c) cs /\ processConversation fuel c = Some (Ok p).
Proof.
  unfold successes. rewrite in_flat_map. intros ([c|] & Hc & Hp); simpl in Hp; [|contradiction].
  exists c. split; [exact Hc|].
  destruct (processConversation fuel c) as [[q|e]|]; simpl in Hp; try contradiction.
  destruct Hp as [<-|[]]. reflexivity.
Qed.

Lemma successes_length (fuel : nat) (cs : list (option Conversation)) :
  List.length (successes fuel cs) <= List.length cs.
Proof.
  induction cs as [|c rest IH]; simpl; [lia|].
  rewrite length_app. destruct (processElement fuel c) as [[q|e]|]; simpl; lia.
Qed.

Lemma sum_messageCount (cs : list ProcessedConversation) (start : nat) :
  Forall (fun c => messageCount c = List.length (messages c)) cs ->
  fold_left (fun sum c => sum + messageCount c) cs start
  = start + List.length (flat_map messages cs).
Proof.
  revert start. induction cs as [|c rest IH]; intros start Hall; simpl; [lia|].
  inversion Hall as [|? ? Hc Hrest]; subst. rewrite IH by exact Hrest.
  rewrite length_app, Hc. lia.
Qed.

Lemma count_le {A} (p : A -> bool) (l : list A) : count p l <= List.length l.
Proof. unfold count. apply filter_length_le. Qed.

(** A date as [new Date] on a number gives it: invalid, or with a time
    within the range of dates. *)
Definition Clipped (d : Timestamp) : Prop :=
  d = InvalidDate \/ exists ms, d = DateOfMillis ms /\ (Z.abs ms <= maxTime)%Z.

Lemma dateOfMillis_clipped (ms : Z) : Clipped (dateOfMillis ms).
Proof.
  unfold dateOfMillis. destruct (Z.abs ms <=? maxTime)%Z eqn:H; [|now left].
  right. exists ms. split; [reflexivity|]. now apply Z.leb_le.
Qed.

Lemma newDate_clipped (value : float) : Clipped (newDate value).
Proof.
  unfold newDate. destruct (truncate value); [apply dateOfMillis_clipped | now left].
Qed.

Lemma allNumbers_some (xs : list (option Z)) (l : list Z) :
  allNumbers xs = Some l <-> xs = map Some l.
Proof.
  revert l. induction xs as [|[x|] rest IH]; intros l; simpl.
  - split; [intros [= <-]; reflexivity | now destruct l].
  - destruct (allNumbers rest) as [l'|]; simpl.
    + split.
      * intros [= <-]. simpl. f_equal. now apply IH.
      * destruct l as [|y l]; [discriminate|]. intros [= -> H]. do 2 f_equal.
        apply IH in H. congruence.
    + split; [discriminate|]. destruct l as [|y l]; [discriminate|].
      intros [= -> H]. apply IH in H. discriminate.
  - split; [discriminate|]. now destruct l.
Qed.

Lemma allNumbers_none (xs : list (option Z)) :
  In None xs -> allNumbers xs = None.
Proof.
  induction xs as [|[x|] rest IH]; simpl; [contradiction | | reflexivity].
  intros [H|H]; [discriminate|]. now rewrite IH.
Qed.

Section Extremes.
(** [pick] is [Z.min] with [Z.le], or [Z.max] with [Z.ge]. *)
Variable pick : Z -> Z -> Z.
Variable before : Z -> Z -> Prop.
Hypothesis pick_one : forall a b, pick a b = a \/ pick a b = b.
Hypothesis pick_left : forall a b, before (pick a b) a.
Hypothesis pick_right : forall a b, before (pick a b) b.
Hypothesis before_trans : forall a b c, before a b -> before b c -> before a c.

Lemma fold_pick (xs : list Z) :
  forall x, In (fold_left pick xs x) (x :: xs)
            /\ forall y, In y (x :: xs) -> before (fold_left pick xs x) y.
Proof.
  induction xs as [|z rest IH]; intros x; simpl.
  - split; [now left|]. intros y [<-|[]].
    assert (H : pick x x = x) by (now destruct (pick_one x x)).
    rewrite <- H at 1. apply pick_left.
  - destruct (IH (pick x z)) as [Hin Hle]. split.
    + destruct Hin as [Heq|Hin]; [|now right; right].
      rewrite <- Heq. destruct (pick_one x z) as [->| ->]; [now left | right; now left].
    + intros y Hy.
      assert (Hm : before (fold_left pick rest (pick x z)) (pick x z)) by (apply Hle; now left).
      destruct Hy as [<-|[<-|Hy]].
      * eapply before_trans; [exact Hm | apply pick_left].
      * eapply before_trans; [exact Hm | apply pick_right].
      * apply Hle. now right.
Qed.

(** [d] is the extreme of the dates [field] gives on [cs]: invalid as soon
    as one of them is, and otherwise the date of one of them that is
    [before] all. *)
Definition Extreme (field : ProcessedConversation -> Timestamp)
    (cs : list ProcessedConversation) (d : Timestamp) : Prop :=
  ((exists p, In p cs /\ field p = InvalidDate) -> d = InvalidDate)
  /\ ((forall p, In p cs -> field p <> InvalidDate) ->
      exists x, d = DateOfMillis x
                /\ (exists p, In p cs /\ field p = DateOfMillis x)
                /\ forall p, In p cs -> exists t, field p = DateOfMillis t /\ before x t).

Lemma extreme_of_clipped (now : Z) (field : ProcessedConversation -> Timestamp)
    (c : ProcessedConversation) (rest : list ProcessedConversation) :
  (forall p, In p (c :: rest) -> Clipped (field p)) ->
  Extreme field (c :: rest)
    (dateOfTime
       match allNumbers (getTime now (field c) :: map (fun c => getTime now (field c)) rest) with
       | Some (y :: ys) => Some (fold_left pick ys y)
       | _ => None
       end).
Proof.
  intros Hclip.
  change (getTime now (field c) :: map (fun c0 => getTime now (field c0)) rest)
    with (map (fun c0 => getTime now (field c0)) (c :: rest)).
  set (cs := c :: rest) in *. split.
  - intros (p & Hp & Hinvalid). rewrite allNumbers_none; [reflexivity|].
    apply in_map_iff. exists p. split; [now rewrite Hinvalid | exact Hp].
  - intros Hvalid.
    assert (Htimes : exists ts, map (fun c0 => getTime now (field c0)) cs = map Some ts
                                /\ map field cs = map DateOfMillis ts
                                /\ Forall (fun t => (Z.abs t <= maxTime)%Z) ts).
    { clearbody cs. induction cs as [|q cs IH]; [exists []; now repeat split|].
      destruct IH as (ts & H1 & H2 & H3);
        [intros p Hp; apply Hclip; now right | intros p Hp; apply Hvalid; now right|].
      destruct (Hclip q (or_introl eq_refl)) as [Hq | (ms & Hq & Hms)];
        [now elim (Hvalid q (or_introl eq_refl))|].
      exists (ms :: ts). simpl. rewrite Hq, H1, H2. repeat split. now constructor. }
    destruct Htimes as (ts & Htimes & Hfields & Hrange).
    rewrite Htimes. rewrite (proj2 (allNumbers_some _ ts) eq_refl).
    destruct ts as [|y ys]; [discriminate|].
    destruct (fold_pick ys y) as [Hin Hbefore].
    set (x := fold_left pick ys y) in *.
    assert (Hx : (Z.abs x <= maxTime)%Z) by (rewrite Forall_forall in Hrange; now apply Hrange).
    exists x. split; [|split].
    + simpl. unfold dateOfMillis. now rewrite (proj2 (Z.leb_le _ _) Hx).
    + assert (Hd : In (DateOfMillis x) (map field cs))
        by (rewrite Hfields; now apply in_map).
      apply in_map_iff in Hd. destruct Hd as (p & Hp & Hin'). now exists p.
    + intros p Hp.
      assert (Hd : In (field p) (map DateOfMillis (y :: ys)))
        by (rewrite <- Hfields; now apply in_map).
      apply in_map_iff in Hd. destruct Hd as (t & Ht & Hin'). exists t.
      split; [now symmetry | now apply Hbefore].
Qed.
End Extremes.

(** X5.  [getExportStats] on the result of [processConversations]: the
    number of conversations is at most that of the export, [totalMessages]
    is the number of messages of all main threads together, the
    conversations with branches are those whose [branches] field is
    present, the conversations with code are at most all, and the date
    range is absent exactly when no conversation was processed.  The
    creation and update dates are those [new Date] makes of 1000 times the
    times of the export (fraction dropped, invalid beyond the range of
    dates); [earliest] is invalid as soon as one creation date is, and
    otherwise the earliest of them; [latest] likewise for the update
    dates. *)
Theorem getExportStats_of_processed (fuel : nat) (now : Z) (chatGPTExport : ChatGPTExport)
    (cs : list ProcessedConversation) :
  processConversations fuel chatGPTExport = Some (Ok cs) ->
  let stats := getExportStats now cs in
  totalConversations stats = List.length cs
  /\ totalConversations stats <= List.length (conversations chatGPTExport)
  /\ stats_totalMessages stats = List.length (flat_map messages cs)
  /\ conversationsWithCode stats <= totalConversations stats
  /\ conversationsWithBranches stats
     = count (fun c => match branches c with Some _ => true | None => false end) cs
  /\ (dateRange stats = None <-> cs = [])
  /\ (forall p, In p cs ->
        exists c, In (Some c) (conversations chatGPTExport)
                  /\ created p = newDate (create_time c * 1000)%float
                  /\ updated p = newDate (update_time c * 1000)%float)
  /\ forall r, dateRange stats = Some r ->
       Extreme Z.le created cs (earliest r) /\ Extreme Z.ge updated cs (latest r).
Proof.
  intros Hrun stats. apply processConversations_successes in Hrun.
  assert (Horigin : forall p, In p cs ->
            exists c, In (Some c) (conversations chatGPTExport)
                      /\ processConversation fuel c = Some (Ok p)).
  { intros p Hp. subst cs. now apply successes_origin. }
  split; [reflexivity|].
  split; [subst cs; apply successes_length|].
  split.
  { unfold stats, getExportStats; cbn [stats_totalMessages].
    rewrite sum_messageCount; [reflexivity|].
    apply Forall_forall. intros p Hp. destruct (Horigin p Hp) as (c & _ & Hc).
    now apply processConversation_fields in Hc. }
  split; [apply count_le|].
  split.
  { unfold stats, getExportStats; cbn [conversationsWithBranches]. unfold count. f_equal.
    apply filter_ext_in. intros p Hp. destruct (Horigin p Hp) as (c & _ & Hc).
    now apply processConversation_fields in Hc. }
  split; [unfold stats, getExportStats; destruct cs; simpl; split; congruence|].
  assert (Hdates : forall p, In p cs ->
            exists c, In (Some c) (conversations chatGPTExport)
                      /\ created p = newDate (create_time c * 1000)%float
                      /\ updated p = newDate (update_time c * 1000)%float).
  { intros p Hp. destruct (Horigin p Hp) as (c & Hc & Hrun').
    apply processConversation_fields in Hrun'. exists c. tauto. }
  split; [exact Hdates|].
  intros r Hr. unfold stats, getExportStats in Hr. cbn [dateRange] in Hr.
  destruct cs as [|c rest]; [discriminate|]. injection Hr as <-. cbn [earliest latest].
  split.
  - apply (extreme_of_clipped Z.min Z.le); try (intros; lia).
    intros p Hp. destruct (Hdates p Hp) as (c0 & _ & -> & _). apply newDate_clipped.
  - apply (extreme_of_clipped Z.max Z.ge); try (intros; lia).
    intros p Hp. destruct (Hdates p Hp) as (c0 & _ & _ & ->). apply newDate_clipped.
Qed.

(** The export of four conversations of which two are processed. *)
Lemma getExportStats_of_processed_witness :
  exists cs,
    processConversations 4 mixedExport = Some (Ok cs)
    /\ totalConversations (getExportStats 0 cs) = 2
    /\ stats_totalMessages (getExportStats 0 cs) = List.length (flat_map messages cs).
Proof.
  eexists. split; [reflexivity|].
  pose proof (getExportStats_of_processed 4 0 mixedExport _ eq_refl) as H.
  split; [reflexivity|]. apply H.
Defined.

(** ** The batch and its exceptions *)




(** *** More fuel changes no result *)









(** *** The handler *)








(** ** A tree whose message has no metadata *)

Definition bareRoot : MessageNode :=
  {| id := "root"; message := None; parent := None; children := Some ["n1"] |}.

Definition bareMessage : Message :=
  {| msg_id := "n1"; author := {| role := "user" |};
     msg_create_time := Some 0%float;
     content := Some (JObj [("content_type", JStr "text");
                            ("parts", JArr [JStr "Hello"])]);
     msg_metadata := None |}.

Definition bareLeaf : MessageNode :=
  {| id := "n1"; message := Some bareMessage; parent := Some "root"; children := Some [] |}.

(** The mapping of the scenario as the specification writes it. *)
Definition bareMapping : Mapping := [("root", bareRoot); ("n1", bareLeaf)].

Definition bareRank (k : string) : nat := if String.eqb k "n1" then 1 else 0.

Lemma bareMapping_is_tree : Tree bareMapping bareRoot.
Proof.
  constructor.
  - intros k n H. simpl in H.
    repeat (destruct H as [H|H]; [injection H as <- <-; reflexivity|]). contradiction.
  - simpl. tauto.
  - reflexivity.
  - intros n H Hp. simpl in H.
    repeat (destruct H as [<-|H]; [first [reflexivity | discriminate]|]). contradiction.
  - intros n c Hn Hc. simpl in Hn.
    repeat (destruct Hn as [<-|Hn];
            [simpl in Hc;
             repeat (destruct Hc as [<-|Hc]; [eexists; split; reflexivity|]);
             contradiction|]).
    contradiction.
  - intros n p Hn Hp. simpl in Hn.
    repeat (destruct Hn as [<-|Hn];
            [first [discriminate Hp
                   | injection Hp as <-; eexists; split; [reflexivity | simpl; tauto]]|]).
    contradiction.
  - apply (Ancestor_by_rank bareMapping bareRank).
    intros a d (n & Hlook & Hpar). unfold bareMapping in Hlook. cbn [lookup] in Hlook.
    split_lookup Hlook;
      try discriminate; injection Hlook as <-; simpl in Hpar; subst;
      first [discriminate | injection Hpar as <-; unfold bareRank; simpl; lia].
Qed.

(** C2 (fails as stated).  The mapping of the scenario of the
    specification is a tree: a root without message and one child with a
    user message of text [Hello], which is neither a system message nor
    empty.  The message has no [metadata], so [processMessage] throws on
    [message.metadata.model_slug] and [extractMainThread] throws instead of
    returning the message of the path. *)
Lemma main_thread_needs_metadata :
  mapping (scenarioConversation None) = Some bareMapping
  /\ Tree bareMapping bareRoot
  /\ FirstChildPath bareMapping bareRoot [bareRoot; bareLeaf]
  /\ keptMessages [bareRoot; bareLeaf] = [bareMessage]
  /\ (forall extra,
        extractMainThread (2 + extra) bareMapping (Some "n1")
        = Some (Throw (TypeError
                         "Cannot read properties of undefined (reading 'model_slug')")))
  /\ (forall fuel out, extractMainThread fuel bareMapping (Some "n1") <> Some (Ok out)).
Proof.
  split; [reflexivity|]. split; [exact bareMapping_is_tree|].
  split.
  { eapply path_step; [reflexivity | reflexivity |]. apply path_end. reflexivity. }
  split; [reflexivity|]. split; [reflexivity|].
  intros [|[|fuel]] out; discriminate.
Qed.

(** ** Code blocks *)

(** [p] holds of every character of [s]. *)
Fixpoint every (p : ascii -> bool) (s : string) : bool :=
  match s with
  | EmptyString => true
  | String c s' => p c && every p s'
  end.

Definition notBacktick (c : ascii) : bool := negb (Ascii.eqb c "`").

Lemma length_append (s1 s2 : string) :
  String.length (s1 ++ s2) = String.length s1 + String.length s2.
Proof. induction s1 as [|c s1 IH]; simpl; [reflexivity | now rewrite IH]. Qed.

Lemma append_assoc (s1 s2 s3 : string) : ((s1 ++ s2) ++ s3 = s1 ++ (s2 ++ s3))%string.
Proof. induction s1 as [|c s1 IH]; simpl; [reflexivity | now rewrite IH]. Qed.

Lemma prefix_cons (a b : ascii) (s1 s2 : string) :
  String.prefix (String a s1) (String b s2)
  = if ascii_dec a b then String.prefix s1 s2 else false.
Proof. reflexivity. Qed.

Lemma prefix_fence (s : string) :
  String.prefix fence s = true -> s = (fence ++ dropChars 3 s)%string.
Proof.
  unfold fence.
  destruct s as [|a [|b [|c r]]]; try discriminate; rewrite !prefix_cons;
    destruct (ascii_dec "`" a) as [<-|]; try discriminate;
    try (destruct (ascii_dec "`" b) as [<-|]; try discriminate);
    try (destruct (ascii_dec "`" c) as [<-|]; try discriminate).
  reflexivity.
Qed.

Lemma prefix_fence_head (c : ascii) (s : string) :
  notBacktick c = true -> String.prefix fence (String c s) = false.
Proof.
  unfold notBacktick, fence. rewrite prefix_cons. intros Hc.
  destruct (ascii_dec "`" c) as [<-|]; [discriminate | reflexivity].
Qed.

Lemma prefix_fence_app (post : string) : String.prefix fence (fence ++ post) = true.
Proof.
  unfold fence. cbn [append]. rewrite !prefix_cons.
  destruct (ascii_dec "`" "`") as [_|H]; [|now elim H]. now destruct post.
Qed.

Lemma takeWord_spec (s w r : string) :
  takeWord s = (w, r) -> s = (w ++ r)%string /\ every isWordChar w = true.
Proof.
  revert w r. induction s as [|c s IH]; intros w r; simpl.
  - intros [= <- <-]. now split.
  - destruct (isWordChar c) eqn:Hc.
    + destruct (takeWord s) as [w' r'] eqn:Hs. intros [= <- <-].
      destruct (IH w' r' eq_refl) as [-> Hw]. simpl. now rewrite Hc.
    + intros [= <- <-]. now split.
Qed.

Lemma takeWord_word (w r : string) :
  every isWordChar w = true ->
  takeWord (w ++ String "010" r) = (w, String "010"%char r).
Proof.
  induction w as [|c w IH]; simpl; [reflexivity|].
  intros H. apply andb_prop in H. destruct H as [-> Hw]. now rewrite IH.
Qed.

Lemma beforeFence_eq (s : string) :
  beforeFence s
  = if String.prefix fence s then Some EmptyString
    else match s with
         | EmptyString => None
         | String c s' => match beforeFence s' with
                          | Some b => Some (String c b)
                          | None => None
                          end
         end.
Proof. destruct s; reflexivity. Qed.

Lemma beforeFence_spec (s c : string) :
  beforeFence s = Some c -> exists rest, s = (c ++ fence ++ rest)%string.
Proof.
  revert c. induction s as [|a s IH]; intros c; rewrite beforeFence_eq.
  - simpl. discriminate.
  - destruct (String.prefix fence (String a s)) eqn:Hp.
    + intros [= <-]. exists (dropChars 3 (String a s)). now apply prefix_fence.
    + destruct (beforeFence s) as [b|]; [|discriminate]. intros [= <-].
      destruct (IH b eq_refl) as (rest & ->). now exists rest.
Qed.

Lemma beforeFence_body (body post : string) :
  every notBacktick body = true ->
  beforeFence (body ++ fence ++ post) = Some body.
Proof.
  induction body as [|c body IH]; intros H.
  - rewrite beforeFence_eq. cbn [append]. now rewrite prefix_fence_app.
  - simpl in H. apply andb_prop in H. destruct H as [Hc Hbody].
    rewrite beforeFence_eq. change ((String c body ++ fence ++ post)%string)
      with (String c (body ++ fence ++ post)).
    rewrite (prefix_fence_head _ _ Hc). now rewrite IH.
Qed.

Lemma matchAt_length (s : string) (b : CodeBlock) (len : nat) :
  matchAt s = Some (b, len) -> 7 <= len <= String.length s.
Proof.
  unfold matchAt. destruct (String.prefix fence s) eqn:Hp; [|discriminate].
  apply prefix_fence in Hp.
  destruct (takeWord (dropChars 3 s)) as [w r] eqn:Hw.
  apply takeWord_spec in Hw. destruct Hw as [Hw _].
  destruct r as [|nl body]; [discriminate|].
  destruct (Ascii.ascii_dec nl "010") as [->|Hnl].
  - destruct (beforeFence body) as [c|] eqn:Hc; [|discriminate].
    intros [= <- <-]. apply beforeFence_spec in Hc. destruct Hc as (rest & ->).
    rewrite Hp, Hw. rewrite !length_append. simpl. rewrite !length_append. simpl. lia.
  - destruct nl as [[] [] [] [] [] [] [] []]; try discriminate. now elim Hnl.
Qed.

Lemma scanBlocks_length (s : string) :
  forall skip, 7 * List.length (scanBlocks skip s) <= String.length s - skip.
Proof.
  induction s as [|a s IH]; intros skip; [simpl; lia|].
  destruct skip as [|k].
  - cbn [scanBlocks]. destruct (matchAt (String a s)) as [[b len]|] eqn:Hm.
    + apply matchAt_length in Hm. simpl in Hm. specialize (IH (len - 1)).
      simpl. lia.
    + specialize (IH 0). simpl. lia.
  - specialize (IH k). simpl. lia.
Qed.

Lemma trimEnd_idempotent (s : string) : trimEnd (trimEnd s) = trimEnd s.
Proof.
  induction s as [|c s IH]; simpl; [reflexivity|].
  destruct (isSpace c && (trimEnd s =? "")%string) eqn:Hc; [reflexivity|].
  simpl. now rewrite IH, Hc.
Qed.

Lemma trimStart_head (s : string) :
  trimStart s = EmptyString
  \/ exists c r, trimStart s = String c r /\ isSpace c = false.
Proof.
  induction s as [|c s IH]; simpl; [now left|].
  destruct (isSpace c) eqn:Hc; [exact IH|]. right. now exists c, s.
Qed.

Lemma trim_idempotent (s : string) : trim (trim s) = trim s.
Proof.
  unfold trim. destruct (trimStart_head s) as [-> | (c & r & -> & Hc)]; [reflexivity|].
  simpl. rewrite Hc. simpl. rewrite Hc. simpl. rewrite Hc. simpl.
  now rewrite trimEnd_idempotent.
Qed.

(** What every extracted block satisfies. *)
Definition WellFormedBlock (b : CodeBlock) : Prop :=
  language b <> "" /\ every isWordChar (language b) = true /\ trim (code b) = code b.

Lemma matchAt_block (s : string) (b : CodeBlock) (len : nat) :
  matchAt s = Some (b, len) -> WellFormedBlock b.
Proof.
  unfold matchAt. destruct (String.prefix fence s); [|discriminate].
  destruct (takeWord (dropChars 3 s)) as [w r] eqn:Hw.
  apply takeWord_spec in Hw. destruct Hw as [_ Hw].
  destruct r as [|nl body]; [discriminate|].
  destruct nl as [[] [] [] [] [] [] [] []]; try discriminate.
  destruct (beforeFence body) as [c|]; [|discriminate].
  intros [= <- _]. unfold WellFormedBlock. simpl. split; [|split].
  - destruct (nonempty w) eqn:Hne; [|discriminate].
    unfold nonempty in Hne. rewrite negb_true_iff in Hne. now apply String.eqb_neq.
  - now destruct (nonempty w).
  - apply trim_idempotent.
Qed.

Lemma scanBlocks_blocks (s : string) :
  forall skip, Forall WellFormedBlock (scanBlocks skip s).
Proof.
  induction s as [|a s IH]; intros skip; [constructor|].
  destruct skip as [|k]; cbn [scanBlocks]; [|apply IH].
  destruct (matchAt (String a s)) as [[b len]|] eqn:Hm; [|apply IH].
  constructor; [now apply matchAt_block in Hm | apply IH].
Qed.

(** X6.  Every block [extractCodeBlocks] returns has a language that is a
    non-empty word and a code without white space at either end; the
    matches do not overlap and take seven characters at least, so a text
    of [n] characters has at most [n / 7] blocks. *)
Theorem extractCodeBlocks_blocks (content : string) :
  Forall WellFormedBlock (extractCodeBlocks content)
  /\ 7 * List.length (extractCodeBlocks content) <= String.length content.
Proof.
  unfold extractCodeBlocks. split; [apply scanBlocks_blocks|].
  pose proof (scanBlocks_length content 0). lia.
Qed.

Lemma scanBlocks_before (pre rest : string) :
  every notBacktick pre = true ->
  scanBlocks 0 (pre ++ rest) = scanBlocks 0 rest.
Proof.
  induction pre as [|c pre IH]; intros H; [reflexivity|].
  simpl in H. apply andb_prop in H. destruct H as [Hc Hpre].
  change ((String c pre ++ rest)%string) with (String c (pre ++ rest)).
  cbn [scanBlocks]. unfold matchAt. rewrite (prefix_fence_head _ _ Hc). now apply IH.
Qed.

Lemma scanBlocks_skip (x post : string) :
  scanBlocks (String.length x) (x ++ post) = scanBlocks 0 post.
Proof. induction x as [|c x IH]; simpl; [now destruct post | exact IH]. Qed.

Lemma matchAt_fenced (lang body post : string) :
  every isWordChar lang = true ->
  every notBacktick body = true ->
  matchAt (fence ++ lang ++ newline ++ body ++ fence ++ post)
  = Some ({| language := if nonempty lang then lang else "plaintext"; code := trim body |},
          3 + String.length lang + 1 + String.length body + 3).
Proof.
  intros Hlang Hbody. unfold matchAt. rewrite prefix_fence_app.
  change (dropChars 3 (fence ++ lang ++ newline ++ body ++ fence ++ post))
    with (lang ++ String "010" (body ++ fence ++ post))%string.
  rewrite (takeWord_word lang _ Hlang). now rewrite (beforeFence_body body post Hbody).
Qed.

Lemma scanBlocks_match (s x post : string) (b : CodeBlock) :
  matchAt s = Some (b, String.length x) -> s = (x ++ post)%string ->
  scanBlocks 0 s = b :: scanBlocks 0 post.
Proof.
  intros Hm Hs. pose proof (matchAt_length _ _ _ Hm) as Hlen.
  destruct x as [|a x]; [simpl in Hlen; lia|]. subst s.
  change ((String a x ++ post)%string) with (String a (x ++ post)) in *.
  cbn [scanBlocks]. rewrite Hm. f_equal.
  change (String.length (String a x) - 1) with (S (String.length x) - 1).
  replace (S (String.length x) - 1) with (String.length x) by lia.
  apply scanBlocks_skip.
Qed.

(** X7.  A fenced block is read back: in a text made of a prefix without
    backtick, a fence, a language word, a line break, a body without
    backtick, a closing fence and any rest, the first block extracted has
    that language ([plaintext] when the word is empty) and the trimmed
    body, and the following blocks are those of the rest. *)
Theorem extractCodeBlocks_fenced (pre lang body post : string) :
  every notBacktick pre = true ->
  every isWordChar lang = true ->
  every notBacktick body = true ->
  extractCodeBlocks (pre ++ fence ++ lang ++ newline ++ body ++ fence ++ post)
  = {| language := if nonempty lang then lang else "plaintext"; code := trim body |}
      :: extractCodeBlocks post.
Proof.
  intros Hpre Hlang Hbody. unfold extractCodeBlocks.
  rewrite (scanBlocks_before _ _ Hpre).
  apply (scanBlocks_match _ (fence ++ lang ++ newline ++ body ++ fence) post).
  - rewrite (matchAt_fenced lang body post Hlang Hbody). do 2 f_equal.
    rewrite !length_append. unfold fence, newline. simpl. lia.
  - now rewrite !append_assoc.
Qed.

Lemma extractCodeBlocks_fenced_witness :
  extractCodeBlocks ("Run: " ++ fence ++ "sh" ++ newline ++ " ls -l " ++ fence ++ " then stop")
  = [{| language := "sh"; code := "ls -l" |}].
Proof.
  now rewrite (extractCodeBlocks_fenced "Run: " "sh" " ls -l " " then stop" eq_refl eq_refl eq_refl).
Defined.

(** ** Validation and parsing of one document *)

(** The conversations array of a document, when it has one. *)
Definition conversationsOf (data : json) : option (list json) :=
  match data with
  | JArr items => Some items
  | JObj fields =>
      match get "conversations" fields with
      | Some (JArr items) => Some items
      | _ => None
      end
  | _ => None
  end.

(** The check of the first conversation, as [validateChatGPTExport] makes it. *)
Definition firstIsConversation (firstConv : json) : bool :=
  match firstConv with
  | JObj fields =>
      match get "id" fields, get "mapping" fields with
      | Some idv, Some mappingv => truthy idv && Utils.isObject mappingv
      | _, _ => false
      end
  | _ => false
  end.

Lemma parseExport_document (data : json) :
  parseExport (Document data)
  = if Utils.isObject data
    then match conversationsOf data with
         | Some items => Ok items
         | None => Throw (Error "No conversations array found in export")
         end
    else Throw (Error "Invalid JSON structure").
Proof.
  destruct data as [|b|z|s|items|fields]; try reflexivity.
  unfold parseExport, conversationsOf. simpl.
  now destruct (get "conversations" fields) as [[|b|z|s|items|fs]|].
Qed.

Lemma validate_first (firstConv : json) (rest : list json) (data : json) :
  Utils.isObject data = true -> conversationsOf data = Some (firstConv :: rest) ->
  Utils.validateChatGPTExport data
  = match firstConv with
    | JNull => Throw (TypeError "Cannot read properties of null (reading 'id')")
    | _ => if firstIsConversation firstConv
           then Ok {| Utils.valid := true; Utils.error := None |}
           else Ok (Utils.invalid "Invalid conversation structure")
    end.
Proof.
  intros Hobj Hconv.
  assert (Hinner :
    match firstConv with
    | JNull => Throw (TypeError "Cannot read properties of null (reading 'id')")
    | JObj fields =>
        let hasId := match get "id" fields with
                     | Some v => truthy v
                     | None => false
                     end in
        let hasMapping := match get "mapping" fields with
                          | Some v => truthy v && Utils.isObject v
                          | None => false
                          end in
        if negb hasId || negb hasMapping
        then Ok (Utils.invalid "Invalid conversation structure")
        else Ok {| Utils.valid := true; Utils.error := None |}
    | _ => Ok (Utils.invalid "Invalid conversation structure")
    end
    = match firstConv with
      | JNull => Throw (TypeError "Cannot read properties of null (reading 'id')")
      | _ => if firstIsConversation firstConv
             then Ok {| Utils.valid := true; Utils.error := None |}
             else Ok (Utils.invalid "Invalid conversation structure")
      end).
  { destruct firstConv as [|b|z|s|items|fields]; try reflexivity. simpl.
    destruct (get "id" fields) as [idv|]; [|reflexivity].
    destruct (get "mapping" fields) as [mv|]; [|now rewrite orb_true_r].
    destruct (truthy idv); [|reflexivity].
    destruct mv as [|b|z|s|items|fs]; simpl; try reflexivity;
      now rewrite ?andb_false_r. }
  rewrite <- Hinner. clear Hinner.
  destruct data as [|b|z|s|items|fields]; try discriminate.
  - simpl in Hconv. injection Hconv as ->. reflexivity.
  - simpl in Hconv. unfold Utils.validateChatGPTExport. simpl.
    destruct (get "conversations" fields) as [[|b|z|s|items|fs]|]; try discriminate.
    injection Hconv as ->. reflexivity.
Qed.

Lemma validate_document (data : json) :
  Utils.validateChatGPTExport data
  = if Utils.isObject data
    then match conversationsOf data with
         | Some (firstConv :: _) =>
             match firstConv with
             | JNull => Throw (TypeError "Cannot read properties of null (reading 'id')")
             | _ => if firstIsConversation firstConv
                    then Ok {| Utils.valid := true; Utils.error := None |}
                    else Ok (Utils.invalid "Invalid conversation structure")
             end
         | Some [] => Ok (Utils.invalid "Export contains no conversations")
         | None => Ok (Utils.invalid "No conversations array found in export")
         end
    else Ok (Utils.invalid "Invalid JSON structure").
Proof.
  destruct (Utils.isObject data) eqn:Hobj.
  - destruct (conversationsOf data) as [[|firstConv rest]|] eqn:Hconv.
    + destruct data as [|b|z|s|items|fields]; try discriminate.
      * simpl in Hconv. now injection Hconv as ->.
      * simpl in Hconv. unfold Utils.validateChatGPTExport. simpl.
        destruct (get "conversations" fields) as [[|b|z|s|items|fs]|]; try discriminate.
        now injection Hconv as ->.
    + now apply validate_first with (rest := rest).
    + destruct data as [|b|z|s|items|fields]; try discriminate.
      simpl in Hconv. unfold Utils.validateChatGPTExport. simpl.
      now destruct (get "conversations" fields) as [[|b|z|s|items|fs]|].
  - unfold Utils.validateChatGPTExport. rewrite Hobj. simpl. now rewrite orb_true_r.
Qed.

(** X8.  On one parsed document, [validateChatGPTExport] and [parseExport]
    agree: when the validation passes, [parseExport] returns a list of
    conversations that is not empty and starts with an object whose [id]
    is truthy and whose [mapping] is an object; [parseExport] throws
    exactly when the validation reports one of its first two errors, with
    the same message; and the validation itself throws only on a list
    [parseExport] accepts, one that starts with [null]. *)
Theorem validation_agrees_with_parseExport (data : json) :
  (forall v, Utils.validateChatGPTExport data = Ok v -> Utils.valid v = true ->
     exists fields rest idv mappingv,
       parseExport (Document data) = Ok (JObj fields :: rest)
       /\ get "id" fields = Some idv /\ truthy idv = true
       /\ get "mapping" fields = Some mappingv /\ Utils.isObject mappingv = true)
  /\ (forall e, parseExport (Document data) = Throw e <->
        exists msg, e = Error msg
                    /\ Utils.validateChatGPTExport data = Ok (Utils.invalid msg)
                    /\ (msg = "Invalid JSON structure"
                        \/ msg = "No conversations array found in export"))
  /\ (forall e, Utils.validateChatGPTExport data = Throw e ->
        exists rest, parseExport (Document data) = Ok (JNull :: rest)).
Proof.
  rewrite validate_document, parseExport_document.
  destruct (Utils.isObject data).
  2:{ split; [intros v [= <-]; discriminate|]. split; [|discriminate].
      intros e. split.
      - intros [= <-]. eexists. split; [reflexivity|]. split; [reflexivity | now left].
      - intros (msg & -> & [= <-] & _). reflexivity. }
  destruct (conversationsOf data) as [[|firstConv rest]|].
  - split; [intros v [= <-]; discriminate|]. split; [|discriminate].
    intros e. split; [discriminate|].
    intros (msg & -> & [= <-] & [H|H]); discriminate.
  - split; [|split].
    + intros v Hv Hvalid.
      destruct firstConv as [|b|z|s|items|fields]; try discriminate;
        try (simpl in Hv; injection Hv as <-; discriminate).
      destruct (firstIsConversation (JObj fields)) eqn:Hfirst;
        [|injection Hv as <-; discriminate].
      simpl in Hfirst.
      destruct (get "id" fields) as [idv|] eqn:Eid; [|discriminate].
      destruct (get "mapping" fields) as [mv|] eqn:Em; [|discriminate].
      apply andb_prop in Hfirst. destruct Hfirst as [Hid Hm].
      exists fields, rest, idv, mv. repeat split; try assumption; reflexivity.
    + intros e. split; [discriminate|].
      intros (msg & -> & Hv & [-> | ->]);
        destruct firstConv as [|b|z|s|items|fields]; try discriminate;
        destruct (firstIsConversation _) in Hv; discriminate.
    + intros e He. destruct firstConv as [|b|z|s|items|fields];
        try (destruct (firstIsConversation _) in He; discriminate).
      now exists rest.
  - split; [intros v [= <-]; discriminate|]. split; [|discriminate].
    intros e. split.
    + intros [= <-]. eexists. split; [reflexivity|]. split; [reflexivity | now right].
    + intros (msg & -> & [= <-] & _). reflexivity.
Qed.

(** ** No message twice *)

(** Every message is stored in the node that has its id, as in the exports
    of ChatGPT. *)
Definition IdsAgree (m : Mapping) : Prop :=
  forall n msg, In n (values m) -> message n = Some msg -> msg_id msg = id n.

Lemma processNode_id (m : Mapping) (n : MessageNode) (pm : ProcessedMessage) :
  IdsAgree m -> In n (values m) -> processNode n = Ok (Some pm) -> pm_id pm = id n.
Proof.
  intros Hids Hn. unfold processNode.
  destruct (message n) as [msg|] eqn:Hmsg; [|discriminate].
  intros Hpm. apply processMessage_presentable in Hpm. destruct Hpm as [_ ->].
  now apply Hids.
Qed.

Lemma NoDup_snoc {A} (l : list A) (x : A) : NoDup l -> ~ In x l -> NoDup (l ++ [x]).
Proof.
  induction l as [|y l IH]; intros Hnd Hx; simpl.
  - constructor; [intros [] | constructor].
  - inversion Hnd as [|? ? Hy Hl]; subst. constructor.
    + rewrite in_app_iff. intros [H | [-> | []]]; [contradiction|]. apply Hx. now left.
    + apply IH; [assumption|]. intros H. apply Hx. now right.
Qed.

(** The ids collected so far are ids of visited nodes, none twice and none
    among [ids]. *)
Definition Collected (ids visited : list string) (acc : list ProcessedMessage) : Prop :=
  incl (map pm_id acc) visited
  /\ NoDup (map pm_id acc)
  /\ forall x, In x (map pm_id acc) -> ~ In x ids.

Lemma Collected_push (m : Mapping) (ids visited : list string) (n : MessageNode)
    (pm : option ProcessedMessage) (acc : list ProcessedMessage) :
  IdsAgree m -> In n (values m) ->
  includes ids (id n) = false -> includes visited (id n) = false ->
  processNode n = Ok pm ->
  Collected ids visited acc -> Collected ids (id n :: visited) (pushMaybe acc pm).
Proof.
  intros Hids Hn Hmain Hseen Hpm (Hincl & Hnd & Hout).
  apply includes_false in Hmain. apply includes_false in Hseen.
  destruct pm as [pm|]; simpl.
  - pose proof (processNode_id m n pm Hids Hn Hpm) as Hid.
    unfold Collected. rewrite map_app. simpl. rewrite Hid. split; [|split].
    + intros x Hx. apply in_app_iff in Hx. destruct Hx as [Hx | [<- | []]];
        [right; now apply Hincl | now left].
    + apply NoDup_snoc; [assumption|]. intros H. apply Hseen. now apply Hincl.
    + intros x Hx. apply in_app_iff in Hx. destruct Hx as [Hx | [<- | []]];
        [now apply Hout | assumption].
  - split; [|split; assumption]. intros x Hx. right. now apply Hincl.
Qed.

Lemma mainLoop_distinct (m : Mapping) (fuel : nat) :
  IdsAgree m ->
  forall visited node acc out,
    (forall n, node = Some n -> In n (values m)) ->
    Collected [] visited acc ->
    mainLoop fuel m visited node acc = Some (Ok out) ->
    NoDup (map pm_id out).
Proof.
  intros Hids. induction fuel as [|fuel IH]; intros visited node acc out Hnode Hacc; simpl;
    [discriminate|].
  destruct node as [n|]; [|intros [= <-]; apply Hacc].
  destruct (includes visited (id n)) eqn:Hseen; [intros [= <-]; apply Hacc|].
  destruct (processNode n) as [pm|e] eqn:Hpm; [|discriminate].
  pose proof (Collected_push m [] visited n pm acc Hids (Hnode n eq_refl) eq_refl Hseen Hpm Hacc)
    as Hacc'.
  destruct (firstChild n) as [c|].
  - apply IH; [|assumption]. intros n' Hn'. now apply lookup_values in Hn'.
  - intros [= <-]. apply Hacc'.
Qed.

Lemma branchLoop_distinct (m : Mapping) (ids : list string) (fuel : nat) :
  IdsAgree m ->
  forall visited node acc out,
    (forall n, node = Some n -> In n (values m)) ->
    Collected ids visited acc ->
    branchLoop fuel m ids visited node acc = Some (Ok out) ->
    NoDup (map pm_id out) /\ forall x, In x (map pm_id out) -> ~ In x ids.
Proof.
  intros Hids. induction fuel as [|fuel IH]; intros visited node acc out Hnode Hacc; simpl;
    [discriminate|].
  destruct node as [n|]; [|intros [= <-]; split; apply Hacc].
  destruct (includes ids (id n)) eqn:Hmain; [intros [= <-]; split; apply Hacc|].
  destruct (includes visited (id n)) eqn:Hseen; [intros [= <-]; split; apply Hacc|].
  destruct (processNode n) as [pm|e] eqn:Hpm; [|discriminate].
  pose proof (Collected_push m ids visited n pm acc Hids (Hnode n eq_refl) Hmain Hseen Hpm Hacc)
    as Hacc'.
  destruct (firstChild n) as [c|].
  - apply IH; [|assumption]. intros n' Hn'. now apply lookup_values in Hn'.
  - intros [= <-]. split; apply Hacc'.
Qed.

(** X17.  When every message is stored in the node that has its id, no
    message is taken twice: the ids of the main thread are pairwise
    distinct, and so are those of each branch, none of which is the id of
    a message of the main thread. *)
Theorem no_message_twice (fuel : nat) (m : Mapping) (currentNode : option string)
    (mainThread : list ProcessedMessage) (bs : list ProcessedBranch) :
  IdsAgree m ->
  extractMainThread fuel m currentNode = Some (Ok mainThread) ->
  extractBranches fuel m mainThread = Some (Ok bs) ->
  NoDup (map pm_id mainThread)
  /\ Forall (fun b =>
               NoDup (map pm_id (branch_messages b))
               /\ forall pm, In pm (branch_messages b) ->
                             ~ In (pm_id pm) (map pm_id mainThread)) bs.
Proof.
  intros Hids Hmain Hbs. split.
  - unfold extractMainThread in Hmain.
    destruct (findStart fuel m currentNode) as [node|] eqn:Hstart; [|discriminate].
    apply (mainLoop_distinct m fuel Hids [] node [] mainThread); [| |exact Hmain].
    + now apply (findStart_in_mapping m currentNode fuel).
    + repeat split; [intros x [] | constructor | intros x []].
  - apply extractBranches_spec in Hbs. subst bs.
    apply Forall_forall. intros b Hb. apply nodeBranches_origin in Hb.
    destruct Hb as (node & _ & _ & _ & Hthread & _).
    unfold extractBranchThread in Hthread.
    apply (branchLoop_distinct m _ fuel Hids) in Hthread.
    + destruct Hthread as [Hnd Hout]. split; [exact Hnd|].
      intros pm Hpm. apply Hout. now apply in_map.
    + intros n Hn. now apply lookup_values in Hn.
    + repeat split; [intros x [] | constructor | intros x []].
Qed.

Lemma threeMapping_ids_agree : IdsAgree threeMapping.
Proof.
  intros n msg Hn Hmsg. simpl in Hn.
  destruct Hn as [<- | [<- | [<- | [<- | []]]]]; simpl in Hmsg; try discriminate;
    injection Hmsg as <-; reflexivity.
Qed.

(** The root with three children: main thread and branch share no id. *)
Lemma no_message_twice_witness :
  NoDup (map pm_id threeMain)
  /\ Forall (fun b => NoDup (map pm_id (branch_messages b))
                      /\ forall pm, In pm (branch_messages b) ->
                                    ~ In (pm_id pm) (map pm_id threeMain)) threeResult.
Proof.
  exact (no_message_twice 5 threeMapping None threeMain threeResult
           threeMapping_ids_agree eq_refl eq_refl).
Defined.

End ParserFacts.

(** * Properties of the scraper *)

Module ScraperFacts.
Import Scraper.

(** ** Dates *)

Example toISOString_epoch : toISOString 0 = "1970-01-01T00:00:00.000Z".
Proof. reflexivity. Qed.

Example toISOString_2023 : toISOString 1700000000000 = "2023-11-14T22:13:20.000Z".
Proof. reflexivity. Qed.

Example toISOString_leap : toISOString 951782400123 = "2000-02-29T00:00:00.123Z".
Proof. reflexivity. Qed.

Example toISOString_before_epoch : toISOString (-1) = "1969-12-31T23:59:59.999Z".
Proof. reflexivity. Qed.


(** ** Retry with backoff *)

Local Open Scope async_scope.

Section Retry.
Context {P : Type} {B : Browser P}.

(** The world once [retryOperation] is about to call the operation. *)
Definition invoked (operationName : string) (w : World P) : World P :=
  mkWorld (page w) (storage w) (progress w) (draws w) (ticks w)
    (events w ++ [Invoked operationName]).

(** The delay of the specification before the retry that follows attempt
    [k]: [min(minDelay * backoffMultiplier^k, maxDelay)] plus a jitter
    [r * jitterRange], with [r] the value of [Math.random()]. *)
Definition backoffDelay (config : ScraperConfig) (k : nat) (r : Q) : Q :=
  (Qmin (minDelay config * Qpower (backoffMultiplier config) (Z.of_nat k)) (maxDelay config)
   + r * jitterRange config)%Q.

(** The world after that delay: one random value drawn, one sleep. *)
Definition backedOff (config : ScraperConfig) (k : nat) (w : World P) : World P :=
  mkWorld (page w) (storage w) (progress w) (S (draws w)) (ticks w)
    (events w ++ [Slept (backoffDelay config k (random (draws w)))]).

(** The number of calls of the operation named [name] recorded in a trace. *)
Fixpoint invocations (name : string) (evs : list Event) : nat :=
  match evs with
  | [] => 0
  | Invoked n :: rest => (if String.eqb n name then 1 else 0) + invocations name rest
  | _ :: rest => invocations name rest
  end.

Lemma invocations_app (name : string) (l1 l2 : list Event) :
  invocations name (l1 ++ l2) = invocations name l1 + invocations name l2.
Proof.
  induction l1 as [|[n|ms|l] l1 IH]; simpl; try assumption; [reflexivity|].
  rewrite IH. lia.
Qed.

Lemma invocations_invoked (name : string) (w : World P) :
  invocations name (events (invoked name w)) = S (invocations name (events w)).
Proof.
  unfold invoked. simpl. rewrite invocations_app. simpl.
  rewrite String.eqb_refl. lia.
Qed.

Lemma invocations_backedOff (name : string) (config : ScraperConfig) (k : nat) (w : World P) :
  invocations name (events (backedOff config k w)) = invocations name (events w).
Proof.
  unfold backedOff. simpl. rewrite invocations_app. simpl. lia.
Qed.

(** One failed attempt that is not the last: the operation is called, then
    the delay is slept, then the loop goes on. *)
Lemma retryLoop_failed_attempt {T} (operation : M T) (name : string)
    (config : ScraperConfig) (remaining attempt : nat) (lastError : option string)
    (w w' : World P) (e : exn) :
  operation (invoked name w) = (Throw e, w') ->
  (attempt <? maxRetries config - 1) = true ->
  retryLoop operation name config (S remaining) attempt lastError w
  = retryLoop operation name config remaining (S attempt) (Some (message_of e))
      (backedOff config attempt w').
Proof.
  intros Hop Hlt. simpl. unfold bind at 1, emit. fold (invoked name w).
  unfold tryCatch. rewrite Hop, Hlt. reflexivity.
Qed.

(** The last attempt, failed: no delay follows it. *)
Lemma retryLoop_last_attempt {T} (operation : M T) (name : string)
    (config : ScraperConfig) (remaining attempt : nat) (lastError : option string)
    (w w' : World P) (e : exn) :
  operation (invoked name w) = (Throw e, w') ->
  (attempt <? maxRetries config - 1) = false ->
  retryLoop operation name config (S remaining) attempt lastError w
  = retryLoop operation name config remaining (S attempt) (Some (message_of e)) w'.
Proof.
  intros Hop Hlt. simpl. unfold bind at 1, emit. fold (invoked name w).
  unfold tryCatch. rewrite Hop, Hlt. reflexivity.
Qed.

Lemma retryLoop_success {T} (operation : M T) (name : string)
    (config : ScraperConfig) (remaining attempt : nat) (lastError : option string)
    (w w' : World P) (v : T) :
  operation (invoked name w) = (Ok v, w') ->
  retryLoop operation name config (S remaining) attempt lastError w = (Ok v, w').
Proof.
  intros Hop. simpl. unfold bind at 1, emit. fold (invoked name w).
  unfold tryCatch. now rewrite Hop.
Qed.

(** C5.  With [maxRetries = 3]: when the operation fails at its first two
    calls and succeeds at the third, [retryOperation] returns that
    success, in the world the third call left; when it fails three times,
    [retryOperation] throws in the world the third call left, so nothing
    is slept after it.  Between consecutive calls, and only there, one
    delay [min(minDelay * backoffMultiplier^k, maxDelay) + r * jitterRange]
    is slept.  The operation is called exactly three times: a trace that
    the operation does not itself extend with calls gains three of them. *)
Theorem retry_three_attempts {T} (operation : M T) (name : string)
    (config : ScraperConfig) (w0 : World P) :
  maxRetries config = 3 ->
  forall e1 w1 e2 w2,
    operation (invoked name w0) = (Throw e1, w1) ->
    operation (invoked name (backedOff config 0 w1)) = (Throw e2, w2) ->
    (forall v w3,
        operation (invoked name (backedOff config 1 w2)) = (Ok v, w3) ->
        retryOperation operation name config w0 = (Ok v, w3))
    /\ (forall e3 w3,
        operation (invoked name (backedOff config 1 w2)) = (Throw e3, w3) ->
        retryOperation operation name config w0
        = (Throw (Error (name ++ " failed after 3 attempts: " ++ message_of e3)%string), w3))
    /\ (forall r w3,
        operation (invoked name (backedOff config 1 w2)) = (r, w3) ->
        (forall w, invocations name (events (snd (operation w)))
                   = invocations name (events w)) ->
        invocations name (events (snd (retryOperation operation name config w0)))
        = invocations name (events w0) + 3).
Proof.
  intros Hmax e1 w1 e2 w2 H1 H2.
  assert (Hrun : retryOperation operation name config w0
                 = retryLoop operation name config 1 2 (Some (message_of e2))
                     (backedOff config 1 w2)).
  { unfold retryOperation. rewrite Hmax.
    rewrite (retryLoop_failed_attempt _ _ _ _ _ _ _ _ _ H1) by now rewrite Hmax.
    now rewrite (retryLoop_failed_attempt _ _ _ _ _ _ _ _ _ H2) by now rewrite Hmax. }
  assert (Hok : forall v w3,
             operation (invoked name (backedOff config 1 w2)) = (Ok v, w3) ->
             retryOperation operation name config w0 = (Ok v, w3)).
  { intros v w3 H3. rewrite Hrun. now apply retryLoop_success. }
  assert (Hfail : forall e3 w3,
             operation (invoked name (backedOff config 1 w2)) = (Throw e3, w3) ->
             retryOperation operation name config w0
             = (Throw (Error (name ++ " failed after 3 attempts: " ++ message_of e3)%string),
                w3)).
  { intros e3 w3 H3. rewrite Hrun.
    rewrite (retryLoop_last_attempt _ _ _ _ _ _ _ _ _ H3) by now rewrite Hmax.
    simpl. now rewrite Hmax. }
  split; [exact Hok|]. split; [exact Hfail|].
  intros r w3 H3 Hquiet.
  assert (Hw3 : invocations name (events w3) = invocations name (events w0) + 3).
  { pose proof (Hquiet (invoked name (backedOff config 1 w2))) as Q3.
    pose proof (Hquiet (invoked name (backedOff config 0 w1))) as Q2.
    pose proof (Hquiet (invoked name w0)) as Q1.
    rewrite H3 in Q3. rewrite H2 in Q2. rewrite H1 in Q1. cbn [snd] in Q1, Q2, Q3.
    rewrite invocations_invoked, invocations_backedOff in Q2, Q3.
    rewrite invocations_invoked in Q1. lia. }
  destruct r as [v|e3].
  - now rewrite (Hok v w3 H3).
  - now rewrite (Hfail e3 w3 H3).
Qed.
End Retry.

(** A browser whose page state counts the calls made to it; every random
    value is one half and the clock ticks by one. *)
Definition countingBrowser : Browser nat :=
  {| random := fun _ => (1 # 2)%Q;
     clock := fun k => Z.of_nat k;
     base36 := fun _ => "4fzzzxjyl";
     waitForSelector := fun _ _ _ n => (Ok true, S n);
     goto := fun _ _ n => (Ok tt, S n);
     evaluateScroll := fun _ n => (Ok tt, S n);
     evaluateLinks := fun _ n => (Ok [], S n);
     evaluateConversation := fun link _ n =>
       (Ok {| conv_id := id link; conv_title := title link; conv_url := url link;
              messages := []; createdAt := None; updatedAt := None |}, S n) |}.

Definition emptyProgress : ScrapeProgress :=
  {| sessionId := "scrape-0-4fzzzxjyl"; totalConversations := 0; scrapedConversations := [];
     scrapedIds := []; failedConversations := []; currentIndex := 0;
     progress_timestamp := 0; isComplete := false |}.

Definition startWorld {P} (p : P) (s : LocalStorage) : World P :=
  mkWorld p s emptyProgress 0 0 [].

(** An operation that fails until it has been called [failures] times. *)
Definition flaky (failures : nat) : M (P := nat) string :=
  fun w =>
    let w' := mkWorld (S (page w)) (storage w) (progress w) (draws w) (ticks w) (events w) in
    if page w <? failures then (Throw (Error "net::ERR_TIMED_OUT"), w') else (Ok "done"%string, w').

(** An operation that fails twice and then succeeds, under the default
    configuration: three calls, and delays of 1750 ms and 2500 ms between
    them. *)
Lemma retry_three_attempts_witness :
  maxRetries DEFAULT_SCRAPER_CONFIG = 3
  /\ exists w3,
       retryOperation (B := countingBrowser) (flaky 2) "fetch" DEFAULT_SCRAPER_CONFIG
         (startWorld 0 Unavailable) = (Ok "done"%string, w3)
       /\ page w3 = 3
       /\ events w3 = [Invoked "fetch";
                       Slept (backoffDelay DEFAULT_SCRAPER_CONFIG 0 (1 # 2));
                       Invoked "fetch";
                       Slept (backoffDelay DEFAULT_SCRAPER_CONFIG 1 (1 # 2));
                       Invoked "fetch"]
       /\ (backoffDelay DEFAULT_SCRAPER_CONFIG 0 (1 # 2) == 1750)%Q
       /\ (backoffDelay DEFAULT_SCRAPER_CONFIG 1 (1 # 2) == 2500)%Q.
Proof.
  split; [reflexivity|].
  eexists. split.
  - eapply (proj1 (retry_three_attempts (B := countingBrowser) (flaky 2) "fetch"
                     DEFAULT_SCRAPER_CONFIG (startWorld 0 Unavailable) eq_refl
                     _ _ _ _ eq_refl eq_refl)).
    reflexivity.
  - repeat split.
Defined.

(** The same operation failing at every call: three calls, two delays, and
    the exception of [retryOperation]. *)
Example retry_always_failing :
  let '(r, w) := retryOperation (B := countingBrowser) (flaky 10) "fetch"
                   DEFAULT_SCRAPER_CONFIG (startWorld 0 Unavailable) in
  r = Throw (Error "fetch failed after 3 attempts: net::ERR_TIMED_OUT")
  /\ page w = 3
  /\ map (fun ev => match ev with Slept _ => true | _ => false end) (events w)
     = [false; true; false; true; false].
Proof. vm_compute. repeat split. Qed.

(** ** Rate limiting *)

Section RateLimit.
Context {P : Type} {B : Browser P}.

(** [1 + 0.5 * index / 100] *)
Definition progressFactor (index : Z) : Q := (1 + (1 # 2) * inject_Z index / 100)%Q.

(** The delay as the specification writes it, the jitter added after the
    progress factor is applied. *)
Definition claimedDelay (config : ScraperConfig) (index : Z) (jitter : Q) : Q :=
  Qmin (minDelay config * progressFactor index + jitter) (maxDelay config).

(** C6 (amended).  [smartDelay] draws one random value [r] and sleeps
    once, for [min((minDelay + r * jitterRange) * (1 + 0.5 * index / 100),
    maxDelay)]: the jitter is added to the minimum delay before the
    progress factor is applied, so the factor scales the jitter too; the
    delay never exceeds [maxDelay]. *)
Theorem smartDelay_scales_jitter (index : Z) (config : ScraperConfig) (w : World P) :
  exists d,
    smartDelay index config w
    = (Ok tt, mkWorld (page w) (storage w) (progress w) (S (draws w)) (ticks w)
                (events w ++ [Slept d]))
    /\ (d == Qmin ((minDelay config + random (draws w) * jitterRange config)
                   * progressFactor index)
                  (maxDelay config))%Q
    /\ (d == Qmin (minDelay config * progressFactor index
                   + random (draws w) * jitterRange config * progressFactor index)
                  (maxDelay config))%Q
    /\ (d <= maxDelay config)%Q.
Proof.
  exists (Qmin ((minDelay config + random (draws w) * jitterRange config)
                * (1 + inject_Z index / 100 * (1 # 2))) (maxDelay config))%Q.
  split; [reflexivity|]. split; [|split].
  - apply Q.min_compat; [|reflexivity]. unfold progressFactor. field.
  - apply Q.min_compat; [|reflexivity]. unfold progressFactor. field.
  - apply Q.le_min_r.
Qed.
End RateLimit.

(** A browser whose random values are all nine tenths. *)
Definition nineTenthsBrowser : Browser nat :=
  {| random := fun _ => (9 # 10)%Q;
     clock := clock (Browser := countingBrowser);
     base36 := base36 (Browser := countingBrowser);
     waitForSelector := waitForSelector (Browser := countingBrowser);
     goto := goto (Browser := countingBrowser);
     evaluateScroll := evaluateScroll (Browser := countingBrowser);
     evaluateLinks := evaluateLinks (Browser := countingBrowser);
     evaluateConversation := evaluateConversation (Browser := countingBrowser) |}.

(** C6 (fails as stated).  With the default configuration, at index 100 and
    a random value of nine tenths, [smartDelay] sleeps 2925 ms.  The formula
    of the specification gives 2700 ms for the jitter drawn (450 ms), and at
    most 2750 ms for any jitter within [jitterRange]. *)
Lemma smartDelay_exceeds_claim :
  exists d,
    events (snd (smartDelay (B := nineTenthsBrowser) 100 DEFAULT_SCRAPER_CONFIG
                   (startWorld 0 Unavailable))) = [Slept d]
    /\ (d == 2925)%Q
    /\ (claimedDelay DEFAULT_SCRAPER_CONFIG 100 ((9 # 10) * 500) == 2700)%Q
    /\ forall jitter, (0 <= jitter)%Q -> (jitter <= jitterRange DEFAULT_SCRAPER_CONFIG)%Q ->
                      ~ (d == claimedDelay DEFAULT_SCRAPER_CONFIG 100 jitter)%Q.
Proof.
  eexists. split; [reflexivity|]. split; [reflexivity|]. split; [reflexivity|].
  intros jitter _ Hj Heq.
  assert (Hle : (claimedDelay DEFAULT_SCRAPER_CONFIG 100 jitter <= 2750)%Q).
  { unfold claimedDelay. eapply Qle_trans; [apply Q.le_min_l|].
    assert (Hf : (progressFactor 100 == 3 # 2)%Q) by reflexivity.
    change (minDelay DEFAULT_SCRAPER_CONFIG) with 1500%Q.
    change (jitterRange DEFAULT_SCRAPER_CONFIG) with 500%Q in Hj.
    revert Hf. generalize (progressFactor 100). intros f Hf. lra. }
  rewrite <- Heq in Hle. revert Hle. vm_compute. intros H. now apply H.
Qed.

(** ** Persisted progress *)

Arguments toISOString : simpl never.

(** What a date field holds after a trip through JSON: the ISO string of
    the [Date] it held, or the string it already was. *)
Definition textOfDate (d : DateValue) : DateValue :=
  match d with
  | DateObject ms => DateText (toISOString ms)
  | DateText s => DateText s
  end.

Definition storedMessage (m : ScrapedMessage) : ScrapedMessage :=
  {| role := role m; content := content m;
     timestamp := option_map textOfDate (timestamp m);
     codeBlocks := codeBlocks m |}.

Definition storedConversation (c : ScrapedConversation) : ScrapedConversation :=
  {| conv_id := conv_id c; conv_title := conv_title c; conv_url := conv_url c;
     messages := map storedMessage (messages c);
     createdAt := option_map textOfDate (createdAt c);
     updatedAt := option_map textOfDate (updatedAt c) |}.

(** The progress as it is read back: every [Date] replaced by its ISO
    string, everything else as it was. *)
Definition storedProgress (p : ScrapeProgress) : ScrapeProgress :=
  {| sessionId := sessionId p;
     totalConversations := totalConversations p;
     scrapedConversations := map storedConversation (scrapedConversations p);
     scrapedIds := scrapedIds p;
     failedConversations := failedConversations p;
     currentIndex := currentIndex p;
     progress_timestamp := progress_timestamp p;
     isComplete := isComplete p |}.

(** The same progress with its date fields emptied. *)
Definition withoutDates (p : ScrapeProgress) : ScrapeProgress :=
  {| sessionId := sessionId p;
     totalConversations := totalConversations p;
     scrapedConversations :=
       map (fun c => {| conv_id := conv_id c; conv_title := conv_title c;
                        conv_url := conv_url c;
                        messages := map (fun m => {| role := role m; content := content m;
                                                     timestamp := None;
                                                     codeBlocks := codeBlocks m |})
                                        (messages c);
                        createdAt := None; updatedAt := None |})
           (scrapedConversations p);
     scrapedIds := scrapedIds p;
     failedConversations := failedConversations p;
     currentIndex := currentIndex p;
     progress_timestamp := progress_timestamp p;
     isComplete := isComplete p |}.

Definition isText (o : option DateValue) : Prop :=
  match o with
  | Some (DateObject _) => False
  | _ => True
  end.

(** No field of the progress holds a [Date] object. *)
Definition holdsNoDate (p : ScrapeProgress) : Prop :=
  Forall (fun c => isText (createdAt c) /\ isText (updatedAt c)
                   /\ Forall (fun m => isText (timestamp m)) (messages c))
         (scrapedConversations p).

Lemma all_of_json_map {A} (enc : A -> json) (dec : json -> option A) (f : A -> A)
    (l : list A) :
  (forall x, dec (enc x) = Some (f x)) ->
  all_of_json dec (map enc l) = Some (map f l).
Proof.
  intros H. induction l as [|x l IH]; simpl; [reflexivity|]. now rewrite H, IH.
Qed.

Lemma map_id_on {A} (f : A -> A) (l : list A) :
  Forall (fun x => f x = x) l -> map f l = l.
Proof.
  induction 1 as [|x l Hx _ IH]; simpl; [reflexivity|]. now rewrite Hx, IH.
Qed.

Lemma codeBlock_round_trip (b : ScrapedCodeBlock) :
  codeBlock_of_json (codeBlock_to_json b) = Some b.
Proof. now destruct b. Qed.

Lemma date_round_trip (d : DateValue) :
  date_of_json (date_to_json d) = Some (textOfDate d).
Proof. now destruct d. Qed.

Lemma message_round_trip (m : ScrapedMessage) :
  message_of_json (message_to_json m) = Some (storedMessage m).
Proof.
  destruct m as [r c t bs]. unfold message_to_json, message_of_json, storedMessage.
  cbn [role content timestamp codeBlocks].
  destruct t as [d|], bs as [l|]; cbn [optField app option_map];
    unfold field, fieldOpt; cbn [get String.eqb Ascii.eqb Bool.eqb string_of_json];
    rewrite ?date_round_trip; cbn [array_of_json];
    rewrite ?(all_of_json_map codeBlock_to_json codeBlock_of_json (fun b => b) l
                codeBlock_round_trip), ?map_id; reflexivity.
Qed.

Lemma conversation_round_trip (c : ScrapedConversation) :
  conversation_of_json (conversation_to_json c) = Some (storedConversation c).
Proof.
  destruct c as [i t u ms cr up].
  unfold conversation_to_json, conversation_of_json, storedConversation.
  cbn [conv_id conv_title conv_url messages createdAt updatedAt].
  destruct cr as [d1|], up as [d2|]; cbn [optField app option_map];
    unfold field, fieldOpt; cbn [get String.eqb Ascii.eqb Bool.eqb string_of_json];
    rewrite ?date_round_trip; cbn [array_of_json];
    rewrite (all_of_json_map message_to_json message_of_json storedMessage ms
               message_round_trip); reflexivity.
Qed.

Lemma failed_round_trip (f : FailedConversation) :
  failed_of_json (failed_to_json f) = Some f.
Proof. now destruct f. Qed.

Lemma progress_json_round_trip (p : ScrapeProgress) :
  progress_of_json (JSON_stringify p) = Some (storedProgress p).
Proof.
  destruct p as [sid total convs ids failed cur ts done].
  unfold JSON_stringify, progress_of_json, storedProgress.
  cbn [sessionId totalConversations scrapedConversations scrapedIds failedConversations
       currentIndex progress_timestamp isComplete].
  unfold field; cbn [get String.eqb Ascii.eqb Bool.eqb string_of_json num_of_json
                     bool_of_json array_of_json].
  rewrite (all_of_json_map conversation_to_json conversation_of_json storedConversation convs
             conversation_round_trip).
  rewrite (all_of_json_map JStr string_of_json (fun s => s) ids (fun s => eq_refl)).
  rewrite (all_of_json_map failed_to_json failed_of_json (fun f => f) failed failed_round_trip).
  now rewrite !map_id.
Qed.

Lemma storedProgress_without_dates (p : ScrapeProgress) :
  withoutDates (storedProgress p) = withoutDates p.
Proof.
  unfold withoutDates, storedProgress. simpl. f_equal.
  rewrite map_map. apply map_ext. intros c. simpl. f_equal.
  rewrite map_map. now apply map_ext.
Qed.

Lemma storedProgress_no_date (p : ScrapeProgress) :
  holdsNoDate p -> storedProgress p = p.
Proof.
  destruct p as [sid total convs ids failed cur ts done]. unfold holdsNoDate, storedProgress.
  simpl. intros H. f_equal. apply map_id_on.
  eapply Forall_impl; [|exact H]. intros [i t u ms cr up]. simpl.
  intros (Hcr & Hup & Hms). unfold storedConversation. simpl. f_equal.
  - apply map_id_on. eapply Forall_impl; [|exact Hms].
    intros [r c0 tsm bs]. simpl. unfold storedMessage. simpl.
    destruct tsm as [[ms'|s]|]; simpl; [contradiction | reflexivity | reflexivity].
  - destruct cr as [[ms'|s]|]; simpl; [contradiction | reflexivity | reflexivity].
  - destruct up as [[ms'|s]|]; simpl; [contradiction | reflexivity | reflexivity].
Qed.

Lemma map_fixed {A} (f : A -> A) (l : list A) :
  map f l = l -> Forall (fun x => f x = x) l.
Proof.
  induction l as [|x l IH]; simpl; [constructor|].
  intros [= Hx Hl]. constructor; [exact Hx | now apply IH].
Qed.

Lemma textOfDate_fixed (o : option DateValue) :
  option_map textOfDate o = o -> isText o.
Proof. destruct o as [[ms|s]|]; simpl; [discriminate | trivial | trivial]. Qed.

Lemma storedProgress_fixed (p : ScrapeProgress) :
  storedProgress p = p -> holdsNoDate p.
Proof.
  destruct p as [sid total convs ids failed cur ts done]. unfold holdsNoDate, storedProgress.
  simpl. intros [= H]. apply map_fixed in H.
  eapply Forall_impl; [|exact H]. intros [i t u ms cr up]. unfold storedConversation. simpl.
  intros [= Hms Hcr Hup]. split; [now apply textOfDate_fixed|].
  split; [now apply textOfDate_fixed|].
  apply map_fixed in Hms. eapply Forall_impl; [|exact Hms].
  intros [r c0 tsm bs]. unfold storedMessage. simpl. intros [= Ht].
  now apply textOfDate_fixed.
Qed.

Section RoundTrip.
Context {P : Type} {B : Browser P}.

(** C7 (amended).  With a local storage that accepts the write,
    [saveProgress] followed by [loadProgress] yields the progress with
    every [Date] (message [timestamp], [createdAt], [updatedAt]) replaced
    by its ISO string: all other fields are equal to the original, and
    the whole is equal to the original exactly when it holds no [Date]
    object. *)
Theorem progress_round_trip (p : ScrapeProgress) (w : World P) (accepts : json -> bool)
    (saved : option ScrapeProgress) :
  storage w = Available accepts saved ->
  accepts (JSON_stringify p) = true ->
  (saveProgress p ;; loadProgress) w
  = (Ok (Some (storedProgress p)),
     mkWorld (page w) (Available accepts (Some p)) (progress w)
       (draws w) (ticks w) (events w))
  /\ getItem (Available accepts (Some p)) = Some (JSON_stringify p)
  /\ withoutDates (storedProgress p) = withoutDates p
  /\ (holdsNoDate p <-> storedProgress p = p).
Proof.
  intros Hs Haccepts. split; [|split; [reflexivity|split; [|split]]].
  - unfold bind, saveProgress, loadProgress, bind, getStorage, tryCatch, setStorage, ret.
    rewrite Hs, Haccepts. cbn [storage getItem]. now rewrite progress_json_round_trip.
  - apply storedProgress_without_dates.
  - apply storedProgress_no_date.
  - apply storedProgress_fixed.
Qed.
End RoundTrip.

Definition datedProgress : ScrapeProgress :=
  {| sessionId := "scrape-1700000000000-4fzzzxjyl";
     totalConversations := 1;
     scrapedConversations :=
       [{| conv_id := "6a1f"; conv_title := "Trip plan";
           conv_url := "https://chat.openai.com/c/6a1f";
           messages := [{| role := "user"; content := "Where to?";
                           timestamp := Some (DateObject 1700000000000);
                           codeBlocks := None |}];
           createdAt := None;
           updatedAt := Some (DateObject 1700000000000) |}];
     scrapedIds := ["6a1f"];
     failedConversations := [];
     currentIndex := 1;
     progress_timestamp := 1700000000000;
     isComplete := false |}.

(** C7 (fails as stated).  A progress whose conversation carries [Date]
    objects, as the scraper builds them, is read back with strings in their
    place, so the result differs from the original; and without a local
    storage nothing is read back at all. *)
Lemma round_trip_loses_dates :
  (exists q,
      fst ((saveProgress (P := nat) datedProgress ;; loadProgress)
             (startWorld 0 (Available (fun _ => true) None))) = Ok (Some q)
      /\ q <> datedProgress
      /\ map updatedAt (scrapedConversations q)
         = [Some (DateText "2023-11-14T22:13:20.000Z")])
  /\ fst ((saveProgress (P := nat) datedProgress ;; loadProgress)
            (startWorld 0 Unavailable)) = Ok None.
Proof.
  split; [|reflexivity].
  eexists. split; [reflexivity|]. split; [discriminate | reflexivity].
Qed.

(** A progress whose dates are strings already is read back as it was
    saved. *)
Lemma progress_round_trip_witness :
  fst ((saveProgress (P := nat) (storedProgress datedProgress) ;; loadProgress)
         (startWorld 0 (Available (fun _ => true) None)))
  = Ok (Some (storedProgress datedProgress)).
Proof.
  destruct (progress_round_trip (P := nat) (storedProgress datedProgress)
              (startWorld 0 (Available (fun _ => true) None)) (fun _ => true) None
              eq_refl eq_refl) as (Hrun & _ & _ & Hsame).
  rewrite Hrun. cbn [fst]. rewrite (proj1 Hsame); [reflexivity|].
  repeat constructor.
Defined.

(** ** Resuming a session *)

(** The links handed to [scrapeConversation] by the loop of
    [enhancedScrape], in order. *)
Fixpoint attempts (evs : list Event) : list ConversationLink :=
  match evs with
  | [] => []
  | Attempted link :: rest => link :: attempts rest
  | _ :: rest => attempts rest
  end.

Lemma attempts_app (l1 l2 : list Event) : attempts (l1 ++ l2) = attempts l1 ++ attempts l2.
Proof.
  induction l1 as [|[n|ms|l] l1 IH]; simpl; try assumption; [reflexivity|]. now rewrite IH.
Qed.

Section Resume.
Context {P : Type} {B : Browser P}.

(** A computation that starts no attempt. *)
Definition Calm {A} (c : M (P := P) A) : Prop :=
  forall w, attempts (events (snd (c w))) = attempts (events w).

(** A computation that starts no attempt and leaves the progress object
    alone. *)
Definition Quiet {A} (c : M (P := P) A) : Prop :=
  forall w, progress (snd (c w)) = progress w
            /\ attempts (events (snd (c w))) = attempts (events w).

Lemma Quiet_Calm {A} (c : M A) : Quiet c -> Calm c.
Proof. intros H w. apply H. Qed.

Lemma Quiet_bind {A C} (c : M A) (k : A -> M C) :
  Quiet c -> (forall a, Quiet (k a)) -> Quiet (bind c k).
Proof.
  intros Hc Hk w. unfold bind. specialize (Hc w).
  destruct (c w) as [[a|e] w']; simpl in *; [|exact Hc].
  destruct (Hk a w') as [H1 H2]. destruct Hc as [H3 H4]. split; congruence.
Qed.

Lemma Quiet_tryCatch {A} (c : M A) (h : exn -> M A) :
  Quiet c -> (forall e, Quiet (h e)) -> Quiet (tryCatch c h).
Proof.
  intros Hc Hh w. unfold tryCatch. specialize (Hc w).
  destruct (c w) as [[a|e] w']; simpl in *; [exact Hc|].
  destruct (Hh e w') as [H1 H2]. destruct Hc as [H3 H4]. split; congruence.
Qed.

Lemma Calm_bind {A C} (c : M A) (k : A -> M C) :
  Calm c -> (forall a, Calm (k a)) -> Calm (bind c k).
Proof.
  intros Hc Hk w. unfold bind. specialize (Hc w).
  destruct (c w) as [[a|e] w']; simpl in *; [|exact Hc].
  rewrite (Hk a w'). exact Hc.
Qed.

Lemma Calm_tryCatch {A} (c : M A) (h : exn -> M A) :
  Calm c -> (forall e, Calm (h e)) -> Calm (tryCatch c h).
Proof.
  intros Hc Hh w. unfold tryCatch. specialize (Hc w).
  destruct (c w) as [[a|e] w']; simpl in *; [exact Hc|].
  rewrite (Hh e w'). exact Hc.
Qed.

Lemma Quiet_ret {A} (a : A) : Quiet (ret a).
Proof. now intros w. Qed.

Lemma Quiet_throw {A} (e : exn) : Quiet (throw (A := A) e).
Proof. now intros w. Qed.

Lemma Quiet_invoked (name : string) : Quiet (emit (Invoked name)).
Proof. intros w. simpl. rewrite attempts_app. simpl. now rewrite app_nil_r. Qed.

Lemma Quiet_sleep (ms : Q) : Quiet (sleep ms).
Proof. intros w. simpl. rewrite attempts_app. simpl. now rewrite app_nil_r. Qed.

Lemma Quiet_random : Quiet Math_random.
Proof. now intros w. Qed.

Lemma Quiet_now : Quiet Date_now.
Proof. now intros w. Qed.

Lemma Quiet_onPage {A} (op : P -> result A * P) : Quiet (onPage op).
Proof. intros w. unfold onPage. now destruct (op (page w)). Qed.

Lemma Quiet_getStorage : Quiet getStorage.
Proof. now intros w. Qed.

Lemma Quiet_setStorage (s : LocalStorage) : Quiet (setStorage s).
Proof. now intros w. Qed.

Lemma Quiet_getProgress : Quiet getProgress.
Proof. now intros w. Qed.

Lemma Calm_setProgress (p : ScrapeProgress) : Calm (setProgress p).
Proof. now intros w. Qed.

Lemma Calm_modifyProgress (f : ScrapeProgress -> ScrapeProgress) : Calm (modifyProgress f).
Proof. now intros w. Qed.

Lemma Calm_callOnProgress (cb : option ProgressCallback) : Calm (callOnProgress cb).
Proof.
  intros w. destruct cb as [f|]; simpl; [|reflexivity].
  now destruct (f (progress w) (page w)) as [[r p'] pg].
Qed.

Create HintDb quiet.
#[local] Hint Resolve Quiet_ret Quiet_throw Quiet_invoked Quiet_sleep Quiet_random Quiet_now
  Quiet_onPage Quiet_getStorage Quiet_setStorage Quiet_getProgress : quiet.

Lemma Quiet_saveProgress (p : ScrapeProgress) : Quiet (saveProgress p).
Proof.
  unfold saveProgress. apply Quiet_bind; [auto with quiet|]. intros [|accepts saved]; [auto with quiet|].
  apply Quiet_tryCatch; [|auto with quiet].
  destruct (accepts (JSON_stringify p)); auto with quiet.
Qed.

Lemma Quiet_calculateDelay (attempt : nat) (config : ScraperConfig) :
  Quiet (calculateDelay attempt config).
Proof. unfold calculateDelay. apply Quiet_bind; auto with quiet. Qed.

Lemma Quiet_smartDelay (index : Z) (config : ScraperConfig) : Quiet (smartDelay index config).
Proof. unfold smartDelay. apply Quiet_bind; auto with quiet. Qed.

Lemma Quiet_queryWithFallback (selectors : list string) (t : option Q) (v : option bool) :
  Quiet (queryWithFallback selectors t v).
Proof.
  induction selectors as [|s rest IH]; simpl; [auto with quiet|].
  apply Quiet_bind; [apply Quiet_tryCatch; auto with quiet|]. intros [|]; auto with quiet.
Qed.

Lemma Quiet_retryLoop {T} (operation : M T) (name : string) (config : ScraperConfig) :
  Quiet operation ->
  forall remaining attempt lastError,
    Quiet (retryLoop operation name config remaining attempt lastError).
Proof.
  intros Hop. induction remaining as [|remaining IH]; intros attempt lastError; simpl; [auto with quiet|].
  apply Quiet_bind; [auto with quiet|]. intros _. apply Quiet_tryCatch; [exact Hop|]. intros e.
  apply Quiet_bind; [|intros _; apply IH].
  destruct (attempt <? maxRetries config - 1); [|auto with quiet].
  apply Quiet_bind; [apply Quiet_calculateDelay | auto with quiet].
Qed.

Lemma Quiet_retryOperation {T} (operation : M T) (name : string) (config : ScraperConfig) :
  Quiet operation -> Quiet (retryOperation operation name config).
Proof. intros H. now apply Quiet_retryLoop. Qed.

Lemma Quiet_scrapeConversation (link : ConversationLink) (config : ScraperConfig) :
  Quiet (scrapeConversation link config).
Proof.
  apply Quiet_retryOperation.
  apply Quiet_bind; [auto with quiet|]. intros _. apply Quiet_bind; [auto with quiet|]. intros _.
  apply Quiet_bind; [apply Quiet_queryWithFallback|]. intros [selector|]; [|auto with quiet].
  apply Quiet_bind; [auto with quiet|]. intros conversation.
  destruct (Nat.eqb (List.length (messages conversation)) 0); auto with quiet.
Qed.

Lemma Quiet_enumerate (config : ScraperConfig) : Quiet (enumerate config).
Proof.
  unfold enumerate. apply Quiet_bind.
  - apply Quiet_retryOperation. apply Quiet_bind; [apply Quiet_queryWithFallback|].
    intros [selector|]; auto with quiet.
  - intros _. apply Quiet_retryOperation.
    apply Quiet_bind; [apply Quiet_queryWithFallback|]. intros [selector|]; auto with quiet.
Qed.


(** One turn of the loop: the link is attempted, and whatever comes of it
    the loop goes on with the next index. *)
Lemma scrapeLoop_step (cb : option ProgressCallback) (config : ScraperConfig)
    (count i : nat) (link : ConversationLink) (rest : list ConversationLink) (w : World P) :
  exists w',
    scrapeLoop cb config count i (link :: rest) w = scrapeLoop cb config count (S i) rest w'
    /\ attempts (events w') = attempts (events w) ++ [link].
Proof.
  cbn [scrapeLoop]. unfold bind at 1. unfold getProgress at 1.
  set (globalIndex := (currentIndex (progress w) + Z.of_nat i)%Z).
  unfold bind at 1.
  match goal with
  | |- context [tryCatch ?body ?handler w] =>
      assert (Hturn : exists w', tryCatch body handler w = (Ok tt, w')
                                 /\ attempts (events w') = attempts (events w) ++ [link])
  end.
  { unfold tryCatch. unfold bind at 1. unfold emit at 1.
    set (w1 := mkWorld (page w) (storage w) (progress w) (draws w) (ticks w)
                 (events w ++ [Attempted link])).
    assert (Hw1 : attempts (events w1) = attempts (events w) ++ [link]).
    { unfold w1. simpl. now rewrite attempts_app. }
    match goal with
    | |- context [bind (scrapeConversation link config) ?k w1] =>
        assert (Hbody : Calm (bind (scrapeConversation link config) k));
        [|specialize (Hbody w1);
          destruct (bind (scrapeConversation link config) k w1) as [[[]|e] w2]]
    end.
    - apply Calm_bind; [apply Quiet_Calm, Quiet_scrapeConversation|]. intros conversation.
      apply Calm_bind; [apply Calm_modifyProgress|]. intros _.
      apply Calm_bind.
      { destruct (Nat.eqb ((i + 1) mod saveProgressInterval config) 0);
          [|apply Quiet_Calm; auto with quiet].
        apply Calm_bind; [apply Calm_modifyProgress|]. intros _.
        apply Calm_bind; [apply Quiet_Calm; auto with quiet|]. intros saved.
        apply Quiet_Calm, Quiet_saveProgress. }
      intros _. apply Calm_bind; [apply Calm_callOnProgress|]. intros _.
      destruct (i <? count - 1); apply Quiet_Calm; [apply Quiet_smartDelay | auto with quiet].
    - exists w2. split; [reflexivity|]. simpl in Hbody. now rewrite Hbody.
    - eexists. split; [reflexivity|]. simpl in Hbody. simpl. now rewrite Hbody. }
  destruct Hturn as (w' & -> & Hw'). now exists w'.
Qed.

(** The loop attempts each of its links once, in order, whatever the
    outcome of each attempt, and comes to its end. *)
Lemma scrapeLoop_attempts (cb : option ProgressCallback) (config : ScraperConfig)
    (count : nat) :
  forall links i w,
    fst (scrapeLoop cb config count i links w) = Ok tt
    /\ attempts (events (snd (scrapeLoop cb config count i links w)))
       = attempts (events w) ++ links.
Proof.
  induction links as [|link rest IH]; intros i w.
  - simpl. now rewrite app_nil_r.
  - destruct (scrapeLoop_step cb config count i link rest w) as (w' & -> & Hw').
    destruct (IH (S i) w') as [Hr Ha]. split; [exact Hr|].
    now rewrite Ha, Hw', <- app_assoc.
Qed.

End Resume.

(** *** Two of three conversations already scraped *)

Definition linkA : ConversationLink :=
  {| id := "a1"; title := "Alpha"; url := "https://chat.openai.com/c/a1" |}.
Definition linkB : ConversationLink :=
  {| id := "b2"; title := "Beta"; url := "https://chat.openai.com/c/b2" |}.
Definition linkC : ConversationLink :=
  {| id := "c3"; title := "Gamma"; url := "https://chat.openai.com/c/c3" |}.

Definition scrapedOf (link : ConversationLink) : ScrapedConversation :=
  {| conv_id := id link; conv_title := title link; conv_url := url link;
     messages := [{| role := "user"; content := "Hello"; timestamp := None;
                     codeBlocks := None |}];
     createdAt := None; updatedAt := None |}.

(** A browser whose sidebar lists the three conversations and whose pages
    each show one message. *)
Definition libraryBrowser : Browser nat :=
  {| random := fun _ => (1 # 2)%Q;
     clock := fun k => (1700000000000 + Z.of_nat k)%Z;
     base36 := fun _ => "4fzzzxjyl";
     waitForSelector := fun _ _ _ n => (Ok true, S n);
     goto := fun _ _ n => (Ok tt, S n);
     evaluateScroll := fun _ n => (Ok tt, S n);
     evaluateLinks := fun _ n => (Ok [linkA; linkB; linkC], S n);
     evaluateConversation := fun link _ n => (Ok (scrapedOf link), S n) |}.

(** The progress of an interrupted session: A and B are done. *)
Definition interrupted : ScrapeProgress :=
  {| sessionId := "scrape-1699999990000-9k2m1x0pq";
     totalConversations := 3;
     scrapedConversations := [scrapedOf linkA; scrapedOf linkB];
     scrapedIds := ["a1"; "b2"];
     failedConversations := [];
     currentIndex := 0;
     progress_timestamp := 1699999990000;
     isComplete := false |}.

Definition interruptedWorld : World nat :=
  startWorld 0 (Available (fun _ => true) (Some interrupted)).



(** The resumed session ends complete with the three ids scraped and no
    failure: only C was fetched. *)
Example resumed_session_result :
  match fst (enhancedScrape (B := libraryBrowser) None DEFAULT_SCRAPER_CONFIG
               interruptedWorld) with
  | Ok final => (scrapedIds final, List.length (failedConversations final), isComplete final)
  | Throw _ => ([], 0, false)
  end = (["a1"; "b2"; "c3"], 0, true).
Proof. vm_compute. reflexivity. Qed.

(** A stored progress that is complete is not resumed: a new session
    attempts every enumerated link again. *)
Example complete_progress_starts_over :
  attempts (events (snd (enhancedScrape (B := libraryBrowser) None DEFAULT_SCRAPER_CONFIG
                           (startWorld 0 (Available (fun _ => true)
                              (Some (markComplete interrupted)))))))
  = [linkA; linkB; linkC].
Proof. vm_compute. reflexivity. Qed.

(** ** Retry with any number of attempts *)

Section RetryAny.
Context {P : Type} {B : Browser P}.

(** The exception [retryOperation] throws once the attempts are used up. *)
Definition exhausted (name : string) (config : ScraperConfig) (msg : string) : exn :=
  Error (name ++ " failed after " ++ decimal (Z.of_nat (maxRetries config))
           ++ " attempts: " ++ msg)%string.

(** A value the loop returns is a value the operation returned, in the
    world the operation left; an exception of the loop is its own. *)
Lemma retryLoop_origin {T} (operation : M T) (name : string) (config : ScraperConfig) :
  forall remaining attempt lastError (w : World P),
    match retryLoop operation name config remaining attempt lastError w with
    | (Ok v, w') => exists w1, operation w1 = (Ok v, w')
    | (Throw e, _) => exists msg, e = exhausted name config msg
    end.
Proof.
  induction remaining as [|remaining IH]; intros attempt lastError w.
  - simpl. eexists. reflexivity.
  - destruct (operation (invoked name w)) as [[v|e] w1] eqn:Hop.
    + rewrite (retryLoop_success _ _ _ _ _ _ _ _ _ Hop). now exists (invoked name w).
    + destruct (attempt <? maxRetries config - 1) eqn:Hlt.
      * rewrite (retryLoop_failed_attempt _ _ _ _ _ _ _ _ _ Hop Hlt). apply IH.
      * rewrite (retryLoop_last_attempt _ _ _ _ _ _ _ _ _ Hop Hlt). apply IH.
Qed.

Lemma retryLoop_invocations {T} (operation : M T) (name : string) (config : ScraperConfig) :
  (forall w, invocations name (events (snd (operation w))) = invocations name (events w)) ->
  forall remaining attempt lastError (w : World P),
    match retryLoop operation name config remaining attempt lastError w with
    | (Ok _, w') =>
        invocations name (events w) < invocations name (events w')
        <= invocations name (events w) + remaining
    | (Throw _, w') =>
        invocations name (events w') = invocations name (events w) + remaining
    end.
Proof.
  intros Hquiet. induction remaining as [|remaining IH]; intros attempt lastError w.
  - simpl. lia.
  - pose proof (Hquiet (invoked name w)) as Hcall. rewrite invocations_invoked in Hcall.
    destruct (operation (invoked name w)) as [[v|e] w1] eqn:Hop; cbn [snd] in Hcall.
    + rewrite (retryLoop_success _ _ _ _ _ _ _ _ _ Hop). lia.
    + destruct (attempt <? maxRetries config - 1) eqn:Hlt.
      * rewrite (retryLoop_failed_attempt _ _ _ _ _ _ _ _ _ Hop Hlt).
        specialize (IH (S attempt) (Some (message_of e)) (backedOff config attempt w1)).
        rewrite invocations_backedOff in IH.
        destruct (retryLoop operation name config remaining (S attempt)
                    (Some (message_of e)) (backedOff config attempt w1)) as [[v|e'] w'];
          lia.
      * rewrite (retryLoop_last_attempt _ _ _ _ _ _ _ _ _ Hop Hlt).
        specialize (IH (S attempt) (Some (message_of e)) w1).
        destruct (retryLoop operation name config remaining (S attempt)
                    (Some (message_of e)) w1) as [[v|e'] w']; lia.
Qed.

(** X9.  For any [maxRetries]: a value [retryOperation] returns is one the
    operation returned, in the world that call left, after at least one
    and at most [maxRetries] calls; when [retryOperation] throws, the
    operation was called exactly [maxRetries] times and the exception is
    ["<name> failed after <maxRetries> attempts: <message>"].  With
    [maxRetries = 0] the operation is never called, the message is
    [undefined] and the world is left as it was.  The calls are counted on
    a trace the operation does not extend with calls of that name. *)
Theorem retryOperation_outcome {T} (operation : M T) (name : string)
    (config : ScraperConfig) (w0 : World P) :
  (forall w, invocations name (events (snd (operation w))) = invocations name (events w)) ->
  match retryOperation operation name config w0 with
  | (Ok v, w') =>
      (exists w1, operation w1 = (Ok v, w'))
      /\ invocations name (events w0) < invocations name (events w')
         <= invocations name (events w0) + maxRetries config
  | (Throw e, w') =>
      (exists msg, e = exhausted name config msg)
      /\ invocations name (events w') = invocations name (events w0) + maxRetries config
      /\ (maxRetries config = 0 -> e = exhausted name config "undefined" /\ w' = w0)
  end.
Proof.
  intros Hquiet. unfold retryOperation.
  pose proof (retryLoop_origin operation name config (maxRetries config) 0 None w0) as Horigin.
  pose proof (retryLoop_invocations operation name config Hquiet (maxRetries config) 0 None w0)
    as Hcount.
  destruct (retryLoop operation name config (maxRetries config) 0 None w0) as [[v|e] w'] eqn:Hrun.
  - now split.
  - split; [exact Horigin|]. split; [exact Hcount|].
    intros Hzero. rewrite Hzero in Hrun. simpl in Hrun. injection Hrun as <- <-.
    unfold exhausted. rewrite Hzero. now split.
Qed.

(** ** Selectors *)

(** [queryWithFallback] never throws and changes nothing but the page; a
    selector it returns is one of the list, for which [waitForSelector]
    found an element. *)
Lemma queryWithFallback_result (selectors : list string) (t : option Q) (v : option bool) :
  forall w : World P,
  exists found w',
    queryWithFallback selectors t v w = (Ok found, w')
    /\ (storage w' = storage w /\ progress w' = progress w /\ draws w' = draws w
        /\ ticks w' = ticks w /\ events w' = events w)
    /\ match found with
       | Some selector =>
           In selector selectors
           /\ exists p, waitForSelector selector (timeoutOr5000 t) (visibleState v) p
                        = (Ok true, page w')
       | None => True
       end.
Proof.
  induction selectors as [|s rest IH]; intros w.
  - exists None, w. simpl. now repeat split.
  - cbn [queryWithFallback]. unfold bind at 1, tryCatch, onPage.
    destruct (waitForSelector s (timeoutOr5000 t) (visibleState v) (page w))
      as [[[|]|e] p'] eqn:Hwait.
    + eexists (Some s), _. split; [reflexivity|]. cbn. split; [now repeat split|].
      split; [now left|]. now exists (page w).
    + destruct (IH (mkWorld p' (storage w) (progress w) (draws w) (ticks w) (events w)))
        as (found & w' & -> & Hsame & Hfound).
      exists found, w'. split; [reflexivity|]. split; [exact Hsame|].
      destruct found as [sel|]; [|exact I]. destruct Hfound as [Hin Hp].
      split; [now right | exact Hp].
    + cbn [ret].
      destruct (IH (mkWorld p' (storage w) (progress w) (draws w) (ticks w) (events w)))
        as (found & w' & -> & Hsame & Hfound).
      exists found, w'. split; [reflexivity|]. split; [exact Hsame|].
      destruct found as [sel|]; [|exact I]. destruct Hfound as [Hin Hp].
      split; [now right | exact Hp].
Qed.

(** X10.  [queryWithFallback] never throws, whatever [waitForSelector]
    does, and leaves storage, progress and trace alone.  A selector it
    returns is one of the list it was given and [waitForSelector] found
    an element for it, waiting 5000 ms when no timeout (or 0) was asked;
    on a list for which every wait fails or finds nothing it returns
    [null]. *)
Theorem queryWithFallback_total (selectors : list string) (t : option Q) (v : option bool)
    (w : World P) :
  (exists found w',
     queryWithFallback selectors t v w = (Ok found, w')
     /\ storage w' = storage w /\ progress w' = progress w /\ events w' = events w
     /\ match found with
        | Some selector =>
            In selector selectors
            /\ exists p, waitForSelector selector (timeoutOr5000 t) (visibleState v) p
                         = (Ok true, page w')
        | None => True
        end)
  /\ ((forall selector p, In selector selectors ->
         fst (waitForSelector selector (timeoutOr5000 t) (visibleState v) p) <> Ok true) ->
      fst (queryWithFallback selectors t v w) = Ok None).
Proof.
  destruct (queryWithFallback_result selectors t v w)
    as (found & w' & Hrun & (Hs & Hp & _ & _ & He) & Hfound).
  split.
  - exists found, w'. now repeat split.
  - intros Hnone. rewrite Hrun. cbn. destruct found as [sel|]; [|reflexivity].
    destruct Hfound as [Hin (p & Hwait)]. exfalso. apply (Hnone sel p Hin). now rewrite Hwait.
Qed.

(** ** One conversation *)

(** One attempt of [scrapeConversation]: what it returns has messages and
    is what the page script returned for one of the message selectors. *)
Lemma scrapeAttempt_origin (link : ConversationLink) (config : ScraperConfig)
    (w1 w' : World P) (conversation : ScrapedConversation) :
  (onPage (goto (url link) (timeout config)) ;;
   sleep 1500%Q ;;
   messageSelector <- queryWithFallback (messageContainer SELECTORS)
                        (Some 5000%Q) (Some true) ;;
   match messageSelector with
   | None => throw (Error ("No messages found for conversation: " ++ title link)%string)
   | Some selector =>
       conversation <- onPage (evaluateConversation link selector) ;;
       if Nat.eqb (List.length (messages conversation)) 0
       then throw (Error ("No messages extracted from conversation: " ++ title link)%string)
       else ret conversation
   end) w1 = (Ok conversation, w') ->
  messages conversation <> []
  /\ exists selector p,
       In selector (messageContainer SELECTORS)
       /\ evaluateConversation link selector p = (Ok conversation, page w').
Proof.
  intros Hop. unfold bind at 1 in Hop. unfold onPage at 1 in Hop.
  destruct (goto (url link) (timeout config) (page w1)) as [[[]|e] p1]; [|discriminate].
  unfold bind at 1 in Hop. unfold sleep, emit in Hop. unfold bind at 1 in Hop.
  match type of Hop with
  | context [queryWithFallback ?sels ?t ?v ?w2] =>
      destruct (queryWithFallback_result sels t v w2) as (found & w3 & Hq & _ & Hfound);
      rewrite Hq in Hop
  end.
  destruct found as [selector|]; [|discriminate]. destruct Hfound as [Hin _].
  unfold bind, onPage in Hop.
  destruct (evaluateConversation link selector (page w3)) as [[c|e] p4] eqn:Heval;
    [|discriminate].
  destruct (Nat.eqb (List.length (messages c)) 0) eqn:Hlen; [discriminate|].
  injection Hop as <- <-. split.
  - intros Hnil. rewrite Hnil in Hlen. discriminate.
  - exists selector, (page w3). split; [exact Hin | exact Heval].
Qed.

Lemma scrapeConversation_messages (link : ConversationLink) (config : ScraperConfig)
    (w w' : World P) (conversation : ScrapedConversation) :
  scrapeConversation link config w = (Ok conversation, w') -> messages conversation <> [].
Proof.
  unfold scrapeConversation, retryOperation. intros Hrun.
  match type of Hrun with
  | retryLoop ?op ?name config ?n 0 None w = _ =>
      pose proof (retryLoop_origin op name config n 0 None w) as Horigin
  end.
  rewrite Hrun in Horigin. destruct Horigin as (w1 & Hop).
  now apply scrapeAttempt_origin in Hop.
Qed.

(** X11.  A conversation [scrapeConversation] returns has at least one
    message and is what the page script returned for one of the message
    selectors; when it throws, the exception is that of [retryOperation],
    under the name ["Scrape conversation: <title>"]. *)
Theorem scrapeConversation_result (link : ConversationLink) (config : ScraperConfig)
    (w : World P) :
  match scrapeConversation link config w with
  | (Ok conversation, w') =>
      messages conversation <> []
      /\ exists selector p,
           In selector (messageContainer SELECTORS)
           /\ evaluateConversation link selector p = (Ok conversation, page w')
  | (Throw e, _) =>
      exists msg, e = exhausted ("Scrape conversation: " ++ title link) config msg
  end.
Proof.
  unfold scrapeConversation, retryOperation.
  match goal with
  | |- context [retryLoop ?op ?name config ?n 0 None w] =>
      pose proof (retryLoop_origin op name config n 0 None w) as Horigin;
      destruct (retryLoop op name config n 0 None w) as [[conversation|e] w']
  end; [|exact Horigin].
  destruct Horigin as (w1 & Hop). now apply scrapeAttempt_origin in Hop.
Qed.
End RetryAny.

(** An operation that always fails, under the default configuration:
    three calls, then the exception. *)
Lemma retryOperation_outcome_witness :
  (forall w, invocations "fetch" (events (snd (flaky 10 w))) = invocations "fetch" (events w))
  /\ exists w',
       retryOperation (B := countingBrowser) (flaky 10) "fetch" DEFAULT_SCRAPER_CONFIG
         (startWorld 0 Unavailable)
       = (Throw (exhausted "fetch" DEFAULT_SCRAPER_CONFIG "net::ERR_TIMED_OUT"), w')
       /\ invocations "fetch" (events w') = 3.
Proof.
  assert (Hquiet : forall w : World nat,
             invocations "fetch" (events (snd (flaky 10 w))) = invocations "fetch" (events w)).
  { intros w. unfold flaky. now destruct (page w <? 10). }
  split; [exact Hquiet|].
  pose proof (retryOperation_outcome (B := countingBrowser) (flaky 10) "fetch"
                DEFAULT_SCRAPER_CONFIG (startWorld 0 Unavailable) Hquiet) as H.
  destruct (retryOperation (B := countingBrowser) (flaky 10) "fetch" DEFAULT_SCRAPER_CONFIG
              (startWorld 0 Unavailable)) as [[v|e] w'] eqn:Hrun.
  - vm_compute in Hrun. discriminate.
  - exists w'. split; [|apply H].
    vm_compute in Hrun. injection Hrun as <- _. reflexivity.
Defined.

(** ** The whole session *)

Section Session.
Context {P : Type} {B : Browser P}.

Lemma bind_ok {A C} (c : M (P := P) A) (k : A -> M C) (w w' : World P) (a : A) :
  c w = (Ok a, w') -> bind c k w = k a w'.
Proof. intros H. unfold bind. now rewrite H. Qed.

Lemma bind_throw {A C} (c : M (P := P) A) (k : A -> M C) (w w' : World P) (e : exn) :
  c w = (Throw e, w') -> bind c k w = (Throw e, w').
Proof. intros H. unfold bind. now rewrite H. Qed.

Lemma modifyProgress_run (f : ScrapeProgress -> ScrapeProgress) (w : World P) :
  modifyProgress f w
  = (Ok tt, mkWorld (page w) (storage w) (f (progress w)) (draws w) (ticks w) (events w)).
Proof. reflexivity. Qed.

Lemma saveProgress_run (p : ScrapeProgress) (w : World P) :
  exists w', saveProgress p w = (Ok tt, w')
             /\ progress w' = progress w /\ events w' = events w
             /\ (forall accepts saved, storage w = Available accepts saved ->
                   storage w' = Available accepts
                                  (if accepts (JSON_stringify p) then Some p else saved))
             /\ (storage w = Unavailable -> storage w' = Unavailable).
Proof.
  unfold saveProgress, bind, getStorage, tryCatch, setStorage, throw, ret.
  destruct (storage w) as [|accepts saved] eqn:Hs.
  - eexists. split; [reflexivity|]. repeat split; intros; congruence.
  - destruct (accepts (JSON_stringify p)) eqn:Ha; eexists; (split; [reflexivity|]); cbn;
      repeat split; try congruence; intros accepts' saved' [= <- <-]; now rewrite Ha.
Qed.

Lemma smartDelay_run (index : Z) (config : ScraperConfig) (w : World P) :
  exists w', smartDelay index config w = (Ok tt, w')
             /\ progress w' = progress w /\ attempts (events w') = attempts (events w).
Proof.
  unfold smartDelay, bind, Math_random, sleep, emit. eexists. split; [reflexivity|]. cbn.
  split; [reflexivity|]. rewrite attempts_app. cbn. now rewrite app_nil_r.
Qed.

Lemma beginSession_returns (w : World P) :
  exists w', beginSession w = (Ok tt, w') /\ attempts (events w') = attempts (events w)
             /\ storage w' = storage w.
Proof.
  unfold beginSession, generateSessionId, loadProgress, bind, getStorage, Date_now,
    Math_random, ret, setProgress. cbn.
  destruct (storage w) as [|accepts [stored|]] eqn:Hs; cbn [getItem fst snd];
    try (eexists; now repeat split).
  rewrite progress_json_round_trip. cbn [fst snd].
  destruct (isComplete (storedProgress stored)); cbn; eexists; now repeat split.
Qed.

(** The run of [enhancedScrape] once the enumeration has succeeded: the
    loop over the links left, then the final save. *)
Lemma enhancedScrape_run (cb : option ProgressCallback) (config : ScraperConfig)
    (w0 wb w1 : World P) (allLinks : list ConversationLink) :
  beginSession w0 = (Ok tt, wb) ->
  enumerate config wb = (Ok allLinks, w1) ->
  let toScrape :=
    filter (fun link => negb (includes (scrapedIds (progress wb)) (id link))) allLinks in
  let w2 := mkWorld (page w1) (storage w1)
              (withTotal (Z.of_nat (List.length allLinks)) (progress wb))
              (draws w1) (ticks w1) (events w1) in
  let w3 := snd (scrapeLoop cb config (List.length toScrape) 0 toScrape w2) in
  let final := withCurrentIndex (Z.of_nat (List.length allLinks)) (markComplete (progress w3)) in
  let w4 := mkWorld (page w3) (storage w3) final (draws w3) (ticks w3) (events w3) in
  enhancedScrape cb config w0 = (Ok final, snd (saveProgress final w4))
  /\ attempts (events w3) = attempts (events w0) ++ toScrape.
Proof.
  intros Hb Henum toScrape w2 w3 final w4.
  destruct (beginSession_returns w0) as (wb' & Hb' & Hba & _).
  rewrite Hb in Hb'. injection Hb' as <-.
  destruct (Quiet_enumerate config wb) as [He1 He2].
  rewrite Henum in He1, He2. cbn [snd] in He1, He2.
  assert (Hw2 : mkWorld (page w1) (storage w1)
                  (withTotal (Z.of_nat (List.length allLinks)) (progress w1))
                  (draws w1) (ticks w1) (events w1) = w2).
  { unfold w2. now rewrite He1. }
  destruct (scrapeLoop_attempts cb config (List.length toScrape) toScrape 0 w2) as [Hl Hla].
  fold w3 in Hla.
  split.
  - unfold enhancedScrape. rewrite (bind_ok _ _ _ _ _ Hb).
    unfold tryCatch. rewrite (bind_ok _ _ _ _ _ Henum).
    rewrite (bind_ok _ _ _ _ _ (modifyProgress_run _ w1)). rewrite Hw2.
    unfold bind at 1. unfold getProgress at 1.
    change (scrapedIds (progress w2)) with (scrapedIds (progress wb)).
    fold toScrape.
    assert (Hloop : scrapeLoop cb config (List.length toScrape) 0 toScrape w2 = (Ok tt, w3)).
    { unfold w3. destruct (scrapeLoop cb config (List.length toScrape) 0 toScrape w2).
      cbn [fst snd] in *. now subst. }
    rewrite (bind_ok _ _ _ _ _ Hloop).
    rewrite (bind_ok _ _ _ _ _ (modifyProgress_run _ w3)).
    rewrite (bind_ok _ _ _ _ _ (modifyProgress_run _ _)).
    cbn [page storage progress draws ticks events]. fold final. fold w4.
    unfold bind at 1. unfold getProgress at 1. cbn [progress].
    destruct (saveProgress_run final w4) as (w5 & Hs & _).
    rewrite (bind_ok _ _ _ _ _ Hs). rewrite Hs. reflexivity.
  - rewrite Hla. unfold w2. cbn [events]. now rewrite He2, Hba.
Qed.






Lemma retryOperation_throws {T} (operation : M T) (name : string) (config : ScraperConfig)
    (w w' : World P) (e : exn) :
  retryOperation operation name config w = (Throw e, w') ->
  exists msg, e = exhausted name config msg.
Proof.
  unfold retryOperation. intros Hrun.
  pose proof (retryLoop_origin operation name config (maxRetries config) 0 None w) as H.
  now rewrite Hrun in H.
Qed.

(** X13.  When the enumeration of the links throws, [enhancedScrape]
    throws that exception, after saving the progress it began with: no
    link is attempted, and a storage that accepts its text then holds
    that progress.
    The exception is that of the retries of the sidebar scroll or of the
    link search. *)
Theorem enumeration_failure (cb : option ProgressCallback) (config : ScraperConfig)
    (w0 w1 : World P) (e : exn) :
  enumerate config (snd (beginSession w0)) = (Throw e, w1) ->
  (exists w',
     enhancedScrape cb config w0 = (Throw e, w')
     /\ attempts (events w') = attempts (events w0)
     /\ progress w' = progress (snd (beginSession w0))
     /\ forall accepts saved,
          storage w1 = Available accepts saved ->
          accepts (JSON_stringify (progress w')) = true ->
          storage w' = Available accepts (Some (progress w'))
          /\ getItem (storage w') = Some (JSON_stringify (progress w')))
  /\ exists msg, e = exhausted "Scroll sidebar" config msg
                 \/ e = exhausted "Find conversation links" config msg.
Proof.
  intros Henum.
  destruct (beginSession_returns w0) as (wb & Hb & Hba & _).
  rewrite Hb in Henum |- *. cbn [snd] in Henum |- *.
  destruct (Quiet_enumerate config wb) as [He1 He2].
  rewrite Henum in He1, He2. cbn [snd] in He1, He2.
  split.
  - unfold enhancedScrape. rewrite (bind_ok _ _ _ _ _ Hb).
    unfold tryCatch. rewrite (bind_throw _ _ _ _ _ Henum).
    unfold bind at 1. unfold getProgress at 1.
    destruct (saveProgress_run (progress w1) w1) as (w5 & Hs & Hp & Hev & Hst & _).
    rewrite (bind_ok _ _ _ _ _ Hs). exists w5. split; [reflexivity|].
    split; [now rewrite Hev, He2|]. split; [now rewrite Hp|].
    intros accepts saved Hitem Haccepts. rewrite Hp in Haccepts |- *.
    rewrite (Hst accepts saved Hitem), Haccepts. now split.
  - unfold enumerate, bind in Henum.
    destruct (scrollSidebarToLoadAll config wb) as [[[]|e1] w2] eqn:Hscroll.
    + apply retryOperation_throws in Henum. destruct Henum as (msg & ->).
      exists msg. now right.
    + injection Henum as <- <-. apply retryOperation_throws in Hscroll.
      destruct Hscroll as (msg & ->). exists msg. now left.
Qed.

(** ** Accounting, without callback *)

(** The selection of the links at which [mask] holds [keep]. *)
Fixpoint pick (keep : bool) (mask : list bool) (links : list ConversationLink)
    : list ConversationLink :=
  match mask, links with
  | b :: mask', link :: links' =>
      if Bool.eqb b keep then link :: pick keep mask' links' else pick keep mask' links'
  | _, _ => []
  end.

(** What the loop over [links] makes of a progress [p]: each link is
    either added to the scraped ones, with a conversation that has
    messages, or to the failed ones; session id and total stay. *)
Definition Accounted (p p' : ScrapeProgress) (links : list ConversationLink) : Prop :=
  sessionId p' = sessionId p
  /\ totalConversations p' = totalConversations p
  /\ exists (mask : list bool) (conversations : list ScrapedConversation)
            (failures : list FailedConversation),
       List.length mask = List.length links
       /\ scrapedIds p' = scrapedIds p ++ map id (pick true mask links)
       /\ scrapedConversations p' = scrapedConversations p ++ conversations
       /\ List.length conversations = List.length (pick true mask links)
       /\ Forall (fun c => messages c <> []) conversations
       /\ failedConversations p' = failedConversations p ++ failures
       /\ map failed_id failures = map id (pick false mask links)
       /\ Forall (fun f => retryCount f = 0%Z) failures.

Lemma scrapeLoop_turn (config : ScraperConfig) (count i : nat) (link : ConversationLink)
    (rest : list ConversationLink) (w : World P) :
  exists w',
    scrapeLoop None config count i (link :: rest) w
    = scrapeLoop None config count (S i) rest w'
    /\ ((exists c k, messages c <> []
                     /\ progress w' = withCurrentIndex k (pushScraped c (id link) (progress w)))
        \/ (exists f, failed_id f = id link /\ retryCount f = 0%Z
                      /\ progress w' = pushFailed f (progress w))).
Proof.
  cbn [scrapeLoop]. unfold bind at 1. unfold getProgress at 1.
  set (globalIndex := (currentIndex (progress w) + Z.of_nat i)%Z).
  unfold bind at 1. unfold tryCatch.
  set (w1 := mkWorld (page w) (storage w) (progress w) (draws w) (ticks w)
               (events w ++ [Attempted link])).
  assert (Hemit : emit (Attempted link) w = (Ok tt, w1)) by reflexivity.
  rewrite (bind_ok _ _ _ _ _ Hemit).
  destruct (Quiet_scrapeConversation link config w1) as [Hp _].
  destruct (scrapeConversation link config w1) as [[c|e] w2] eqn:Hsc; cbn [snd] in Hp.
  - pose proof (scrapeConversation_messages link config w1 w2 c Hsc) as Hmsgs.
    rewrite (bind_ok _ _ _ _ _ Hsc).
    rewrite (bind_ok _ _ _ _ _ (modifyProgress_run _ w2)).
    set (w3 := mkWorld (page w2) (storage w2) (pushScraped c (id link) (progress w2))
                 (draws w2) (ticks w2) (events w2)).
    assert (Hsave : exists w4 k,
               (if Nat.eqb ((i + 1) mod saveProgressInterval config) 0
                then modifyProgress (withCurrentIndex (globalIndex + 1)) ;;
                     saved <- getProgress ;; saveProgress saved
                else ret tt) w3 = (Ok tt, w4)
               /\ progress w4 = withCurrentIndex k (pushScraped c (id link) (progress w))).
    { destruct (Nat.eqb ((i + 1) mod saveProgressInterval config) 0).
      - rewrite (bind_ok _ _ _ _ _ (modifyProgress_run _ w3)).
        unfold bind at 1. unfold getProgress at 1.
        match goal with
        | |- context [saveProgress ?saved ?w3'] =>
            destruct (saveProgress_run saved w3') as (w4 & Hs & Hp4 & _)
        end.
        exists w4, (globalIndex + 1)%Z. split; [exact Hs|]. rewrite Hp4. cbn [progress].
        unfold w3. cbn [progress]. now rewrite Hp.
      - exists w3, (currentIndex (progress w)). split; [reflexivity|].
        unfold w3. cbn [progress]. rewrite Hp. now destruct (progress w). }
    destruct Hsave as (w4 & k & Hsave & Hp4).
    rewrite (bind_ok _ _ _ _ _ Hsave).
    unfold callOnProgress. unfold bind at 1. unfold ret at 1.
    destruct (i <? count - 1).
    + destruct (smartDelay_run globalIndex config w4) as (w5 & Hd & Hp5 & _).
      rewrite Hd. exists w5. split; [reflexivity|]. left. exists c, k.
      split; [exact Hmsgs|]. now rewrite Hp5.
    + exists w4. split; [reflexivity|]. left. exists c, k. now split.
  - rewrite (bind_throw _ _ _ _ _ Hsc).
    unfold bind at 1. unfold Date_now at 1.
    rewrite modifyProgress_run. cbn [page storage progress draws ticks events].
    eexists. split; [reflexivity|]. right. eexists. cbn [progress].
    split; [|split; [|rewrite Hp; reflexivity]]; reflexivity.
Qed.

Lemma Accounted_nil (p : ScrapeProgress) : Accounted p p [].
Proof.
  repeat split. exists [], [], []. cbn. rewrite !app_nil_r. now repeat split.
Qed.

Lemma scrapeLoop_accounted (config : ScraperConfig) (count : nat) :
  forall links i (w : World P),
    Accounted (progress w) (progress (snd (scrapeLoop None config count i links w))) links.
Proof.
  induction links as [|link rest IH]; intros i w; [apply Accounted_nil|].
  destruct (scrapeLoop_turn config count i link rest w) as (w' & -> & Hturn).
  specialize (IH (S i) w').
  destruct IH as (Hs & Ht & mask & cs & fs & Hlen & Hids & Hcs & Hcl & Hcm & Hfs & Hfi & Hfr).
  set (p' := progress (snd (scrapeLoop None config count (S i) rest w'))) in *.
  destruct Hturn as [(c & k & Hmsgs & Hp) | (f & Hfid & Hfrc & Hp)]; rewrite Hp in *;
    cbn [withCurrentIndex pushScraped pushFailed sessionId totalConversations
           scrapedIds scrapedConversations failedConversations] in *.
  - split; [exact Hs|]. split; [exact Ht|].
    exists (true :: mask), (c :: cs), fs. cbn [pick Bool.eqb List.length map].
    rewrite Hids, Hcs, <- !app_assoc. cbn [app].
    repeat split; try assumption; try (now f_equal); now constructor.
  - split; [exact Hs|]. split; [exact Ht|].
    exists (false :: mask), cs, (f :: fs). cbn [pick Bool.eqb List.length map].
    rewrite Hfs, <- !app_assoc. cbn [app]. rewrite Hfid.
    repeat split; try assumption; try (now f_equal); now constructor.
Qed.

(** X19.  An exception of the progress callback counts as a failure of
    the conversation just scraped: when [scrapeConversation] succeeds for
    a link and the callback throws on a progress that lists the link as
    scraped, leaving the progress object as it is, the loop goes on with
    the next link, and the link is both among the scraped ids and among
    the failed conversations, with the message of the callback's
    exception. *)
Theorem failing_callback_counts_twice (cb : ProgressCallback) (config : ScraperConfig)
    (count i : nat) (link : ConversationLink) (rest : list ConversationLink)
    (w w2 : World P) (conversation : ScrapedConversation) (e : exn) :
  scrapeConversation link config
    (mkWorld (page w) (storage w) (progress w) (draws w) (ticks w)
       (events w ++ [Attempted link]))
  = (Ok conversation, w2) ->
  (forall p pg, In (id link) (scrapedIds p) -> exists pg', cb p pg = (Throw e, p, pg')) ->
  exists w' f,
    scrapeLoop (Some cb) config count i (link :: rest) w
    = scrapeLoop (Some cb) config count (S i) rest w'
    /\ In (id link) (scrapedIds (progress w'))
    /\ In conversation (scrapedConversations (progress w'))
    /\ In f (failedConversations (progress w'))
    /\ failed_id f = id link /\ error f = message_of e.
Proof.
  intros Hsc Hcb.
  cbn [scrapeLoop]. unfold bind at 1. unfold getProgress at 1.
  set (globalIndex := (currentIndex (progress w) + Z.of_nat i)%Z).
  unfold bind at 1. unfold tryCatch.
  set (w1 := mkWorld (page w) (storage w) (progress w) (draws w) (ticks w)
               (events w ++ [Attempted link])) in *.
  assert (Hemit : emit (Attempted link) w = (Ok tt, w1)) by reflexivity.
  rewrite (bind_ok _ _ _ _ _ Hemit).
  rewrite (bind_ok _ _ _ _ _ Hsc).
  rewrite (bind_ok _ _ _ _ _ (modifyProgress_run _ w2)).
  set (w3 := mkWorld (page w2) (storage w2) (pushScraped conversation (id link) (progress w2))
               (draws w2) (ticks w2) (events w2)).
  assert (Hsave : exists w4 k,
             (if Nat.eqb ((i + 1) mod saveProgressInterval config) 0
              then modifyProgress (withCurrentIndex (globalIndex + 1)) ;;
                   saved <- getProgress ;; saveProgress saved
              else ret tt) w3 = (Ok tt, w4)
             /\ progress w4
                = withCurrentIndex k (pushScraped conversation (id link) (progress w2))).
  { destruct (Nat.eqb ((i + 1) mod saveProgressInterval config) 0).
    - rewrite (bind_ok _ _ _ _ _ (modifyProgress_run _ w3)).
      unfold bind at 1. unfold getProgress at 1.
      match goal with
      | |- context [saveProgress ?saved ?w3'] =>
          destruct (saveProgress_run saved w3') as (w4 & Hs & Hp4 & _)
      end.
      exists w4, (globalIndex + 1)%Z. split; [exact Hs|]. now rewrite Hp4.
    - exists w3, (currentIndex (progress w2)). split; [reflexivity|].
      unfold w3. cbn [progress]. now destruct (progress w2). }
  destruct Hsave as (w4 & k & Hsave & Hp4).
  rewrite (bind_ok _ _ _ _ _ Hsave).
  destruct (Hcb (progress w4) (page w4)) as (pg' & Hthrow).
  { rewrite Hp4. cbn [withCurrentIndex pushScraped scrapedIds].
    apply in_or_app. right. now left. }
  assert (Hcall : callOnProgress (Some cb) w4
                  = (Throw e, mkWorld pg' (storage w4) (progress w4) (draws w4) (ticks w4)
                                (events w4))).
  { unfold callOnProgress. now rewrite Hthrow. }
  rewrite (bind_throw _ _ _ _ _ Hcall).
  unfold bind at 1. unfold Date_now at 1.
  rewrite modifyProgress_run. cbn [page storage progress draws ticks events].
  eexists. eexists. split; [reflexivity|]. cbn [progress]. rewrite Hp4.
  cbn [pushFailed withCurrentIndex pushScraped scrapedIds scrapedConversations
         failedConversations].
  repeat split; try (apply in_or_app; right; now left); reflexivity.
Qed.

(** X14.  Without callback, a session whose enumeration succeeds accounts
    for every link it had left: the result keeps the session id it began
    with, has [totalConversations] and [currentIndex] set to the number
    of enumerated links and is complete; each link left is either among
    the scraped ids, with one conversation that has messages added, or
    among the failed conversations with [retryCount] 0, in the order of
    the enumeration; and a storage that accepts its text ends up holding
    the result. *)
Theorem session_accounts_for_links (config : ScraperConfig) (w0 w1 : World P)
    (allLinks : list ConversationLink) :
  enumerate config (snd (beginSession w0)) = (Ok allLinks, w1) ->
  let start := progress (snd (beginSession w0)) in
  let toScrape :=
    filter (fun link => negb (includes (scrapedIds start) (id link))) allLinks in
  exists final w',
    enhancedScrape None config w0 = (Ok final, w')
    /\ progress w' = final
    /\ isComplete final = true
    /\ currentIndex final = Z.of_nat (List.length allLinks)
    /\ Accounted (withTotal (Z.of_nat (List.length allLinks)) start) final toScrape
    /\ (storage w' = Unavailable
        \/ exists accepts saved,
             storage w' = Available accepts saved
             /\ (accepts (JSON_stringify final) = true -> saved = Some final)).
Proof.
  intros Henum start toScrape.
  destruct (beginSession_returns w0) as (wb & Hb & _).
  unfold toScrape, start. clear toScrape start.
  rewrite Hb in Henum |- *. cbn [snd] in Henum |- *.
  destruct (enhancedScrape_run None config w0 wb w1 allLinks Hb Henum) as [Hrun _].
  rewrite Hrun. clear Hrun.
  match goal with
  | |- context [saveProgress ?final ?w4] =>
      destruct (saveProgress_run final w4) as (w5 & Hs & Hp & _ & Hst & Hun);
      assert (Hstore : storage w5 = Unavailable
                       \/ exists accepts saved,
                            storage w5 = Available accepts saved
                            /\ (accepts (JSON_stringify final) = true -> saved = Some final));
      [destruct (storage w4) as [|accepts saved] eqn:Hbefore;
       [left; now apply Hun
       |right; exists accepts; eexists; split; [now apply Hst|]; now intros ->]
      |];
      rewrite Hs; exists final, w5
  end.
  cbn [snd]. split; [reflexivity|].
  split; [now rewrite Hp|]. split; [reflexivity|]. split; [reflexivity|].
  split; [|exact Hstore].
  match goal with
  | |- Accounted ?p _ ?links =>
      pose proof (scrapeLoop_accounted config (List.length links) links 0
                    (mkWorld (page w1) (storage w1) p (draws w1) (ticks w1) (events w1)))
        as Hacc
  end.
  cbn [progress] in Hacc.
  destruct Hacc as (H1 & H2 & mask & cs & fs & H4).
  split; [exact H1|]. split; [exact H2|].
  exists mask, cs, fs. exact H4.
Qed.
End Session.

(** A fresh session, with nothing stored: A, B and C are all attempted. *)
Definition freshEnumerated : World nat :=
  Eval vm_compute in
    snd (enumerate (B := libraryBrowser) DEFAULT_SCRAPER_CONFIG
           (snd (beginSession (B := libraryBrowser) (startWorld 0 Unavailable)))).


Lemma session_accounts_for_links_witness :
  exists final w',
    enhancedScrape (B := libraryBrowser) None DEFAULT_SCRAPER_CONFIG (startWorld 0 Unavailable)
    = (Ok final, w')
    /\ isComplete final = true /\ currentIndex final = 3%Z.
Proof.
  destruct (session_accounts_for_links (B := libraryBrowser) DEFAULT_SCRAPER_CONFIG
              (startWorld 0 Unavailable) freshEnumerated [linkA; linkB; linkC] eq_refl)
    as (final & w' & Hrun & _ & Hdone & Hindex & _).
  exists final, w'. split; [exact Hrun|]. split; [exact Hdone | exact Hindex].
Defined.

(** A browser on a page that shows nothing: no selector finds an element. *)
Definition blankBrowser : Browser nat :=
  {| random := fun _ => (1 # 2)%Q;
     clock := fun k => (1700000000000 + Z.of_nat k)%Z;
     base36 := fun _ => "4fzzzxjyl";
     waitForSelector := fun _ _ _ n => (Ok false, S n);
     goto := fun _ _ n => (Ok tt, S n);
     evaluateScroll := fun _ n => (Ok tt, S n);
     evaluateLinks := fun _ n => (Ok [], S n);
     evaluateConversation := fun link _ n => (Ok (scrapedOf link), S n) |}.

Definition blankEnumerated : World nat :=
  Eval vm_compute in
    snd (enumerate (B := blankBrowser) DEFAULT_SCRAPER_CONFIG
           (snd (beginSession (B := blankBrowser) (startWorld 0 (Available (fun _ => true) None))))).

(** On the blank page the sidebar is not found: the session throws after
    three tries and the storage holds the new, empty progress. *)
Lemma enumeration_failure_witness :
  exists w',
    enhancedScrape (B := blankBrowser) None DEFAULT_SCRAPER_CONFIG
      (startWorld 0 (Available (fun _ => true) None))
    = (Throw (exhausted "Scroll sidebar" DEFAULT_SCRAPER_CONFIG
                "Could not find sidebar with any known selector"), w')
    /\ attempts (events w') = []
    /\ getItem (storage w') = Some (JSON_stringify (progress w')).
Proof.
  assert (Henum : enumerate (B := blankBrowser) DEFAULT_SCRAPER_CONFIG
                    (snd (beginSession (B := blankBrowser)
                            (startWorld 0 (Available (fun _ => true) None))))
                  = (Throw (exhausted "Scroll sidebar" DEFAULT_SCRAPER_CONFIG
                              "Could not find sidebar with any known selector"),
                     blankEnumerated))
    by (vm_compute; reflexivity).
  destruct (proj1 (enumeration_failure (B := blankBrowser) None DEFAULT_SCRAPER_CONFIG
                     (startWorld 0 (Available (fun _ => true) None)) blankEnumerated _ Henum))
    as (w' & Hrun & Hatt & _ & Hstore).
  exists w'. split; [exact Hrun|]. split; [exact Hatt|].
  now apply (Hstore (fun _ => true) None).
Defined.

(** ** The progress store *)

Section Store.
Context {P : Type} {B : Browser P}.

(** X15.  [saveProgress] never throws.  After [clearProgress],
    [loadProgress] returns [null], also when a progress was saved just
    before.  Of two saves the later one is read back, dates as strings,
    when the storage accepts its text; when the storage refuses it, what
    is read back is what was there after the first save.  A refused
    [saveProgress] leaves the world as it was, and without storage the
    three operations do nothing. *)
Theorem progress_store_laws (p1 p2 : ScrapeProgress) (w : World P) :
  fst (saveProgress p1 w) = Ok tt
  /\ fst ((clearProgress ;; loadProgress) w) = Ok None
  /\ fst ((saveProgress p1 ;; clearProgress ;; loadProgress) w) = Ok None
  /\ (forall accepts saved,
        storage w = Available accepts saved ->
        (accepts (JSON_stringify p2) = true ->
         fst ((saveProgress p1 ;; saveProgress p2 ;; loadProgress) w)
         = Ok (Some (storedProgress p2)))
        /\ (accepts (JSON_stringify p2) = false ->
            fst ((saveProgress p1 ;; saveProgress p2 ;; loadProgress) w)
            = fst ((saveProgress p1 ;; loadProgress) w))
        /\ (accepts (JSON_stringify p1) = false -> saveProgress p1 w = (Ok tt, w)))
  /\ (storage w = Unavailable ->
      saveProgress p1 w = (Ok tt, w) /\ clearProgress w = (Ok tt, w)
      /\ loadProgress w = (Ok None, w)).
Proof.
  unfold saveProgress, clearProgress, loadProgress, bind, tryCatch, getStorage, setStorage,
    throw, ret.
  destruct w as [pg st pr d t ev]. cbn [storage].
  destruct st as [|accepts saved].
  - cbn. repeat split; try reflexivity; intros; discriminate.
  - split; [now destruct (accepts (JSON_stringify p1))|].
    split; [reflexivity|].
    split; [now destruct (accepts (JSON_stringify p1))|].
    split; [|intros; discriminate].
    intros accepts' saved' [= <- <-]. split; [|split].
    + intros H2. destruct (accepts (JSON_stringify p1)); cbn [storage fst snd]; rewrite H2;
        cbn [storage getItem fst snd]; now rewrite progress_json_round_trip.
    + intros H2. destruct (accepts (JSON_stringify p1)); cbn [storage fst snd]; rewrite H2;
        reflexivity.
    + intros H1. now rewrite H1.
Qed.
End Store.

(** ** Delays between retries *)

Section Backoff.
Context {P : Type} {B : Browser P}.

Lemma Qmin_le_compat (a b c : Q) : (a <= b)%Q -> (Qmin a c <= Qmin b c)%Q.
Proof.
  intros Hab. apply Q.min_glb.
  - eapply Qle_trans; [apply Q.le_min_l | exact Hab].
  - apply Q.le_min_r.
Qed.

(** X16.  With [Math.random()] in [0, 1) and a jitter range that is not
    negative, the delay [calculateDelay] returns for attempt [k] lies
    between [min(minDelay * backoffMultiplier^k, maxDelay)] and that plus
    [jitterRange]; it draws one random number and is at most
    [maxDelay + jitterRange].  With a multiplier of at least 1 and a
    minimal delay that is not negative, the delay without its jitter does
    not decrease from an attempt to the next. *)
Theorem calculateDelay_bounds (attempt : nat) (config : ScraperConfig) (w : World P) :
  (0 <= random (draws w))%Q -> (random (draws w) < 1)%Q -> (0 <= jitterRange config)%Q ->
  exists d w',
    calculateDelay attempt config w = (Ok d, w')
    /\ draws w' = S (draws w) /\ events w' = events w
    /\ (backoffDelay config attempt 0 <= d)%Q
    /\ (d <= backoffDelay config attempt 1)%Q
    /\ (d <= maxDelay config + jitterRange config)%Q
    /\ ((1 <= backoffMultiplier config)%Q -> (0 <= minDelay config)%Q ->
        (backoffDelay config attempt 0 <= backoffDelay config (S attempt) 0)%Q).
Proof.
  intros Hr0 Hr1 Hj.
  eexists. eexists. split; [reflexivity|]. cbn [draws events].
  split; [reflexivity|]. split; [reflexivity|].
  unfold backoffDelay.
  set (cap := fun k => Qmin (minDelay config * backoffMultiplier config ^ Z.of_nat k)
                         (maxDelay config)).
  change (Qmin (minDelay config * backoffMultiplier config ^ Z.of_nat attempt)
            (maxDelay config)) with (cap attempt).
  change (Qmin (minDelay config * backoffMultiplier config ^ Z.of_nat (S attempt))
            (maxDelay config)) with (cap (S attempt)).
  assert (Hcap : (cap attempt <= maxDelay config)%Q) by apply Q.le_min_r.
  assert (Hjit : (0 <= random (draws w) * jitterRange config)%Q)
    by (apply Qmult_le_0_compat; assumption).
  assert (Hjit1 : (random (draws w) * jitterRange config <= jitterRange config)%Q).
  { rewrite <- (Qmult_1_l (jitterRange config)) at 2.
    apply Qmult_le_compat_r; [apply Qlt_le_weak; exact Hr1 | exact Hj]. }
  assert (Hgrow : (1 <= backoffMultiplier config)%Q -> (0 <= minDelay config)%Q ->
                  (cap attempt <= cap (S attempt))%Q).
  { intros Hm Hmin. unfold cap. apply Qmin_le_compat.
    rewrite !(Qmult_comm (minDelay config)).
    apply Qmult_le_compat_r; [|exact Hmin].
    apply Qpower_le_compat_l; [lia | exact Hm]. }
  revert Hcap Hjit Hjit1 Hgrow.
  generalize (cap attempt) as c. generalize (cap (S attempt)) as c'.
  generalize (random (draws w) * jitterRange config)%Q as j.
  generalize (jitterRange config) as range. generalize (maxDelay config) as top.
  intros top range j c' c Hcap Hjit Hjit1 Hgrow.
  split; [lra|]. split; [lra|]. split; [lra|].
  intros Hm Hmin. specialize (Hgrow Hm Hmin). lra.
Qed.
End Backoff.

Lemma calculateDelay_bounds_witness :
  exists d w',
    calculateDelay (B := countingBrowser) 1 DEFAULT_SCRAPER_CONFIG (startWorld 0 Unavailable)
    = (Ok d, w')
    /\ (backoffDelay DEFAULT_SCRAPER_CONFIG 1 0 <= d)%Q
    /\ (d <= backoffDelay DEFAULT_SCRAPER_CONFIG 1 1)%Q.
Proof.
  destruct (calculateDelay_bounds (B := countingBrowser) 1 DEFAULT_SCRAPER_CONFIG
              (startWorld 0 Unavailable))
    as (d & w' & Hrun & _ & _ & Hlo & Hhi & _);
    [discriminate | reflexivity | discriminate |].
  exists d, w'. split; [exact Hrun|]. split; [exact Hlo | exact Hhi].
Defined.

(** A callback that always throws. *)
Definition brokenCallback : ProgressCallback (P := nat) :=
  fun p pg => (Throw (Error "render failed"), p, pg).

Definition scrapedAlpha : World nat :=
  Eval vm_compute in
    snd (scrapeConversation (B := libraryBrowser) linkA DEFAULT_SCRAPER_CONFIG
           (mkWorld 0 Unavailable emptyProgress 0 0 [Attempted linkA])).

(** Alpha is scraped, the callback throws: Alpha is listed as scraped and
    as failed. *)
Lemma failing_callback_counts_twice_witness :
  exists w' f,
    scrapeLoop (B := libraryBrowser) (Some brokenCallback) DEFAULT_SCRAPER_CONFIG 1 0 [linkA]
      (startWorld 0 Unavailable)
    = (Ok tt, w')
    /\ In "a1" (scrapedIds (progress w'))
    /\ In f (failedConversations (progress w'))
    /\ failed_id f = "a1" /\ error f = "render failed".
Proof.
  assert (Hsc : scrapeConversation (B := libraryBrowser) linkA DEFAULT_SCRAPER_CONFIG
                  (mkWorld (page (startWorld 0 Unavailable)) (storage (startWorld 0 Unavailable))
                     (progress (startWorld 0 Unavailable)) (draws (startWorld 0 Unavailable))
                     (ticks (startWorld 0 Unavailable))
                     (events (startWorld 0 Unavailable) ++ [Attempted linkA]))
                = (Ok (scrapedOf linkA), scrapedAlpha))
    by (vm_compute; reflexivity).
  destruct (failing_callback_counts_twice (B := libraryBrowser) brokenCallback
              DEFAULT_SCRAPER_CONFIG 1 0 linkA [] (startWorld 0 Unavailable) scrapedAlpha
              (scrapedOf linkA) (Error "render failed") Hsc)
    as (w' & f & Hrun & Hids & _ & Hf & Hfid & Herr).
  { intros p pg _. now exists pg. }
  exists w', f. split; [exact Hrun|]. repeat split; assumption.
Defined.

End ScraperFacts.

(** * File names *)

Module MarkdownFacts.
Import Parser Markdown.

(** A character of a safe title: a small letter, a digit or a hyphen. *)
Definition isSafe (c : ascii) : bool := isLower c || isDigit c || isHyphen c.

Fixpoint allChars (p : ascii -> bool) (s : string) : bool :=
  match s with
  | EmptyString => true
  | String c s' => p c && allChars p s'
  end.

Definition isKept (c : ascii) : bool :=
  isLower c || isUpper c || isDigit c || isSpace c || isHyphen c.

Lemma removeUnsafe_kept (s : string) : allChars isKept (removeUnsafe s) = true.
Proof.
  induction s as [|c s IH]; simpl; [reflexivity|]. fold (isKept c).
  destruct (isKept c) eqn:Hc; simpl; [now rewrite Hc | exact IH].
Qed.

Definition isJoined (c : ascii) : bool := isLower c || isUpper c || isDigit c || isHyphen c.

Lemma hyphenate_joined (s : string) :
  allChars isKept s = true -> forall inRun, allChars isJoined (hyphenate inRun s) = true.
Proof.
  induction s as [|c s IH]; simpl; [reflexivity|]. intros H inRun.
  apply andb_prop in H. destruct H as [Hc Hs].
  destruct (isSpace c) eqn:Hsp.
  - destruct inRun; simpl; now apply IH.
  - simpl. rewrite (IH Hs). unfold isKept in Hc. rewrite Hsp in Hc. unfold isJoined.
    rewrite !orb_false_r in Hc.
    destruct (isLower c), (isUpper c), (isDigit c), (isHyphen c); simpl in *;
      try reflexivity; discriminate.
Qed.

Lemma lowerChar_safe (c : ascii) : isJoined c = true -> isSafe (lowerChar c) = true.
Proof.
  unfold lowerChar. destruct (isUpper c) eqn:Hu.
  - intros _. unfold isSafe, isLower, isUpper in *.
    apply andb_prop in Hu. destruct Hu as [H1 H2].
    apply Nat.leb_le in H1. apply Nat.leb_le in H2.
    rewrite nat_ascii_embedding by lia.
    replace (97 <=? nat_of_ascii c + 32) with true by (symmetry; apply Nat.leb_le; lia).
    replace (nat_of_ascii c + 32 <=? 122) with true by (symmetry; apply Nat.leb_le; lia).
    reflexivity.
  - unfold isJoined, isSafe. rewrite Hu. now rewrite orb_false_r.
Qed.

Lemma toLowerCase_safe (s : string) :
  allChars isJoined s = true -> allChars isSafe (toLowerCase s) = true.
Proof.
  induction s as [|c s IH]; simpl; [reflexivity|]. intros H.
  apply andb_prop in H. destruct H as [Hc Hs]. now rewrite lowerChar_safe, IH.
Qed.

Lemma slice0_all (p : ascii -> bool) (s : string) :
  allChars p s = true -> forall n, allChars p (slice0 n s) = true.
Proof.
  induction s as [|c s IH]; intros H n; destruct n; simpl; try reflexivity.
  simpl in H. apply andb_prop in H. destruct H as [-> Hs]. now apply IH.
Qed.

Lemma slice0_length (n : nat) (s : string) : String.length (slice0 n s) <= n.
Proof.
  revert s. induction n as [|n IH]; intros s; destruct s; simpl; try lia.
  specialize (IH s). lia.
Qed.

Lemma slice0_prefix (n : nat) (s : string) : String.prefix (slice0 n s) s = true.
Proof.
  revert s. induction n as [|n IH]; intros s; destruct s; simpl; try reflexivity.
  destruct (ascii_dec a a) as [_|H]; [apply IH | now elim H].
Qed.

Lemma slice0_short (n : nat) (s : string) : String.length s <= n -> slice0 n s = s.
Proof.
  revert s. induction n as [|n IH]; intros s; destruct s; simpl; try reflexivity; try lia.
  intros H. f_equal. apply IH. lia.
Qed.

Lemma isSpace_not_safe (c : ascii) : isSafe c = true -> isSpace c = false.
Proof.
  unfold isSafe, isLower, isDigit, isHyphen, isSpace. intros H.
  destruct (Ascii.eqb c "-") eqn:E; [apply Ascii.eqb_eq in E; subst c; reflexivity|].
  rewrite orb_false_r in H.
  apply orb_prop in H.
  destruct H as [H|H]; apply andb_prop in H; destruct H as [H1 H2];
    apply Nat.leb_le in H1; apply Nat.leb_le in H2;
    apply orb_false_intro;
    try (apply andb_false_intro2; apply Nat.leb_gt; lia);
    apply Nat.eqb_neq; lia.
Qed.

Lemma isUpper_not_safe (c : ascii) : isSafe c = true -> isUpper c = false.
Proof.
  unfold isSafe, isLower, isDigit, isHyphen, isUpper. intros H.
  destruct (Ascii.eqb c "-") eqn:E; [apply Ascii.eqb_eq in E; subst c; reflexivity|].
  rewrite orb_false_r in H.
  apply orb_prop in H.
  destruct H as [H|H]; apply andb_prop in H; destruct H as [H1 H2];
    apply Nat.leb_le in H1; apply Nat.leb_le in H2;
    [apply andb_false_intro2 | apply andb_false_intro1]; apply Nat.leb_gt; lia.
Qed.

Lemma plain_title_unchanged (s : string) :
  allChars isSafe s = true ->
  forall inRun, toLowerCase (hyphenate inRun (removeUnsafe s)) = s.
Proof.
  induction s as [|c s IH]; simpl; [reflexivity|]. intros H inRun.
  apply andb_prop in H. destruct H as [Hc Hs].
  pose proof (isSpace_not_safe c Hc) as Hsp. pose proof (isUpper_not_safe c Hc) as Hup.
  rewrite Hsp, Hup.
  replace (isLower c || false || isDigit c || false || isHyphen c) with true
    by (unfold isSafe in Hc; destruct (isLower c), (isDigit c), (isHyphen c);
        simpl in *; congruence).
  simpl. rewrite Hsp. simpl. unfold lowerChar. rewrite Hup. now rewrite IH.
Qed.

Section Format.
Variable format : Timestamp -> string -> result string.

(** X18.  When date-fns formats the creation date, the file name of a
    conversation is that text, a safe title and the first eight characters
    of the id, joined by underscores and followed by [.md]; when it throws
    (the date is invalid), [generateFilename] throws that exception.  The
    safe title has at most fifty characters, each a small letter, a digit
    or a hyphen, whatever the title; a title of at most fifty such
    characters is kept as it is. *)
Theorem generateFilename_safe (conversation : ProcessedConversation) :
  (forall date, format (created conversation) "yyyy-MM-dd" = Ok date ->
     exists safeTitle idPart,
       generateFilename format conversation
       = Ok (date ++ "_" ++ safeTitle ++ "_" ++ idPart ++ ".md")%string
       /\ allChars isSafe safeTitle = true
       /\ String.length safeTitle <= 50
       /\ idPart = slice0 8 (pc_id conversation)
       /\ String.prefix idPart (pc_id conversation) = true
       /\ String.length idPart <= 8
       /\ (allChars isSafe (pc_title conversation) = true ->
           String.length (pc_title conversation) <= 50 ->
           safeTitle = pc_title conversation))
  /\ (forall e, format (created conversation) "yyyy-MM-dd" = Throw e ->
       generateFilename format conversation = Throw e).
Proof.
  unfold generateFilename. split.
  - intros date ->. cbn [rbind]. eexists. eexists. split; [reflexivity|].
    split.
    { apply slice0_all. apply toLowerCase_safe. apply hyphenate_joined.
      apply removeUnsafe_kept. }
    split; [apply slice0_length|]. split; [reflexivity|].
    split; [apply slice0_prefix|]. split; [apply slice0_length|].
    intros Hsafe Hlen. rewrite (plain_title_unchanged _ Hsafe). now apply slice0_short.
  - intros e ->. reflexivity.
Qed.
End Format.

End MarkdownFacts.
